(** * Nogger: the logging server of [src/server.js]

    A shallow embedding of the Express handlers of [server.js] and of the
    [Logger] class they share, together with the parts of the JavaScript
    runtime they rely on (strings, arrays, [JSON], regular expressions and
    the [fs] calls), and the properties of the log store proved about them.

    Conventions of the embedding.
    - A JavaScript string is the list of its UTF-16 code units, each an [N].
      A file is the string that [fs.readFile(path, 'utf8')] returns.
    - The logs directory is a finite map from file names to file contents,
      with the names that cannot be written to; an [fs] call returns its
      result or throws.
    - [new Date().toISOString()] is an argument of the function that calls
      it: the handlers are functions of the request, the clock and the disk.
    - An object is the list of its properties in the order they were set.
    - A file holds text: [fs.appendFile] encodes a string as UTF-8 and
      [fs.readFile(path, 'utf8')] decodes it, so what is read back of an
      appended string is the string with each lone surrogate replaced by
      U+FFFD ([toWellFormed]).
    - Numbers are the integers.  JavaScript holds an integer exactly and
      prints it digit by digit, as [num_chars] does, up to 2^53 - 1 in
      magnitude, and it lists the property names that are array indices
      before the others.  The statements about the text of a line or of
      a record are for the values that the embedding holds as JavaScript
      does ([modelled]): numbers in that range, no property name made of
      digits only.  Numerals with a fraction or an exponent are outside
      the model of [JSON.parse], which refuses them; the statements about
      the parsing of arbitrary text are for every parser
      ([parse_entry_with]).
    - A file name is a name in the logs directory.  The name that the page
      builds from a selector is read as it is, which is what [path.join]
      makes of it when the selector holds no [/].
    - The routes [/api/log/api-failed], [/api/log/error], [/api/log/info]
      and [/api/health] are not part of the embedding. *)

From Stdlib Require Import ZArith NArith List String Ascii Bool Lia.
From Stdlib Require Import Decimal DecimalFacts DecimalN.
From stdpp Require Import base gmap list.

Import ListNotations.
Local Open Scope list_scope.

(** ** Strings *)

Abbreviation str := (list N).

(** A string literal of the source, as code units. *)
Definition lit (s : string) : str :=
  List.map N_of_ascii (list_ascii_of_string s).
Arguments lit s%_string.

Definition str_eqb (a b : str) : bool :=
  if decide (a = b) then true else false.

(** [WhiteSpace] and [LineTerminator] of ECMAScript: what [trim] strips and
    what [\s] matches. *)
Definition is_space (c : N) : bool :=
  match c with
  | 9 | 10 | 11 | 12 | 13 | 32 | 160 | 5760
  | 8192 | 8193 | 8194 | 8195 | 8196 | 8197 | 8198 | 8199 | 8200 | 8201 | 8202
  | 8232 | 8233 | 8239 | 8287 | 12288 | 65279 => true
  | _ => false
  end%N.

(** [LineTerminator]: what [.] does not match. *)
Definition is_line_terminator (c : N) : bool :=
  match c with
  | 10 | 13 | 8232 | 8233 => true
  | _ => false
  end%N.

Fixpoint trimStart (s : str) : str :=
  match s with
  | c :: s' => if is_space c then trimStart s' else s
  | [] => []
  end.

Definition trimEnd (s : str) : str := rev (trimStart (rev s)).

(** [s.trim()] *)
Definition trim (s : str) : str := trimEnd (trimStart s).

(** [String.prototype.toUpperCase] on the letters a-z.  The only receiver
    in [server.js] is an event type, which the handler has checked to be
    one of three ASCII words. *)
Definition upper_char (c : N) : N :=
  if ((97 <=? c) && (c <=? 122))%N then (c - 32)%N else c.

Definition toUpperCase (s : str) : str := List.map upper_char s.

(** ['='.repeat(50)] and the like. *)
Definition repeat_str (s : str) (n : nat) : str := concat (repeat s n).

(** [parts.join(sep)] on strings. *)
Fixpoint join (sep : str) (parts : list str) : str :=
  match parts with
  | [] => []
  | [p] => p
  | p :: ps => p ++ sep ++ join sep ps
  end.

(** ** Arrays *)

(** [arr.slice(start)]: a negative [start] counts from the end, and both
    ends are clamped. *)
Definition slice_from {A} (start : Z) (l : list A) : list A :=
  let len := Z.of_nat (length l) in
  let k := if (start <? 0)%Z then Z.max (len + start) 0 else Z.min start len in
  drop (Z.to_nat k) l.

(** [s.split(sep)] for a non-empty separator: the separators are found from
    the left and do not overlap.  [skip] counts the code units of a
    separator that are still to be passed over; the result is the current
    piece and the pieces after it. *)
Fixpoint is_prefix (p s : str) : bool :=
  match p, s with
  | [], _ => true
  | _ :: _, [] => false
  | a :: p', b :: s' => (a =? b)%N && is_prefix p' s'
  end.

Fixpoint split_go (sep : str) (skip : nat) (s : str) : str * list str :=
  match s with
  | [] => ([], [])
  | c :: s' =>
      match skip with
      | S k => split_go sep k s'
      | O =>
          if is_prefix sep s
          then let '(p, ps) := split_go sep (length sep - 1) s' in ([], p :: ps)
          else let '(p, ps) := split_go sep 0 s' in (c :: p, ps)
      end
  end.

Definition split (sep : str) (s : str) : list str :=
  let '(p, ps) := split_go sep 0 s in p :: ps.

(** The two separators of [server.js]. *)
Definition newline : str := [10%N].
Definition delimiter : str := repeat_str (lit "=") 50.

(** [x => x.trim()] as a filter: a string is kept when its trimmed form is
    not the empty string. *)
Definition nonblank (s : str) : bool :=
  match trim s with [] => false | _ :: _ => true end.

(** ** Values *)

(** The JavaScript values the handlers see: what [express.json()] produces
    from a request body, and [undefined] for what is absent.  An object is
    the list of its own properties in enumeration order. *)
#[local] Unset Elimination Schemes.
Inductive value : Type :=
| VUndef
| VNull
| VBool (b : bool)
| VNum (z : Z)
| VStr (s : str)
| VArr (items : list value)
| VObj (props : list (str * value)).
#[local] Set Elimination Schemes.

(** [if (v)], [!v], [v ? a : b] *)
Definition truthy (v : value) : bool :=
  match v with
  | VUndef | VNull => false
  | VBool b => b
  | VNum z => negb (z =? 0)%Z
  | VStr s => match s with [] => false | _ => true end
  | VArr _ | VObj _ => true
  end.

(** Decimal digits of a natural number, most significant first. *)
Fixpoint uint_chars (d : Decimal.uint) : str :=
  match d with
  | Nil => []
  | D0 d => 48%N :: uint_chars d
  | D1 d => 49%N :: uint_chars d
  | D2 d => 50%N :: uint_chars d
  | D3 d => 51%N :: uint_chars d
  | D4 d => 52%N :: uint_chars d
  | D5 d => 53%N :: uint_chars d
  | D6 d => 54%N :: uint_chars d
  | D7 d => 55%N :: uint_chars d
  | D8 d => 56%N :: uint_chars d
  | D9 d => 57%N :: uint_chars d
  end.

Definition nat_chars (n : N) : str := uint_chars (N.to_uint n).

(** [String(z)] for an integer [z] *)
Definition num_chars (z : Z) : str :=
  if (z <? 0)%Z then 45%N :: nat_chars (Z.abs_N z) else nat_chars (Z.to_N z).

(** *** Exceptions

    What a JavaScript expression evaluates to: a value, or a thrown error. *)
Inductive error : Type :=
| TypeError
| SyntaxError
| ENOENT
| EACCES.

Inductive outcome (A : Type) : Type :=
| Return (a : A)
| Throw (e : error).
Arguments Return {A} a.
Arguments Throw {A} e.

Definition bind {A B} (m : outcome A) (f : A -> outcome B) : outcome B :=
  match m with
  | Return a => f a
  | Throw e => Throw e
  end.

Notation "'let!' x ':=' m 'in' k" := (bind m (fun x => k))
  (at level 10, x name, m at level 100, k at level 200).

(** [try { m } catch (e) { h }] *)
Definition try_catch {A} (m : outcome A) (h : error -> outcome A) : outcome A :=
  match m with
  | Return a => Return a
  | Throw e => h e
  end.

(** *** Objects *)

Fixpoint obj_get (k : str) (o : list (str * value)) : value :=
  match o with
  | [] => VUndef
  | (k', v) :: o' => if str_eqb k k' then v else obj_get k o'
  end.

(** [o[k] = v]: an existing property keeps its place, a new one goes last. *)
Fixpoint obj_set (k : str) (v : value) (o : list (str * value))
  : list (str * value) :=
  match o with
  | [] => [(k, v)]
  | (k', v') :: o' =>
      if str_eqb k k' then (k, v) :: o' else (k', v') :: obj_set k v o'
  end.

(** [String(v)], the conversion a template literal applies to [${v}].
    In an array, [null] and [undefined] are joined as empty strings.  An
    object from a request body inherits [Object.prototype.toString], unless
    it has a property of that name: that property is no function, and the
    conversion throws. *)
Fixpoint toString (v : value) : outcome str :=
  match v with
  | VUndef => Return (lit "undefined")
  | VNull => Return (lit "null")
  | VBool true => Return (lit "true")
  | VBool false => Return (lit "false")
  | VNum z => Return (num_chars z)
  | VStr s => Return s
  | VArr items =>
      let! parts := (fix go (l : list value) : outcome (list str) :=
                  match l with
                  | [] => Return []
                  | x :: l' =>
                      let! p := match x with
                                | VUndef | VNull => Return []
                                | _ => toString x
                                end in
                      let! ps := go l' in
                      Return (p :: ps)
                  end) items in
      Return (join (lit ",") parts)
  | VObj props =>
      match obj_get (lit "toString") props with
      | VUndef => Return (lit "[object Object]")
      | _ => Throw TypeError
      end
  end.

(** Indexed properties of an array or of a string, from index [i]. *)
Fixpoint indexed {A} (f : A -> value) (i : N) (l : list A)
  : list (str * value) :=
  match l with
  | [] => []
  | x :: l' => (nat_chars i, f x) :: indexed f (N.succ i) l'
  end.

(** The own enumerable properties that [{...v}] copies. *)
Definition own_props (v : value) : list (str * value) :=
  match v with
  | VObj props => props
  | VArr items => indexed (fun x => x) 0 items
  | VStr s => indexed (fun c => VStr [c]) 0 s
  | _ => []
  end.

(** [{...v}] into the object under construction [target]: each property
    is set in turn. *)
Definition spread (v : value) (target : list (str * value))
  : list (str * value) :=
  fold_left (fun o kv => obj_set (fst kv) (snd kv) o) (own_props v) target.

(** ** [JSON.stringify(v, null, 2)] *)

Definition hex_char (d : N) : N :=
  if (d <? 10)%N then (48 + d)%N else (87 + d)%N.

(** [\uXXXX], in lower case as [QuoteJSONString] writes it. *)
Definition unicode_escape (c : N) : str :=
  lit "\u" ++ [hex_char ((c / 4096) mod 16); hex_char ((c / 256) mod 16);
               hex_char ((c / 16) mod 16); hex_char (c mod 16)]%N.

Definition is_high_surrogate (c : N) : bool := ((55296 <=? c) && (c <=? 56319))%N.
Definition is_low_surrogate (c : N) : bool := ((56320 <=? c) && (c <=? 57343))%N.

(** [s.toWellFormed()]: each surrogate that is not part of a pair is
    replaced by U+FFFD.  It is what the UTF-8 encoding of a string decodes
    to.  [paired] tells that the code unit before [s] was a high surrogate
    that [s] completes. *)
Definition next_is_low (s : str) : bool :=
  match s with
  | c :: _ => is_low_surrogate c
  | [] => false
  end.

Fixpoint well_formed (paired : bool) (s : str) : str :=
  match s with
  | [] => []
  | c :: s' =>
      if is_low_surrogate c then
        (if paired then c else 65533%N) :: well_formed false s'
      else if is_high_surrogate c then
        if next_is_low s' then c :: well_formed true s'
        else 65533%N :: well_formed false s'
      else c :: well_formed false s'
  end.

Definition toWellFormed (s : str) : str := well_formed false s.

(** One code unit that is not the first half of a surrogate pair. *)
Definition escape_char (c : N) : str :=
  match c with
  | 8 => lit "\b"
  | 9 => lit "\t"
  | 10 => lit "\n"
  | 12 => lit "\f"
  | 13 => lit "\r"
  | 34 => [92; 34]
  | 92 => [92; 92]
  | _ => if (c <? 32) || is_high_surrogate c || is_low_surrogate c
         then unicode_escape c else [c]
  end%N.

(** The body of [QuoteJSONString]: a surrogate pair is copied, a lone
    surrogate is escaped. *)
Fixpoint quote_body (s : str) : str :=
  match s with
  | [] => []
  | c :: s' =>
      if is_high_surrogate c then
        match s' with
        | d :: s'' =>
            if is_low_surrogate d then c :: d :: quote_body s''
            else unicode_escape c ++ quote_body s'
        | [] => unicode_escape c
        end
      else escape_char c ++ quote_body s'
  end.

Definition dquote : N := 34%N.

Definition quote (s : str) : str := dquote :: quote_body s ++ [dquote].

Definition pad (n : nat) : str := repeat 32%N n.

Definition is_defined (v : value) : bool :=
  match v with
  | VUndef => false
  | _ => true
  end.

(** The members of an object, each written by [f]; a property whose value
    is [undefined] is left out. *)
Fixpoint members (f : value -> str) (props : list (str * value)) : list str :=
  match props with
  | [] => []
  | (k, x) :: props' =>
      if is_defined x
      then (quote k ++ lit ": " ++ f x) :: members f props'
      else members f props'
  end.

(** [SerializeJSONProperty] with a gap of two spaces, at indentation [ind].
    An [undefined] array element is written [null]. *)
Fixpoint ser (ind : nat) (v : value) : str :=
  match v with
  | VUndef | VNull => lit "null"
  | VBool true => lit "true"
  | VBool false => lit "false"
  | VNum z => num_chars z
  | VStr s => quote s
  | VArr items =>
      match items with
      | [] => lit "[]"
      | _ =>
          lit "[" ++ newline ++ pad (ind + 2)
          ++ join (lit "," ++ newline ++ pad (ind + 2))
               (List.map (ser (ind + 2)) items)
          ++ newline ++ pad ind ++ lit "]"
      end
  | VObj props =>
      match members (ser (ind + 2)) props with
      | [] => lit "{}"
      | ms =>
          lit "{" ++ newline ++ pad (ind + 2)
          ++ join (lit "," ++ newline ++ pad (ind + 2)) ms
          ++ newline ++ pad ind ++ lit "}"
      end
  end.

(** [JSON.stringify(v, null, 2)]: a string, or [undefined] for [undefined]. *)
Definition JSON_stringify (v : value) : value :=
  match v with
  | VUndef => VUndef
  | _ => VStr (ser 0 v)
  end.

(** ** [JSON.parse] *)

(** JSON white space: tab, line feed, carriage return, space. *)
Definition is_json_ws (c : N) : bool :=
  match c with
  | 9 | 10 | 13 | 32 => true
  | _ => false
  end%N.

Fixpoint skip_ws (s : str) : str :=
  match s with
  | c :: s' => if is_json_ws c then skip_ws s' else s
  | [] => []
  end.

Definition hex_val (c : N) : option N :=
  if ((48 <=? c) && (c <=? 57))%N then Some (c - 48)%N
  else if ((97 <=? c) && (c <=? 102))%N then Some (c - 87)%N
  else if ((65 <=? c) && (c <=? 70))%N then Some (c - 55)%N
  else None.

Definition hex4 (a b c d : N) : option N :=
  match hex_val a, hex_val b, hex_val c, hex_val d with
  | Some x, Some y, Some z, Some w => Some (((x * 16 + y) * 16 + z) * 16 + w)%N
  | _, _, _, _ => None
  end.

(** A string after its opening quote: the decoded code units and what
    follows the closing quote. *)
Fixpoint parse_string_body (s : str) : option (str * str) :=
  match s with
  | [] => None
  | c :: s' =>
      if (c =? 34)%N then Some ([], s')
      else if (c =? 92)%N then
        match s' with
        | [] => None
        | e :: s'' =>
            let simple (x : N) :=
              match parse_string_body s'' with
              | Some (t, r) => Some (x :: t, r)
              | None => None
              end in
            match e with
            | 34 => simple 34
            | 92 => simple 92
            | 47 => simple 47
            | 98 => simple 8
            | 102 => simple 12
            | 110 => simple 10
            | 114 => simple 13
            | 116 => simple 9
            | 117 =>
                match s'' with
                | h1 :: h2 :: h3 :: h4 :: s4 =>
                    match hex4 h1 h2 h3 h4, parse_string_body s4 with
                    | Some x, Some (t, r) => Some (x :: t, r)
                    | _, _ => None
                    end
                | _ => None
                end
            | _ => None
            end%N
        end
      else if (c <? 32)%N then None
      else
        match parse_string_body s' with
        | Some (t, r) => Some (c :: t, r)
        | None => None
        end
  end.

Definition digit_of (c : N) : option (Decimal.uint -> Decimal.uint) :=
  match c with
  | 48 => Some D0 | 49 => Some D1 | 50 => Some D2 | 51 => Some D3
  | 52 => Some D4 | 53 => Some D5 | 54 => Some D6 | 55 => Some D7
  | 56 => Some D8 | 57 => Some D9
  | _ => None
  end%N.

(** The longest run of decimal digits at the head of [s]. *)
Fixpoint read_digits (s : str) : Decimal.uint * str :=
  match s with
  | c :: s' =>
      match digit_of c with
      | Some mk => let '(d, r) := read_digits s' in (mk d, r)
      | None => (Nil, s)
      end
  | [] => (Nil, [])
  end.

(** An integer numeral: an optional minus sign, then a lone zero or digits
    that do not start with a zero.  A fraction or an exponent after it is
    refused. *)
Definition parse_number (s : str) : option (Z * str) :=
  let '(neg, s1) := match s with
                    | 45%N :: s' => (true, s')
                    | _ => (false, s)
                    end in
  let '(d, r) := read_digits s1 in
  let continues := match r with
                   | c :: _ => (c =? 46)%N || (c =? 101)%N || (c =? 69)%N
                   | [] => false
                   end in
  let ok := match d with
            | Nil => false
            | D0 Nil => true
            | D0 _ => false
            | _ => true
            end in
  if ok && negb continues
  then Some (if neg then (- Z.of_N (N.of_uint d))%Z else Z.of_N (N.of_uint d), r)
  else None.

(** The members of an object in the order of the text; a repeated name
    keeps its first place and takes its last value. *)
Definition object_of (members : list (str * value)) : list (str * value) :=
  fold_left (fun o kv => obj_set (fst kv) (snd kv) o) members [].

Definition expect (word : str) (v : value) (s : str) : option (value * str) :=
  if is_prefix word s then Some (v, drop (length word) s) else None.

(** Recursive descent; every call takes one unit of [fuel]. *)
Fixpoint parse_value (fuel : nat) (s : str) {struct fuel}
  : option (value * str) :=
  match fuel with
  | O => None
  | S f =>
      match skip_ws s with
      | [] => None
      | c :: s' =>
          match c with
          | 123 =>
              match skip_ws s' with
              | 125 :: r => Some (VObj [], r)
              | _ =>
                  match parse_members f s' with
                  | Some (ms, r) => Some (VObj (object_of ms), r)
                  | None => None
                  end
              end
          | 91 =>
              match skip_ws s' with
              | 93 :: r => Some (VArr [], r)
              | _ =>
                  match parse_elements f s' with
                  | Some (vs, r) => Some (VArr vs, r)
                  | None => None
                  end
              end
          | 34 =>
              match parse_string_body s' with
              | Some (t, r) => Some (VStr t, r)
              | None => None
              end
          | 116 => expect (lit "true") (VBool true) (c :: s')
          | 102 => expect (lit "false") (VBool false) (c :: s')
          | 110 => expect (lit "null") VNull (c :: s')
          | _ =>
              match parse_number (c :: s') with
              | Some (z, r) => Some (VNum z, r)
              | None => None
              end
          end%N
      end
  end
with parse_elements (fuel : nat) (s : str) {struct fuel}
  : option (list value * str) :=
  match fuel with
  | O => None
  | S f =>
      match parse_value f s with
      | None => None
      | Some (v, r) =>
          match skip_ws r with
          | 44%N :: r' =>
              match parse_elements f r' with
              | Some (vs, r'') => Some (v :: vs, r'')
              | None => None
              end
          | 93%N :: r' => Some ([v], r')
          | _ => None
          end
      end
  end
with parse_members (fuel : nat) (s : str) {struct fuel}
  : option (list (str * value) * str) :=
  match fuel with
  | O => None
  | S f =>
      match skip_ws s with
      | 34%N :: s1 =>
          match parse_string_body s1 with
          | None => None
          | Some (k, r) =>
              match skip_ws r with
              | 58%N :: r1 =>
                  match parse_value f r1 with
                  | None => None
                  | Some (v, r2) =>
                      match skip_ws r2 with
                      | 44%N :: r3 =>
                          match parse_members f r3 with
                          | Some (ms, r4) => Some ((k, v) :: ms, r4)
                          | None => None
                          end
                      | 125%N :: r3 => Some ([(k, v)], r3)
                      | _ => None
                      end
                  end
              | _ => None
              end
          end
      | _ => None
      end
  end.

(** [JSON.parse(text)]: the value, or a [SyntaxError]. *)
Definition JSON_parse (text : str) : outcome value :=
  match parse_value (S (length text)) text with
  | Some (v, r) =>
      match skip_ws r with
      | [] => Return v
      | _ :: _ => Throw SyntaxError
      end
  | None => Throw SyntaxError
  end.

(** ** Regular expressions

    The fragment of ECMAScript patterns that [server.js] uses, with the
    backtracking order of the language: a character set, a greedy or lazy
    repetition of a set, sequence, a greedy optional group, a capturing
    group and the end-of-input assertion. *)
Inductive re : Type :=
| Eps
| Chr (p : N -> bool)
| Rep (greedy : bool) (min : nat) (p : N -> bool)
| Seq (r1 r2 : re)
| Opt (r : re)
| Cap (i : nat) (r : re)
| Eoi.

Section Matcher.
Context {R : Type}.

(** [p*], [p+], [p*?], [p+?] against [s], then the continuation [k] on
    what is left. *)
Fixpoint rep (greedy : bool) (p : N -> bool) (min : nat) (s : str)
    (k : str -> option R) {struct s} : option R :=
  match min, s with
  | S m, c :: s' => if p c then rep greedy p m s' k else None
  | S _, [] => None
  | O, [] => k []
  | O, c :: s' =>
      if greedy then
        if p c then
          match rep greedy p 0 s' k with
          | Some x => Some x
          | None => k s
          end
        else k s
      else
        match k s with
        | Some x => Some x
        | None => if p c then rep greedy p 0 s' k else None
        end
  end.

Fixpoint mt (r : re) (s : str) (caps : list (option str))
    (k : str -> list (option str) -> option R) : option R :=
  match r with
  | Eps => k s caps
  | Chr p =>
      match s with
      | c :: s' => if p c then k s' caps else None
      | [] => None
      end
  | Rep g min p => rep g p min s (fun s' => k s' caps)
  | Seq r1 r2 => mt r1 s caps (fun s' caps' => mt r2 s' caps' k)
  | Opt r1 =>
      match mt r1 s caps k with
      | Some x => Some x
      | None => k s caps
      end
  | Cap i r1 =>
      mt r1 s caps
        (fun s' caps' =>
           k s' (<[i := Some (take (length s - length s') s)]> caps'))
  | Eoi =>
      match s with
      | [] => k s caps
      | _ :: _ => None
      end
  end.
End Matcher.

(** [s.match(r)] for a pattern without the [g] flag: the first position of
    [s] where [r] matches, as the array of the match and its [groups]
    groups ([None] for a group that took no part), or [null]. *)
Fixpoint str_match (r : re) (groups : nat) (s : str)
  : option (list (option str)) :=
  match
    mt r s (replicate (S groups) None)
      (fun s' caps => Some (<[0 := Some (take (length s - length s') s)]> caps))
  with
  | Some m => Some m
  | None =>
      match s with
      | [] => None
      | _ :: s' => str_match r groups s'
      end
  end.

(** [m[i]] *)
Definition group (m : list (option str)) (i : nat) : value :=
  match m !! i with
  | Some (Some s) => VStr s
  | _ => VUndef
  end.

Definition seq_re (rs : list re) : re := fold_right Seq Eps rs.
Definition is_char (x c : N) : bool := (c =? x)%N.
Definition one_of (set : str) (c : N) : bool := existsb (N.eqb c) set.
Definition any_char (c : N) : bool := is_space c || negb (is_space c).
Definition dot (c : N) : bool := negb (is_line_terminator c).

Definition backslash : N := 92%N.

(** [/\{[\s\S]*\}/], line 234 *)
Definition json_pattern : re :=
  seq_re [Chr (is_char 123); Rep true 0 any_char; Chr (is_char 125)].

(** The pattern of line 553 as the source has it,
    [/\\[(.+?)\\] \\[(.+?)\\] (.+?)(?:\\s-\\s(.+))?$/]: each doubled
    backslash is a literal backslash, each bracket after it opens a
    character class holding the characters ( . + ? ) and the backslash,
    and the pattern has two capturing groups. *)
Definition line_pattern : re :=
  seq_re [Chr (is_char backslash); Chr (one_of (lit "(.+?)\"));
          Chr (is_char 32);
          Chr (is_char backslash); Chr (one_of (lit "(.+?)\"));
          Chr (is_char 32);
          Cap 1 (Rep false 1 dot);
          Opt (seq_re [Chr (is_char backslash); Chr (is_char 115);
                       Chr (is_char 45);
                       Chr (is_char backslash); Chr (is_char 115);
                       Cap 2 (Rep true 1 dot)]);
          Eoi].

(** ** The logs directory *)

(** The files of [logsDir] by name, and the names that cannot be written
    to. *)
Record disk : Type := Disk {
  files : gmap (list N) (list N);
  readonly : gset (list N)
}.

(** [fs.readFile(path, 'utf8')] *)
Definition readFile (d : disk) (name : str) : outcome str :=
  match files d !! name with
  | Some data => Return data
  | None => Throw ENOENT
  end.

(** [fs.writeFile(path, data)]: creates or replaces the file.  The data
    is written in UTF-8. *)
Definition writeFile (d : disk) (name : str) (data : str) : outcome disk :=
  if decide (name ∈ readonly d) then Throw EACCES
  else Return (Disk (<[name := toWellFormed data]> (files d)) (readonly d)).

(** [fs.appendFile(path, data)]: creates the file when it is absent.  The
    data is written in UTF-8, each call encoding its own string. *)
Definition appendFile (d : disk) (name : str) (data : str) : outcome disk :=
  if decide (name ∈ readonly d) then Throw EACCES
  else Return (Disk (<[name := default [] (files d !! name) ++ toWellFormed data]>
                       (files d))
                 (readonly d)).

(** The content of a stream, empty when the file is absent. *)
Definition content (d : disk) (name : str) : str :=
  default [] (files d !! name).

(** ** [class Logger] *)

(** A default parameter [x = dflt]: it replaces [undefined] only. *)
Definition or_default (dflt v : value) : value :=
  match v with
  | VUndef => dflt
  | _ => v
  end.


Definition logFile : str := lit "app_logs.txt".

(** [`${type}_logs.txt`] *)
Definition typeFile (type : str) : str := type ++ lit "_logs.txt".

(** The [logEntry] object of [Logger.log]. *)
Definition logEntry (timestamp type : str) (title description metadata : value)
  : value :=
  VObj [(lit "timestamp", VStr timestamp); (lit "type", VStr type);
        (lit "title", title); (lit "description", description);
        (lit "metadata", metadata)].

(** The [logLine] template of [Logger.log], up to its line break. *)
Definition compact_line (timestamp type : str) (title description : value)
  : outcome str :=
  let! t := toString title in
  let! tail := (if truthy description
                then let! d := toString description in Return (lit " - " ++ d)
                else Return []) in
  Return (lit "[" ++ timestamp ++ lit "] [" ++ toUpperCase type ++ lit "] "
          ++ t ++ tail).

Definition logLine (timestamp type : str) (title description : value)
  : outcome str :=
  let! l := compact_line timestamp type title description in
  Return (l ++ newline).

(** The [detailedLog] template of [Logger.log]. *)
Definition detailedLog (entry : value) : outcome str :=
  let! j := toString (JSON_stringify entry) in
  Return (j ++ newline ++ delimiter ++ newline).

(** [logger.log(type, title, description, metadata)] at the instant
    [timestamp]; the two default parameters replace [undefined].  The two
    templates are evaluated before the [try] block, so what they throw
    leaves the method; what the appends throw makes it return [false]. *)
Definition Logger_log (timestamp : str) (type : str)
    (title description metadata : value) (d : disk) : outcome (bool * disk) :=
  let description := or_default (VStr []) description in
  let metadata := or_default (VObj []) metadata in
  let entry := logEntry timestamp type title description metadata in
  let! line := logLine timestamp type title description in
  let! detailed := detailedLog entry in
  match appendFile d logFile line with
  | Throw _ => Return (false, d)
  | Return dk =>
      match appendFile dk (typeFile type) detailed with
      | Throw _ => Return (false, dk)
      | Return dk' => Return (true, dk')
      end
  end.

(** ** The handlers *)

(** A response: [res.status(s).json(body)], or the page that [GET /logs]
    sends. *)
Inductive block : Type :=
| SimpleEntry (type : str) (timestamp : value) (title : str)
    (description : option str)
| PlainEntry (text : str)
| DetailedEntry (type : str) (timestamp : value) (title : str)
    (description : option str) (metadata : option str).

Inductive page : Type :=
| EmptyState
| Entries (blocks : list block)
| ErrorPage.

Inductive response : Type :=
| Json (status : nat) (body : value)
| Html (status : nat) (p : page).

(** What a handler reads of the request: the parsed body, the
    [user-agent] header, [req.ip], and the [type] and [limit] parameters
    of the query.  [query_limit] is the integer that [slice] makes of
    [-limit], with the sign put back: 0 when the parameter is not a
    number, [None] when it is absent. *)
Record request : Type := Request {
  body : value;
  user_agent : value;
  ip : value;
  query_type : value;
  query_limit : option Z
}.

Definition allowedTypes : list str := [lit "api-failed"; lit "log"; lit "error"].

(** [list.includes(v)] for a list of strings *)
Definition includes (l : list str) (v : value) : bool :=
  match v with
  | VStr s => existsb (str_eqb s) l
  | _ => false
  end.

(** The code units of a value known to be a string. *)
Definition str_of (v : value) : str :=
  match v with
  | VStr s => s
  | _ => []
  end.

(** [o.k], and the [k] of [const { k } = o]: reading a property of
    [undefined] or [null] throws; the values of a request body other than
    objects have none of the properties the handlers read. *)
Definition get_prop (k : str) (o : value) : outcome value :=
  match o with
  | VUndef | VNull => Throw TypeError
  | VObj props => Return (obj_get k props)
  | _ => Return VUndef
  end.

Definition failure (status : nat) (msg : str) : response :=
  Json status (VObj [(lit "success", VBool false); (lit "error", VStr msg)]).

(** The [metadata] argument that the handler builds for [logger.log]. *)
Definition request_metadata (metadata ua addr : value) : value :=
  VObj (obj_set (lit "source") (VStr (lit "react-native-app"))
          (obj_set (lit "ip") addr
             (obj_set (lit "userAgent") ua (spread metadata [])))).

(** [app.post('/api/log', ...)], lines 65-112.  [now] is the clock when
    [logger.log] reads it and [later] when the reply is built. *)
Definition post_log (req : request) (now later : str) (d : disk)
  : response * disk :=
  let attempt : outcome (response * disk) :=
    let! type := get_prop (lit "type") (body req) in
    let! title := get_prop (lit "title") (body req) in
    let! description := get_prop (lit "description") (body req) in
    let! metadata := get_prop (lit "metadata") (body req) in
    let description := or_default (VStr []) description in
    let metadata := or_default (VObj []) metadata in
    if negb (truthy type) || negb (truthy title) then
      Return (failure 400 (lit "Type and title are required fields"), d)
    else if negb (includes allowedTypes type) then
      Return (failure 400 (lit "Invalid event type. Allowed types: "
                           ++ join (lit ", ") allowedTypes), d)
    else
      let! r := Logger_log now (str_of type) title description
                  (request_metadata metadata (user_agent req) (ip req)) d in
      if fst r then
        Return (Json 200 (VObj [(lit "success", VBool true);
                                (lit "message", VStr (lit "Log entry created successfully"));
                                (lit "timestamp", VStr later)]), snd r)
      else Return (failure 500 (lit "Failed to write log entry"), snd r) in
  match attempt with
  | Return x => x
  | Throw _ => (failure 500 (lit "Internal server error"), d)
  end.

(** The file that [GET /api/logs] reads, lines 138-141. *)
Definition api_filename (type : value) : str :=
  if truthy type && includes allowedTypes type
  then typeFile (str_of type)
  else lit "app_logs.txt".

(** [app.get('/api/logs', ...)], lines 134-171 *)
Definition get_logs (req : request) (d : disk) : response :=
  let limit := default 100%Z (query_limit req) in
  let filename := api_filename (query_type req) in
  match readFile d filename with
  | Return data =>
      let lines := List.filter nonblank (split newline data) in
      let recentLines := slice_from (- limit) lines in
      Json 200 (VObj [(lit "success", VBool true);
                      (lit "logs", VArr (List.map VStr recentLines));
                      (lit "count", VNum (Z.of_nat (length recentLines)));
                      (lit "file", VStr filename)])
  | Throw _ =>
      Json 200 (VObj [(lit "success", VBool true);
                      (lit "logs", VArr []);
                      (lit "count", VNum 0);
                      (lit "message", VStr (lit "No logs found"))])
  end.

Definition all_files : list str :=
  [lit "app_logs.txt"; lit "api-failed_logs.txt"; lit "log_logs.txt";
   lit "error_logs.txt"].

(** The loop of lines 185-191: a write that fails is passed over. *)
Definition clear_files (names : list str) (d : disk) : disk :=
  fold_left (fun dk name =>
               match writeFile dk name [] with
               | Return dk' => dk'
               | Throw _ => dk
               end) names d.

(** [app.delete('/api/logs', ...)], lines 174-201 *)
Definition delete_logs (req : request) (d : disk) : response * disk :=
  let type := query_type req in
  if truthy type && includes allowedTypes type then
    match writeFile d (typeFile (str_of type)) [] with
    | Return d' =>
        (Json 200 (VObj [(lit "success", VBool true);
                         (lit "message", VStr (str_of type ++ lit " logs cleared"))]),
         d')
    | Throw _ => (failure 500 (lit "Failed to clear logs"), d)
    end
  else
    (Json 200 (VObj [(lit "success", VBool true);
                     (lit "message", VStr (lit "All logs cleared"))]),
     clear_files all_files d).

Fixpoint map_outcome {A B} (f : A -> outcome B) (l : list A) : outcome (list B) :=
  match l with
  | [] => Return []
  | x :: l' =>
      let! y := f x in
      let! ys := map_outcome f l' in
      Return (y :: ys)
  end.

(** The read of [GET /logs] calls [JSON.parse] on text that it has not
    written itself.  Here the parser is a parameter: [parse] returns, or
    throws on, any text, and its values are of any type [V] that holds the
    strings, through [inj]. *)
Section Parser.
Context {V : Type} (inj : str -> V) (parse : str -> outcome V).

(** The callback of [entries.map], lines 232-242. *)
Definition parse_entry_with (entry : str) : outcome V :=
  try_catch
    (match str_match json_pattern 0 entry with
     | Some jsonMatch => parse (str_of (group jsonMatch 0))
     | None => Return (inj (trim entry))
     end)
    (fun _ => Return (inj (trim entry))).

(** The [logs] array of [GET /logs], lines 205-246. *)
Definition view_entries_with (req : request) (d : disk) : list V :=
  let limit := default 50%Z (query_limit req) in
  let selectedType :=
    if truthy (query_type req) then query_type req else VStr (lit "all") in
  let fallback (msg : str) (m : outcome (list V)) : list V :=
    match m with
    | Return logs => logs
    | Throw _ => [inj msg]
    end in
  if includes [lit "all"] selectedType then
    fallback (lit "No logs found")
      (let! data := readFile d (lit "app_logs.txt") in
       Return (List.map inj
                 (rev (slice_from (- limit)
                         (List.filter nonblank (split newline data))))))
  else
    fallback (lit "No logs found for this type")
      (let! name := toString selectedType in
       let! data := readFile d (name ++ lit "_logs.txt") in
       let entries := rev (slice_from (- limit)
                             (List.filter nonblank (split delimiter data))) in
       map_outcome parse_entry_with entries).

End Parser.

(** The callback and the read with the model of [JSON.parse]. *)
Definition parse_entry : str -> outcome value := parse_entry_with VStr JSON_parse.

Definition view_entries : request -> disk -> list value :=
  view_entries_with VStr JSON_parse.

(** [Object.keys(v).length] *)
Definition keys_length (v : value) : outcome nat :=
  match v with
  | VUndef | VNull => Throw TypeError
  | _ => Return (length (own_props v))
  end.

(** The callback of [logs.map] in the page template, lines 550-591.  The
    class attribute of an entry is its type in lower case; [timestamp] is
    the argument of [new Date]. *)
Definition render_log (log : value) : outcome block :=
  match log with
  | VStr s =>
      match str_match line_pattern 2 s with
      | Some m =>
          let timestamp := group m 1 in
          let type := group m 2 in
          let title := group m 3 in
          let description := group m 4 in
          match type with
          | VStr ty =>
              let! t := toString title in
              let! desc := (if truthy description
                            then let! x := toString description in Return (Some x)
                            else Return None) in
              Return (SimpleEntry ty timestamp t desc)
          | _ => Throw TypeError
          end
      | None => Return (PlainEntry s)
      end
  | _ =>
      let! type := get_prop (lit "type") log in
      let! ty := toString type in
      let! timestamp := get_prop (lit "timestamp") log in
      let! _ := toString timestamp in
      let! title := get_prop (lit "title") log in
      let! t := toString title in
      let! description := get_prop (lit "description") log in
      let! desc := (if truthy description
                    then let! x := toString description in Return (Some x)
                    else Return None) in
      let! metadata := get_prop (lit "metadata") log in
      let! n := keys_length metadata in
      let! md := (if (0 <? n)%nat
                  then let! x := toString (JSON_stringify metadata) in Return (Some x)
                  else Return None) in
      Return (DetailedEntry ty timestamp t desc md)
  end.

(** [app.get('/logs', ...)], lines 203-650 *)
Definition view_logs (req : request) (d : disk) : response :=
  let logs := view_entries req d in
  let empty :=
    match logs with
    | [] => true
    | [VStr s] => str_eqb s (lit "No logs found")
    | _ => false
    end in
  if empty then Html 200 EmptyState
  else
    match map_outcome render_log logs with
    | Return blocks => Html 200 (Entries blocks)
    | Throw _ => Html 500 ErrorPage
    end.

(** ** Vocabulary of the statements *)

(** A field of a request body that is missing or the empty string. *)
Definition absent_or_empty (v : value) : Prop := v = VUndef \/ v = VStr [].

(** The body of a successful reply of [GET /api/logs] that carries no
    entry. *)
Definition empty_read (r : response) : Prop :=
  exists rest,
    r = Json 200 (VObj ((lit "success", VBool true) :: (lit "logs", VArr [])
                        :: (lit "count", VNum 0) :: rest)).

(** A request for the stream selector [type] with the limit [limit]. *)
Definition read_request (type : value) (limit : option Z) : request :=
  Request VUndef VUndef VUndef type limit.

(** The reply of a clear. *)
Definition cleared (msg : str) : response :=
  Json 200 (VObj [(lit "success", VBool true); (lit "message", VStr msg)]).

(** The selectors of the page that name one of the four streams: none,
    ['all'], or one of the three types. *)
Definition names_stream (type : value) : Prop :=
  truthy type = false \/ type = VStr (lit "all")
  \/ includes allowedTypes type = true.

(** The disk after [data] has been appended to the file [name]. *)
Definition appended (d : disk) (name data : str) : disk :=
  Disk (<[name := content d name ++ data]> (files d)) (readonly d).

(** The detailed record of a log entry: its JSON text, a line break, the
    delimiter, a line break. *)
Definition record_text (entry : value) : str :=
  ser 0 entry ++ newline ++ delimiter ++ newline.

(** The entry that [POST /api/log] hands to [logger.log] for the body
    [props], at the instant [now]. *)
Definition submitted_entry (props : list (str * value)) (ua addr : value)
    (now : str) : value :=
  logEntry now (str_of (obj_get (lit "type") props))
    (obj_get (lit "title") props)
    (or_default (VStr []) (obj_get (lit "description") props))
    (request_metadata (or_default (VObj []) (obj_get (lit "metadata") props))
       ua addr).

(** One call of [logger.log]: the instant it reads from the clock and its
    four arguments. *)
Record event : Type := Event {
  ev_timestamp : str;
  ev_type : str;
  ev_title : value;
  ev_description : value;
  ev_metadata : value
}.

Definition log_event (e : event) (d : disk) : outcome (bool * disk) :=
  Logger_log (ev_timestamp e) (ev_type e) (ev_title e) (ev_description e)
    (ev_metadata e) d.

(** The [logEntry] object of the call. *)
Definition entry_of (e : event) : value :=
  logEntry (ev_timestamp e) (ev_type e) (ev_title e)
    (or_default (VStr []) (ev_description e))
    (or_default (VObj []) (ev_metadata e)).

(** The compact line of the call, without its line break. *)
Definition line_of (e : event) : outcome str :=
  compact_line (ev_timestamp e) (ev_type e) (ev_title e)
    (or_default (VStr []) (ev_description e)).

(** [logged es d d']: the calls [es], made in this order from the disk
    [d], all returned [true] and left the disk [d']. *)
Inductive logged : list event -> disk -> disk -> Prop :=
| logged_nil d : logged [] d d
| logged_cons e es d dk d' :
    log_event e d = Return (true, dk) ->
    logged es dk d' ->
    logged (e :: es) d d'.

(** The events of the type [t] among [es], in their order. *)
Definition of_type (t : str) (es : list event) : list event :=
  List.filter (fun e => str_eqb (ev_type e) t) es.

(** [sep] occurs in [s]. *)
Fixpoint occurs (sep s : str) : bool :=
  is_prefix sep s
  || match s with
     | [] => false
     | _ :: s' => occurs sep s'
     end.

(** No occurrence of [sep] in [a ++ tail] starts in [a]. *)
Fixpoint free (sep a tail : str) : bool :=
  match a with
  | [] => true
  | _ :: a' => negb (is_prefix sep (a ++ tail)) && free sep a' tail
  end.

Definition line_feed_free (s : str) : bool := forallb (fun c => negb (c =? 10)%N) s.

(** The last [n] elements of a list. *)
Definition last_n {A} (n : nat) (l : list A) : list A := drop (length l - n) l.

(** What [JSON.parse] makes of the text that [JSON.stringify] makes of a
    value: [undefined] has become [null] in an array and has left the
    object it was a property of. *)
Fixpoint norm (v : value) : value :=
  match v with
  | VUndef => VNull
  | VArr items => VArr (List.map norm items)
  | VObj props =>
      VObj ((fix go (ps : list (str * value)) : list (str * value) :=
               match ps with
               | [] => []
               | (k, x) :: ps' =>
                   if is_defined x then (k, norm x) :: go ps' else go ps'
               end) props)
  | _ => v
  end.

(** The property names of every object in the value are distinct, as they
    are in a JavaScript object. *)
Fixpoint distinct_keys (v : value) : Prop :=
  match v with
  | VArr items =>
      (fix go (l : list value) : Prop :=
         match l with
         | [] => True
         | x :: l' => distinct_keys x /\ go l'
         end) items
  | VObj props =>
      NoDup (List.map fst props)
      /\ (fix go (ps : list (str * value)) : Prop :=
            match ps with
            | [] => True
            | kv :: ps' => distinct_keys (snd kv) /\ go ps'
            end) props
  | _ => True
  end.

(** A property name made of decimal digits only.  The array indices are
    among these names; JavaScript lists them before the other names of an
    object, whatever the order in which they were set. *)
Definition digits_only (k : str) : bool :=
  match k with
  | [] => false
  | _ => forallb (fun c => (48 <=? c) && (c <=? 57))%N k
  end.

(** The values that the embedding holds as JavaScript does: every number
    is an integer of magnitude at most 2^53 - 1, which JavaScript holds
    exactly and prints digit by digit, and no property name is made of
    digits only, so that the properties of an object are listed in the
    order in which they were set. *)
Fixpoint modelled (v : value) : bool :=
  match v with
  | VNum z => (Z.abs z <=? 9007199254740991)%Z
  | VArr items => forallb modelled items
  | VObj props =>
      (fix go (ps : list (str * value)) : bool :=
         match ps with
         | [] => true
         | (k, x) :: ps' => negb (digits_only k) && modelled x && go ps'
         end) props
  | _ => true
  end.

(** What may follow a numeral in a JSON text for [parse_number] to stop
    there: nothing, or a character that is no digit and starts no
    fraction or exponent. *)
Definition number_end (rest : str) : bool :=
  match rest with
  | [] => true
  | c :: _ =>
      match digit_of c with
      | Some _ => false
      | None => negb ((c =? 46)%N || (c =? 101)%N || (c =? 69)%N)
      end
  end.

(** A run of JSON white space. *)
Definition json_ws (ws : str) : Prop := Forall (fun c => is_json_ws c = true) ws.

(** The properties that [JSON.stringify] writes. *)
Definition defined_props (props : list (str * value)) : list (str * value) :=
  List.filter (fun kv => is_defined (snd kv)) props.

(** [v] is read back from its text, at any indentation, after any white
    space and before anything that does not continue a numeral, as soon
    as the fuel covers the text. *)
Definition roundtrips (v : value) : Prop :=
  forall ind ws rest fuel,
    json_ws ws -> number_end rest = true -> length (ser ind v) <= fuel ->
    parse_value fuel (ws ++ ser ind v ++ rest) = Some (norm v, rest).

(** The [logs] array of a reply of [GET /api/logs]. *)
Definition response_logs (r : response) : value :=
  match r with
  | Json _ (VObj props) => obj_get (lit "logs") props
  | _ => VUndef
  end.

(** The reply of [GET /api/logs] that carries the lines [lines] of the
    file [filename]. *)
Definition logs_reply (lines : list str) (filename : str) : response :=
  Json 200 (VObj [(lit "success", VBool true);
                  (lit "logs", VArr (List.map VStr lines));
                  (lit "count", VNum (Z.of_nat (length lines)));
                  (lit "file", VStr filename)]).

(** The disk after the calls [es], whatever they returned. *)
Fixpoint log_all (es : list event) (d : disk) : disk :=
  match es with
  | [] => d
  | e :: es' =>
      match log_event e d with
      | Return r => log_all es' (snd r)
      | Throw _ => log_all es' d
      end
  end.

(** The pattern as the specification words it, "[<timestamp>] [<TYPE>]
    <title>, optionally followed by  - <description>": the pattern of
    line 553 with single backslashes,
    [/\[(.+?)\] \[(.+?)\] (.+?)(?:\s-\s(.+))?$/], which has four
    capturing groups.  It is what [line_pattern] is compared with. *)
Definition spec_line_pattern : re :=
  seq_re [Chr (is_char 91); Cap 1 (Rep false 1 dot); Chr (is_char 93);
          Chr (is_char 32);
          Chr (is_char 91); Cap 2 (Rep false 1 dot); Chr (is_char 93);
          Chr (is_char 32);
          Cap 3 (Rep false 1 dot);
          Opt (seq_re [Chr is_space; Chr (is_char 45); Chr is_space;
                       Cap 4 (Rep true 1 dot)]);
          Eoi].

(** A code unit that is no surrogate, and a string of such. *)
Definition plain_char (c : N) : bool :=
  negb (is_high_surrogate c || is_low_surrogate c).

Definition plain (s : str) : bool := forallb plain_char s.

(** [s] is read back from a file as it was written, and does not start
    with the second half of a surrogate pair. *)
Definition whole (s : str) : Prop := toWellFormed s = s /\ next_is_low s = false.

(** What follows the first [c] in [s]. *)
Fixpoint after_first (c : N) (s : str) : option str :=
  match s with
  | [] => None
  | x :: s' => if (x =? c)%N then Some s' else after_first c s'
  end.

(** The text of [entry] from its first opening brace to the last closing
    brace after it. *)
Definition brace_span (entry : str) : option str :=
  match after_first 123 entry with
  | None => None
  | Some rest =>
      match after_first 125 (rev rest) with
      | None => None
      | Some behind => Some (123%N :: rev behind ++ [125%N])
      end
  end.

(** What an entry of a typed stream is read as: what the parser returns
    for the text between its first opening and its last closing brace or,
    when there is no such text or the parser throws on it, the trimmed
    entry. *)
Definition recovered {V} (inj : str -> V) (parse : str -> outcome V)
    (entry : str) (v : V) : Prop :=
  match brace_span entry with
  | Some text =>
      match parse text with
      | Return parsed => v = parsed
      | Throw _ => v = inj (trim entry)
      end
  | None => v = inj (trim entry)
  end.

(** [s] is empty or ends with [terminator]. *)
Definition closed_by (terminator s : str) : Prop :=
  s = [] \/ exists X, s = X ++ terminator.

(** The files of the four streams hold whole entries only: the aggregate
    file is empty or ends with a line break, a typed file is empty or
    ends with a line break, the delimiter and a line break.  This is how
    [Logger.log] and the clear leave them. *)
Definition tidy (d : disk) : Prop :=
  closed_by newline (content d logFile)
  /\ forall t, t ∈ allowedTypes ->
               closed_by (newline ++ delimiter ++ newline) (content d (typeFile t)).

(** The property names that the handler sets after copying the caller's
    metadata. *)
Definition server_keys : list str := [lit "userAgent"; lit "ip"; lit "source"].

(** ** Sample data *)

(** A logs directory with an aggregate stream and a stream of errors. *)
Definition two_streams : disk :=
  Disk {[ lit "app_logs.txt" := lit "[t] [ERROR] Crash" ++ newline;
          lit "error_logs.txt" := lit "{}" ++ newline ++ delimiter ++ newline ]} ∅.

(** The same directory when the stream of errors cannot be written. *)
Definition locked_streams : disk :=
  Disk (files two_streams) {[ lit "error_logs.txt" ]}.

(** The submission of the scenario of the specification, from a caller
    who also sends an [ip] of its own. *)
Definition crash_body : list (str * value) :=
  [(lit "type", VStr (lit "error")); (lit "title", VStr (lit "Crash"));
   (lit "description", VStr (lit "npe"));
   (lit "metadata", VObj [(lit "screen", VStr (lit "Home"));
                          (lit "ip", VStr (lit "10.0.0.1"))])].

Definition crash_request : request :=
  Request (VObj crash_body) (VStr (lit "okhttp/4.9.2")) (VStr (lit "::1"))
    VUndef None.

Definition noon : str := lit "2024-01-01T12:00:00.000Z".
Definition just_after_noon : str := lit "2024-01-01T12:00:00.002Z".

Definition empty_disk : disk := Disk ∅ ∅.

(** Three events of the type error, logged one after the other. *)
Definition three_errors : list event :=
  [Event (lit "2024-01-01T12:00:00.000Z") (lit "error") (VStr (lit "first"))
     (VStr []) (VObj [(lit "screen", VStr (lit "Home"))]);
   Event (lit "2024-01-01T12:00:01.000Z") (lit "error") (VStr (lit "second"))
     (VStr (lit "npe")) (VObj []);
   Event (lit "2024-01-01T12:00:02.000Z") (lit "error") (VStr (lit "third"))
     VUndef VUndef].

(** Their compact lines. *)
Definition three_lines : list str :=
  [lit "[2024-01-01T12:00:00.000Z] [ERROR] first";
   lit "[2024-01-01T12:00:01.000Z] [ERROR] second - npe";
   lit "[2024-01-01T12:00:02.000Z] [ERROR] third"].

(** The disk after the three calls, from an empty logs directory. *)
Definition after_three_errors : disk := log_all three_errors empty_disk.

(** Four events of two types, logged one after the other; the title of
    the last one ends with half of a surrogate pair. *)
Definition mixed_events : list event :=
  [Event (lit "2024-01-01T12:00:00.000Z") (lit "error") (VStr (lit "first"))
     (VStr []) (VObj [(lit "screen", VStr (lit "Home"))]);
   Event (lit "2024-01-01T12:00:01.000Z") (lit "log") (VStr (lit "started"))
     VUndef (VObj [(lit "build", VNum 42)]);
   Event (lit "2024-01-01T12:00:02.000Z") (lit "error") (VStr (lit "second"))
     (VStr (lit "npe")) (VObj []);
   Event (lit "2024-01-01T12:00:03.000Z") (lit "error")
     (VStr (lit "third " ++ [55357%N])) VUndef VUndef].

(** Their compact lines, as [Logger.log] builds them. *)
Definition mixed_lines : list str :=
  [lit "[2024-01-01T12:00:00.000Z] [ERROR] first";
   lit "[2024-01-01T12:00:01.000Z] [LOG] started";
   lit "[2024-01-01T12:00:02.000Z] [ERROR] second - npe";
   lit "[2024-01-01T12:00:03.000Z] [ERROR] third " ++ [55357%N]].

(** The disk after the four calls, from an empty logs directory. *)
Definition after_mixed_events : disk := log_all mixed_events empty_disk.

(** A submission whose title is the text of the record delimiter. *)
Definition delimiter_request : request :=
  Request (VObj [(lit "type", VStr (lit "error")); (lit "title", VStr delimiter)])
    (VStr (lit "okhttp/4.9.2")) (VStr (lit "::1")) VUndef None.

(** A stream of errors that holds a record that is no JSON text, a record
    without braces, and a well-formed record. *)
Definition garbled_stream : disk :=
  Disk {[ lit "error_logs.txt" :=
            lit "{not json}" ++ newline ++ delimiter ++ newline
            ++ lit "plain text" ++ newline ++ delimiter ++ newline
            ++ ser 0 (VObj [(lit "title", VStr (lit "Crash"))]) ++ newline
            ++ delimiter ++ newline ]} ∅.

(** ** Runs of the server *)

(** A request that may change the logs directory: a submission, with the
    two instants its handler reads from the clock, or a clear. *)
Inductive call : Type :=
| Submit (req : request) (now later : str)
| Clear (req : request).

Definition serve (c : call) (d : disk) : response * disk :=
  match c with
  | Submit req now later => post_log req now later d
  | Clear req => delete_logs req d
  end.

(** The logs directory after the calls [cs], served one after the other. *)
Definition run (cs : list call) (d : disk) : disk :=
  fold_left (fun dk c => snd (serve c dk)) cs d.

(** The lines of a file that [GET /api/logs] and the aggregate page keep
    before they apply the limit. *)
Definition kept_lines (data : str) : list str :=
  List.filter nonblank (split newline data).

(** A logs directory in which the stream of errors cannot be written. *)
Definition locked_errors : disk := Disk ∅ {[ lit "error_logs.txt" ]}.

(** The reply to an accepted submission. *)
Definition created (later : str) : response :=
  Json 200 (VObj [(lit "success", VBool true);
                  (lit "message", VStr (lit "Log entry created successfully"));
                  (lit "timestamp", VStr later)]).

(** A submission whose title is an object with a property named
    [toString]. *)
Definition unprintable_request : request :=
  Request (VObj [(lit "type", VStr (lit "log"));
                 (lit "title", VObj [(lit "toString", VNum 1)])])
    (VStr (lit "okhttp/4.9.2")) (VStr (lit "::1")) VUndef None.

(** Calls of the sample: two submissions, a clear of the errors, a
    submission that is rejected, and one more submission. *)
Definition sample_calls : list call :=
  [Submit crash_request noon just_after_noon;
   Submit delimiter_request noon just_after_noon;
   Clear (read_request (VStr (lit "error")) None);
   Submit unprintable_request noon just_after_noon;
   Submit crash_request just_after_noon just_after_noon].

(** A line that the pattern of line 553 matches. *)
Definition matched_line : str := lit "\( \( 12:00\s-\serror".

(** A record between two delimiters that holds two JSON texts. *)
Definition two_objects : str := newline ++ lit "{} {}" ++ newline.

(** * Properties *)

(** ** Strings and arrays *)

Lemma str_eqb_eq a b : str_eqb a b = true <-> a = b.
Proof. unfold str_eqb. destruct (decide (a = b)); split; congruence. Qed.

Lemma str_eqb_refl a : str_eqb a a = true.
Proof. now apply str_eqb_eq. Qed.

Example split_lines_ex :
  split newline (lit "a" ++ newline ++ lit "b" ++ newline ++ newline)
  = [lit "a"; lit "b"; []; []].
Proof. reflexivity. Qed.

Example stringify_ex :
  JSON_stringify (VObj [(lit "a", VNum 1); (lit "u", VUndef);
                        (lit "b", VArr [VStr (lit "x"); VNull])])
  = VStr (lit "{" ++ newline ++ lit "  " ++ [dquote] ++ lit "a" ++ [dquote] ++ lit ": 1," ++ newline
          ++ lit "  " ++ [dquote] ++ lit "b" ++ [dquote] ++ lit ": [" ++ newline
          ++ lit "    " ++ [dquote] ++ lit "x" ++ [dquote] ++ lit "," ++ newline
          ++ lit "    null" ++ newline ++ lit "  ]" ++ newline ++ lit "}").
Proof. reflexivity. Qed.

Example parse_ex :
  JSON_parse (ser 0 (VObj [(lit "a", VNum (-12)); (lit "u", VUndef);
                          (lit "b", VArr [VStr (lit "x\y" ++ [10; 55357; 56832; 55357]%N); VNull; VObj []])]))
  = Return (VObj [(lit "a", VNum (-12));
                  (lit "b", VArr [VStr (lit "x\y" ++ [10; 55357; 56832; 55357]%N); VNull; VObj []])]).
Proof. vm_compute. reflexivity. Qed.

(** ** Validation *)

Lemma absent_or_empty_falsy v : absent_or_empty v -> truthy v = false.
Proof. now intros [-> | ->]. Qed.

(** A request that fails either check is answered with status 400 and the
    disk it found. *)
Lemma post_log_rejects props ua addr qt ql now later d :
  truthy (obj_get (lit "type") props) = false
  \/ truthy (obj_get (lit "title") props) = false
  \/ includes allowedTypes (obj_get (lit "type") props) = false ->
  exists msg,
    post_log (Request (VObj props) ua addr qt ql) now later d
    = (failure 400 msg, d).
Proof.
  intros H. unfold post_log. cbn [body get_prop bind].
  destruct (truthy (obj_get (lit "type") props)) eqn:Ht;
    [destruct (truthy (obj_get (lit "title") props)) eqn:Hl|];
    cbn [negb orb]; eauto.
  destruct (includes allowedTypes (obj_get (lit "type") props)) eqn:Hi;
    cbn [negb]; eauto.
  destruct H as [H | [H | H]]; discriminate.
Qed.

(** C3: a submission whose type is absent or empty, whose title is absent
    or empty, or whose type is none of log, error and api-failed is
    answered with a validation failure (status 400, [success: false]), and
    the disk is the one the handler found: [Logger.log] has not run. *)
Theorem validation_rejects_without_writing props ua addr qt ql now later d :
  absent_or_empty (obj_get (lit "type") props)
  \/ absent_or_empty (obj_get (lit "title") props)
  \/ includes allowedTypes (obj_get (lit "type") props) = false ->
  exists msg,
    post_log (Request (VObj props) ua addr qt ql) now later d
    = (Json 400 (VObj [(lit "success", VBool false); (lit "error", VStr msg)]), d).
Proof.
  intros H. apply post_log_rejects.
  destruct H as [H | [H | H]]; auto using absent_or_empty_falsy.
Qed.

Lemma validation_rejects_without_writing_witness :
  exists msg,
    post_log (Request (VObj [(lit "type", VStr (lit "warning"));
                             (lit "title", VStr (lit "Disk almost full"))])
                VUndef VUndef VUndef None)
      (lit "2024-01-01T00:00:00.000Z") (lit "2024-01-01T00:00:00.001Z")
      (Disk ∅ ∅)
    = (Json 400 (VObj [(lit "success", VBool false); (lit "error", VStr msg)]),
       Disk ∅ ∅).
Proof.
  apply validation_rejects_without_writing.
  right. right. vm_compute. reflexivity.
Defined.

(** ** Splitting *)

Lemma split_go_all P sep s :
  Forall P s ->
  forall skip, Forall P (fst (split_go sep skip s))
               /\ Forall (Forall P) (snd (split_go sep skip s)).
Proof.
  induction 1 as [|c s Hc Hs IH]; intros skip; cbn [split_go].
  - split; constructor.
  - destruct skip as [|k]; [|apply IH].
    destruct (is_prefix sep (c :: s)).
    + destruct (IH (length sep - 1)) as [IH1 IH2].
      destruct (split_go sep (length sep - 1) s) as [p ps]; cbn in *.
      split; constructor; assumption.
    + destruct (IH 0) as [IH1 IH2].
      destruct (split_go sep 0 s) as [p ps]; cbn in *.
      split; [constructor|]; assumption.
Qed.

Lemma split_all P sep s : Forall P s -> Forall (Forall P) (split sep s).
Proof.
  intros H. unfold split. destruct (split_go_all P sep s H 0) as [H1 H2].
  destruct (split_go sep 0 s); cbn in *. constructor; assumption.
Qed.

Lemma trimStart_spaces s : Forall (fun c => is_space c = true) s -> trimStart s = [].
Proof. induction 1 as [|c s Hc _ IH]; cbn; [|rewrite Hc]; auto. Qed.

Lemma blank_spaces s : Forall (fun c => is_space c = true) s -> nonblank s = false.
Proof. intros H. unfold nonblank, trim. now rewrite trimStart_spaces. Qed.

Lemma filter_nonblank_spaces sep data :
  Forall (fun c => is_space c = true) data ->
  List.filter nonblank (split sep data) = [].
Proof.
  intros H. apply (split_all _ sep) in H.
  induction H as [|p ps Hp _ IH]; cbn; [|rewrite (blank_spaces p Hp)]; auto.
Qed.

Lemma slice_from_nil {A} k : slice_from k (@nil A) = [].
Proof. unfold slice_from. now rewrite drop_nil. Qed.

(** ** Reading a stream that is absent or blank *)

Lemma get_logs_missing_or_blank req d :
  files d !! api_filename (query_type req) = None
  \/ (exists data, files d !! api_filename (query_type req) = Some data
                   /\ Forall (fun c => is_space c = true) data) ->
  empty_read (get_logs req d).
Proof.
  intros [H | (data & H & Hblank)]; unfold get_logs, readFile; rewrite H.
  - eexists. reflexivity.
  - rewrite filter_nonblank_spaces by assumption.
    rewrite slice_from_nil. eexists. reflexivity.
Qed.

(** C6: when the file of the requested stream is absent, or holds nothing
    but white space (the empty file included), [GET /api/logs] answers
    with status 200, [success: true], an empty [logs] array and a [count]
    of 0, whatever the selector and the limit. *)
Theorem read_of_missing_or_blank_stream_is_empty req d :
  files d !! api_filename (query_type req) = None
  \/ (exists data, files d !! api_filename (query_type req) = Some data
                   /\ Forall (fun c => is_space c = true) data) ->
  empty_read (get_logs req d).
Proof. apply get_logs_missing_or_blank. Qed.

Lemma read_of_missing_or_blank_stream_is_empty_witness :
  empty_read (get_logs (read_request (VStr (lit "error")) (Some 10%Z)) (Disk ∅ ∅)).
Proof.
  apply read_of_missing_or_blank_stream_is_empty. left. reflexivity.
Defined.

(** ** The selector of [GET /api/logs] *)

(** C9: a read whose type selector is none of api-failed, log and error
    neither fails nor answers with an error: its reply is made of the
    content of [app_logs.txt], the last lines that are not blank, in the
    order of the file, with their count and the name of that file, or the
    empty reply when the file is absent; it is the reply of the read
    without a selector. *)
Theorem unknown_selector_reads_aggregate type limit d :
  includes allowedTypes type = false ->
  get_logs (read_request type limit) d
  = match files d !! lit "app_logs.txt" with
    | Some data =>
        logs_reply (slice_from (- default 100%Z limit) (kept_lines data))
          (lit "app_logs.txt")
    | None =>
        Json 200 (VObj [(lit "success", VBool true); (lit "logs", VArr []);
                        (lit "count", VNum 0);
                        (lit "message", VStr (lit "No logs found"))])
    end
  /\ get_logs (read_request type limit) d = get_logs (read_request VUndef limit) d.
Proof.
  intros H. assert (E : api_filename type = lit "app_logs.txt").
  { unfold api_filename. rewrite H. now rewrite andb_false_r. }
  unfold get_logs, readFile. cbn [query_type query_limit read_request].
  rewrite E. change (api_filename VUndef) with (lit "app_logs.txt").
  split; [|reflexivity].
  now destruct (files d !! lit "app_logs.txt").
Qed.

Lemma unknown_selector_reads_aggregate_witness :
  get_logs (read_request (VStr (lit "warning")) (Some 5%Z)) two_streams
  = logs_reply [lit "[t] [ERROR] Crash"] (lit "app_logs.txt")
  /\ get_logs (read_request (VStr (lit "warning")) (Some 5%Z)) two_streams
     = get_logs (read_request VUndef (Some 5%Z)) two_streams.
Proof.
  apply (unknown_selector_reads_aggregate (VStr (lit "warning")) (Some 5%Z)
           two_streams).
  vm_compute. reflexivity.
Defined.

(** ** The disk *)

Lemma writeFile_ok d name data :
  name ∉ readonly d ->
  writeFile d name data
  = Return (Disk (<[name := toWellFormed data]> (files d)) (readonly d)).
Proof. intros H. unfold writeFile. now destruct (decide (name ∈ readonly d)). Qed.

Lemma appendFile_ok d name data :
  name ∉ readonly d ->
  appendFile d name data
  = Return (Disk (<[name := content d name ++ toWellFormed data]> (files d))
              (readonly d)).
Proof. intros H. unfold appendFile. now destruct (decide (name ∈ readonly d)). Qed.

Lemma clear_files_readonly names : forall d, readonly (clear_files names d) = readonly d.
Proof.
  induction names as [|n names IH]; intros d; cbn; [reflexivity|].
  unfold clear_files in IH. rewrite IH. unfold writeFile.
  now destruct (decide (n ∈ readonly d)).
Qed.

Lemma clear_files_lookup names : forall d f,
  (forall n, n ∈ names -> n ∉ readonly d) ->
  files (clear_files names d) !! f
  = if decide (f ∈ names) then Some [] else files d !! f.
Proof.
  induction names as [|n names IH]; intros d f Hw; cbn.
  - destruct (decide (f ∈ [])) as [H|_]; [|reflexivity]. now apply elem_of_nil in H.
  - rewrite writeFile_ok by (apply Hw; left).
    unfold clear_files in IH. rewrite IH by (intros m Hm; apply Hw; now right).
    cbn [files]. destruct (decide (f ∈ names)) as [Hin|Hnin].
    + rewrite decide_True by now right. reflexivity.
    + destruct (decide (f = n)) as [->|Hne].
      * rewrite lookup_insert_eq. rewrite decide_True by left. reflexivity.
      * rewrite lookup_insert_ne by congruence.
        rewrite decide_False; [reflexivity|].
        intros [?|?]%elem_of_cons; contradiction.
Qed.

(** A clear empties the files it names that can be written and passes
    over the others. *)
Lemma clear_files_spec names : forall d f,
  files (clear_files names d) !! f
  = if decide (f ∈ names) then
      if decide (f ∈ readonly d) then files d !! f else Some []
    else files d !! f.
Proof.
  induction names as [|n names IH]; intros d f.
  - cbn. destruct (decide (f ∈ [])) as [H|_]; [|reflexivity].
    now apply elem_of_nil in H.
  - cbn [clear_files fold_left]. unfold clear_files in IH. unfold writeFile.
    destruct (decide (n ∈ readonly d)) as [Hn|Hn]; rewrite IH;
      cbn [files readonly]; change (toWellFormed []) with (@nil N);
      destruct (decide (f ∈ names)) as [Hin|Hnin];
      destruct (decide (f ∈ n :: names)) as [Hin'|Hnin'];
      destruct (decide (f ∈ readonly d)) as [Hro|Hw];
      try reflexivity;
      try (exfalso; apply Hnin'; now right);
      try (apply elem_of_cons in Hin' as [->|Hin']; [|contradiction]);
      try contradiction;
      try (apply lookup_insert_eq);
      try (apply lookup_insert_ne; intros ->; first [contradiction | apply Hnin'; left]).
Qed.

Lemma disk_eq d1 d2 :
  (forall f, files d1 !! f = files d2 !! f) -> readonly d1 = readonly d2 -> d1 = d2.
Proof.
  destruct d1 as [f1 r1], d2 as [f2 r2]; cbn. intros Hf ->. f_equal.
  now apply map_eq.
Qed.

Lemma includes_allowed v :
  includes allowedTypes v = true ->
  v = VStr (lit "api-failed") \/ v = VStr (lit "log") \/ v = VStr (lit "error").
Proof.
  destruct v; cbn [includes allowedTypes existsb]; try discriminate.
  rewrite !orb_true_iff, !str_eqb_eq. intros [-> | [-> | [-> | ?]]]; auto; discriminate.
Qed.

Lemma api_filename_known type : api_filename type ∈ all_files.
Proof.
  unfold api_filename.
  destruct (truthy type); cbn [andb]; [|now left].
  destruct (includes allowedTypes type) eqn:H; [|now left].
  apply includes_allowed in H as [-> | [-> | ->]];
    apply (bool_decide_unpack _); vm_compute; reflexivity.
Qed.

Lemma get_logs_empty_file req d :
  files d !! api_filename (query_type req) = Some [] -> empty_read (get_logs req d).
Proof.
  intros H. apply get_logs_missing_or_blank. right. eauto.
Qed.

(** ** Clearing *)

Lemma read_empty sep k :
  rev (slice_from k (List.filter nonblank (split sep []))) = [].
Proof.
  change (List.filter nonblank (split sep [])) with (@nil (list N)).
  now rewrite slice_from_nil.
Qed.

Lemma view_entries_empty_files req d :
  names_stream (query_type req) ->
  (forall f, f ∈ all_files -> files d !! f = Some []) ->
  view_entries req d = [].
Proof.
  intros Hsel Hfiles. unfold view_entries, view_entries_with.
  assert (Hagg : files d !! lit "app_logs.txt" = Some []).
  { apply Hfiles. apply (bool_decide_unpack _). vm_compute. reflexivity. }
  destruct Hsel as [Hf | [Hall | Htyped]].
  - rewrite Hf. cbn [includes existsb]. rewrite str_eqb_refl. cbn [orb].
    unfold readFile. rewrite Hagg. cbn [bind].
    rewrite read_empty. reflexivity.
  - rewrite Hall. change (truthy (VStr (lit "all"))) with true. cbv iota.
    cbn [includes existsb]. rewrite str_eqb_refl. cbn [orb].
    unfold readFile. rewrite Hagg. cbn [bind].
    rewrite read_empty. reflexivity.
  - apply includes_allowed in Htyped as [-> | [-> | ->]];
      match goal with
      | |- context [truthy ?v] => change (truthy v) with true
      end; cbv iota; unfold readFile;
      match goal with
      | |- context [includes ?l ?v] =>
          replace (includes l v) with false by (vm_compute; reflexivity)
      end;
      cbn [toString bind];
      match goal with
      | |- context [files d !! ?f] =>
          rewrite (Hfiles f) by (apply (bool_decide_unpack _); vm_compute; reflexivity)
      end;
      cbn [bind]; rewrite read_empty; reflexivity.
Qed.

Lemma delete_logs_all req d :
  includes allowedTypes (query_type req) = false ->
  delete_logs req d = (cleared (lit "All logs cleared"), clear_files all_files d).
Proof.
  intros H. unfold delete_logs. rewrite H, andb_false_r. reflexivity.
Qed.

(** C4, as the code has it: a clear whose selector is none of the three
    types (['all'], or none) always replies with success.  It leaves
    empty each of the four stream files that can be written, whether it
    existed or not, and passes over a file that cannot be written, which
    keeps what it held, as every other file does; a second clear replies
    with success again and leaves the disk as the first one did.  When
    the four files can be written, every read of [GET /api/logs] then
    returns no entry and the page has no entry for any of the four
    streams. *)
Theorem clear_all_empties_every_stream req d :
  includes allowedTypes (query_type req) = false ->
  fst (delete_logs req d) = cleared (lit "All logs cleared")
  /\ (forall f, f ∈ all_files -> f ∉ readonly d ->
                files (snd (delete_logs req d)) !! f = Some [])
  /\ (forall f, f ∉ all_files \/ f ∈ readonly d ->
                files (snd (delete_logs req d)) !! f = files d !! f)
  /\ delete_logs req (snd (delete_logs req d))
     = (cleared (lit "All logs cleared"), snd (delete_logs req d))
  /\ ((forall f, f ∈ all_files -> f ∉ readonly d) ->
      (forall r, empty_read (get_logs r (snd (delete_logs req d))))
      /\ (forall r, names_stream (query_type r) ->
                    view_entries r (snd (delete_logs req d)) = [])).
Proof.
  intros Hsel. rewrite (delete_logs_all req d Hsel). cbn [fst snd].
  split; [reflexivity|]. split; [|split; [|split]].
  - intros f Hf Hw. rewrite clear_files_spec.
    rewrite (decide_True (P := f ∈ all_files)) by assumption.
    now rewrite (decide_False (P := f ∈ readonly d)).
  - intros f Hf. rewrite clear_files_spec.
    destruct (decide (f ∈ all_files)) as [Hin|Hnin]; [|reflexivity].
    destruct Hf as [Hf|Hf]; [contradiction|].
    now rewrite (decide_True (P := f ∈ readonly d)).
  - rewrite (delete_logs_all req _ Hsel). f_equal.
    apply disk_eq; [|apply clear_files_readonly].
    intros f. rewrite clear_files_spec, clear_files_readonly.
    destruct (decide (f ∈ all_files)) as [Hin|Hnin]; [|reflexivity].
    destruct (decide (f ∈ readonly d)) as [Hro|Hw]; [reflexivity|].
    rewrite clear_files_spec.
    rewrite (decide_True (P := f ∈ all_files)) by assumption.
    now rewrite (decide_False (P := f ∈ readonly d)).
  - intros Hw.
    assert (Hempty : forall f, f ∈ all_files ->
                              files (clear_files all_files d) !! f = Some []).
    { intros f Hf. rewrite clear_files_spec.
      rewrite (decide_True (P := f ∈ all_files)) by assumption.
      rewrite (decide_False (P := f ∈ readonly d)); [reflexivity|].
      now apply Hw. }
    split.
    + intros r. apply get_logs_empty_file, Hempty, api_filename_known.
    + intros r Hr. now apply view_entries_empty_files.
Qed.

Lemma clear_all_empties_every_stream_witness :
  fst (delete_logs (read_request (VStr (lit "all")) None) locked_streams)
  = cleared (lit "All logs cleared")
  /\ (forall f, f ∈ all_files -> f ∉ readonly locked_streams ->
                files (snd (delete_logs (read_request (VStr (lit "all")) None)
                              locked_streams)) !! f = Some [])
  /\ (forall f, f ∉ all_files \/ f ∈ readonly locked_streams ->
                files (snd (delete_logs (read_request (VStr (lit "all")) None)
                              locked_streams)) !! f
                = files locked_streams !! f)
  /\ delete_logs (read_request (VStr (lit "all")) None)
       (snd (delete_logs (read_request (VStr (lit "all")) None) locked_streams))
     = (cleared (lit "All logs cleared"),
        snd (delete_logs (read_request (VStr (lit "all")) None) locked_streams))
  /\ ((forall f, f ∈ all_files -> f ∉ readonly locked_streams) ->
      (forall r, empty_read
                   (get_logs r (snd (delete_logs (read_request (VStr (lit "all")) None)
                                       locked_streams))))
      /\ (forall r, names_stream (query_type r) ->
                    view_entries r
                      (snd (delete_logs (read_request (VStr (lit "all")) None)
                              locked_streams)) = [])).
Proof.
  apply (clear_all_empties_every_stream (read_request (VStr (lit "all")) None)
           locked_streams).
  vm_compute. reflexivity.
Defined.

(** The same when every file can be written: the four files are empty
    and every read is. *)
Example clear_all_of_writable_streams :
  let d' := snd (delete_logs (read_request (VStr (lit "all")) None) two_streams) in
  (forall f, f ∈ all_files -> files d' !! f = Some [])
  /\ (forall r, empty_read (get_logs r d'))
  /\ (forall r, names_stream (query_type r) -> view_entries r d' = []).
Proof.
  cbv zeta.
  assert (Hw : forall f, f ∈ all_files -> f ∉ readonly two_streams).
  { intros f _. cbn. apply not_elem_of_empty. }
  assert (Hsel : includes allowedTypes
                   (query_type (read_request (VStr (lit "all")) None)) = false)
    by reflexivity.
  rewrite (delete_logs_all _ two_streams Hsel). cbn [snd].
  assert (Hempty : forall f, f ∈ all_files ->
                            files (clear_files all_files two_streams) !! f = Some []).
  { intros f Hf. rewrite clear_files_spec.
    rewrite (decide_True (P := f ∈ all_files)) by assumption.
    rewrite (decide_False (P := f ∈ readonly two_streams)); [reflexivity|].
    now apply Hw. }
  split; [exact Hempty|]. split.
  - intros r. apply get_logs_empty_file, Hempty, api_filename_known.
  - intros r Hr. now apply view_entries_empty_files.
Qed.

(** C4 as stated fails when a stream file cannot be written: the clear
    replies with success, the file of the errors keeps its record, and
    the read of the errors that follows is not empty. *)
Lemma clear_all_passes_over_read_only_stream :
  let d' := snd (delete_logs (read_request (VStr (lit "all")) None) locked_streams) in
  fst (delete_logs (read_request (VStr (lit "all")) None) locked_streams)
  = cleared (lit "All logs cleared")
  /\ files d' !! lit "error_logs.txt"
     = Some (lit "{}" ++ newline ++ delimiter ++ newline)
  /\ response_logs (get_logs (read_request (VStr (lit "error")) (Some 10%Z)) d')
     = VArr [VStr (lit "{}"); VStr delimiter]
  /\ ~ empty_read (get_logs (read_request (VStr (lit "error")) (Some 10%Z)) d').
Proof.
  cbv zeta. repeat split; try (vm_compute; reflexivity).
  intros [rest H]. vm_compute in H. discriminate.
Qed.

Lemma typeFile_known s : s ∈ allowedTypes -> typeFile s ∈ all_files.
Proof.
  intros H. unfold allowedTypes in H.
  repeat (apply elem_of_cons in H as [-> | H];
          [apply (bool_decide_unpack _); vm_compute; reflexivity|]).
  now apply elem_of_nil in H.
Qed.

Lemma allowed_includes s : s ∈ allowedTypes -> includes allowedTypes (VStr s) = true.
Proof.
  intros H. unfold allowedTypes in H.
  repeat (apply elem_of_cons in H as [-> | H]; [vm_compute; reflexivity|]).
  now apply elem_of_nil in H.
Qed.

Lemma allowed_truthy s : s ∈ allowedTypes -> truthy (VStr s) = true.
Proof.
  intros H. unfold allowedTypes in H.
  repeat (apply elem_of_cons in H as [-> | H]; [vm_compute; reflexivity|]).
  now apply elem_of_nil in H.
Qed.

Lemma delete_logs_typed s req d :
  query_type req = VStr s -> s ∈ allowedTypes -> typeFile s ∉ readonly d ->
  delete_logs req d
  = (cleared (s ++ lit " logs cleared"),
     Disk (<[typeFile s := []]> (files d)) (readonly d)).
Proof.
  intros Hq Hs Hw. unfold delete_logs. rewrite Hq.
  rewrite allowed_truthy, allowed_includes by assumption. cbn [andb str_of].
  now rewrite writeFile_ok.
Qed.

(** The aggregate entries of the page depend on [app_logs.txt] alone. *)
Lemma view_entries_aggregate req d d' :
  includes [lit "all"]
    (if truthy (query_type req) then query_type req else VStr (lit "all")) = true ->
  files d' !! lit "app_logs.txt" = files d !! lit "app_logs.txt" ->
  view_entries req d' = view_entries req d.
Proof.
  intros Hall Hf. unfold view_entries, view_entries_with. rewrite Hall.
  unfold readFile. now rewrite Hf.
Qed.

Lemma get_logs_same_file req d d' :
  files d' !! api_filename (query_type req) = files d !! api_filename (query_type req) ->
  get_logs req d' = get_logs req d.
Proof. intros Hf. unfold get_logs, readFile. now rewrite Hf. Qed.

Lemma typeFile_not_aggregate s :
  s ∈ allowedTypes -> typeFile s <> lit "app_logs.txt".
Proof.
  intros H. unfold allowedTypes in H.
  repeat (apply elem_of_cons in H as [-> | H]; [vm_compute; discriminate|]).
  now apply elem_of_nil in H.
Qed.

(** C5, as the code has it: for each of the three type selectors, the
    clear leaves every file other than the file of that type as it was,
    so the reads of any other stream, the aggregate stream among them,
    answer as before; it empties the file of the type when that file can
    be written, and otherwise replies with an error and changes nothing.
    There is no clear of the aggregate stream alone: every other selector
    is a clear of everything, which replies with success and empties each
    of the four files that can be written. *)
Theorem clear_typed_leaves_other_streams s req d :
  query_type req = VStr s -> s ∈ allowedTypes ->
  (forall f, f <> typeFile s -> files (snd (delete_logs req d)) !! f = files d !! f)
  /\ (forall r, api_filename (query_type r) <> typeFile s ->
                get_logs r (snd (delete_logs req d)) = get_logs r d)
  /\ (forall limit, view_entries (read_request VUndef limit) (snd (delete_logs req d))
                    = view_entries (read_request VUndef limit) d)
  /\ ((typeFile s ∉ readonly d) ->
      fst (delete_logs req d) = cleared (s ++ lit " logs cleared")
      /\ files (snd (delete_logs req d)) !! typeFile s = Some [])
  /\ (typeFile s ∈ readonly d ->
      delete_logs req d = (failure 500 (lit "Failed to clear logs"), d))
  /\ (forall other, includes allowedTypes (query_type other) = false ->
        fst (delete_logs other d) = cleared (lit "All logs cleared")
        /\ forall f, f ∈ all_files -> f ∉ readonly d ->
                     files (snd (delete_logs other d)) !! f = Some []).
Proof.
  intros Hq Hs.
  assert (Hcases : (typeFile s ∈ readonly d
                    /\ delete_logs req d
                       = (failure 500 (lit "Failed to clear logs"), d))
                   \/ ((typeFile s ∉ readonly d)
                       /\ delete_logs req d
                          = (cleared (s ++ lit " logs cleared"),
                             Disk (<[typeFile s := []]> (files d)) (readonly d)))).
  { destruct (decide (typeFile s ∈ readonly d)) as [Hro|Hw].
    - left. split; [assumption|]. unfold delete_logs. rewrite Hq.
      rewrite (allowed_truthy _ Hs), (allowed_includes _ Hs). cbn [andb str_of].
      unfold writeFile. now rewrite decide_True.
    - right. split; [assumption|]. now apply delete_logs_typed. }
  assert (Hother : forall f, f <> typeFile s ->
            files (snd (delete_logs req d)) !! f = files d !! f).
  { intros f Hf. destruct Hcases as [[_ ->] | [_ ->]]; cbn [snd files];
      [reflexivity|]. now rewrite lookup_insert_ne. }
  split; [exact Hother|]. split; [|split; [|split; [|split]]].
  - intros r Hr. apply get_logs_same_file. now apply Hother.
  - intros limit. apply view_entries_aggregate.
    + vm_compute. reflexivity.
    + apply Hother. intros H. symmetry in H. now apply typeFile_not_aggregate in H.
  - intros Hw. destruct Hcases as [[Hro _] | [_ ->]]; [contradiction|].
    cbn [fst snd files]. split; [reflexivity|]. apply lookup_insert_eq.
  - intros Hro. destruct Hcases as [[_ ->] | [Hw _]]; [reflexivity|contradiction].
  - intros other Ho. rewrite (delete_logs_all other d Ho). cbn [fst snd].
    split; [reflexivity|]. intros f Hf Hw. rewrite clear_files_spec.
    rewrite (decide_True (P := f ∈ all_files)) by assumption.
    now rewrite (decide_False (P := f ∈ readonly d)).
Qed.

Lemma clear_typed_leaves_other_streams_witness :
  (forall f, f <> typeFile (lit "error") ->
             files (snd (delete_logs (read_request (VStr (lit "error")) None)
                           two_streams)) !! f
             = files two_streams !! f)
  /\ (forall r, api_filename (query_type r) <> typeFile (lit "error") ->
                get_logs r (snd (delete_logs (read_request (VStr (lit "error")) None)
                                   two_streams))
                = get_logs r two_streams)
  /\ (forall limit,
        view_entries (read_request VUndef limit)
          (snd (delete_logs (read_request (VStr (lit "error")) None) two_streams))
        = view_entries (read_request VUndef limit) two_streams)
  /\ ((typeFile (lit "error") ∉ readonly two_streams) ->
      fst (delete_logs (read_request (VStr (lit "error")) None) two_streams)
      = cleared (lit "error" ++ lit " logs cleared")
      /\ files (snd (delete_logs (read_request (VStr (lit "error")) None)
                       two_streams)) !! typeFile (lit "error") = Some [])
  /\ (typeFile (lit "error") ∈ readonly two_streams ->
      delete_logs (read_request (VStr (lit "error")) None) two_streams
      = (failure 500 (lit "Failed to clear logs"), two_streams))
  /\ (forall other, includes allowedTypes (query_type other) = false ->
        fst (delete_logs other two_streams) = cleared (lit "All logs cleared")
        /\ forall f, f ∈ all_files -> f ∉ readonly two_streams ->
                     files (snd (delete_logs other two_streams)) !! f = Some []).
Proof.
  apply (clear_typed_leaves_other_streams (lit "error")).
  - reflexivity.
  - apply (bool_decide_unpack _). vm_compute. reflexivity.
Defined.

(** The clear of the errors in the sample: their file is empty, the
    aggregate read answers as before. *)
Example clear_of_the_errors :
  let d' := snd (delete_logs (read_request (VStr (lit "error")) None) two_streams) in
  files d' !! lit "error_logs.txt" = Some []
  /\ get_logs (read_request VUndef (Some 10%Z)) d'
     = logs_reply [lit "[t] [ERROR] Crash"] (lit "app_logs.txt").
Proof. vm_compute. split; reflexivity. Qed.

(** C5 as stated fails for the selector ['aggregate']: the clear empties
    the stream of the type error as well. *)
Lemma clear_aggregate_empties_typed_stream :
  let d' := snd (delete_logs (read_request (VStr (lit "aggregate")) None) two_streams) in
  ~ (forall f, f <> lit "app_logs.txt" -> files d' !! f = files two_streams !! f).
Proof.
  intros d' H. specialize (H (lit "error_logs.txt")).
  assert (E : files d' !! lit "error_logs.txt" = Some []) by (vm_compute; reflexivity).
  rewrite E in H.
  assert (E' : files two_streams !! lit "error_logs.txt"
               = Some (lit "{}" ++ newline ++ delimiter ++ newline))
    by (vm_compute; reflexivity).
  rewrite E' in H. 
  assert (Hne : lit "error_logs.txt" <> lit "app_logs.txt") by (vm_compute; discriminate).
  specialize (H Hne). vm_compute in H. discriminate.
Qed.

(** ** Text in UTF-8 *)

Lemma value_ind (P : value -> Prop) :
  P VUndef -> P VNull -> (forall b, P (VBool b)) -> (forall z, P (VNum z)) ->
  (forall s, P (VStr s)) ->
  (forall items, Forall P items -> P (VArr items)) ->
  (forall props, Forall (fun kv => P (snd kv)) props -> P (VObj props)) ->
  forall v, P v.
Proof.
  intros Hu Hn Hb Hz Hs Ha Ho.
  fix F 1.
  intros [| |b|z|s|items|props];
    [exact Hu|exact Hn|apply Hb|apply Hz|apply Hs| |].
  - apply Ha. induction items as [|x items IH]; constructor; [apply F|exact IH].
  - apply Ho. induction props as [|[k x] props IH]; constructor; [apply F|exact IH].
Qed.

Lemma next_is_low_app a x :
  next_is_low x = false -> next_is_low (a ++ x) = next_is_low a.
Proof. intros H. now destruct a. Qed.

Lemma well_formed_app a x : forall paired,
  next_is_low x = false ->
  well_formed paired (a ++ x) = well_formed paired a ++ well_formed false x.
Proof.
  induction a as [|c a IH]; intros paired Hx; cbn [app well_formed].
  - destruct x as [|c x]; [reflexivity|]. cbn [next_is_low] in Hx.
    cbn [well_formed]. now rewrite Hx.
  - rewrite (next_is_low_app a x Hx).
    destruct (is_low_surrogate c); [now rewrite IH|].
    destruct (is_high_surrogate c); [|now rewrite IH].
    destruct (next_is_low a); now rewrite IH.
Qed.

Lemma toWellFormed_app a x :
  next_is_low x = false -> toWellFormed (a ++ x) = toWellFormed a ++ toWellFormed x.
Proof. apply well_formed_app. Qed.

(** A line break ends what is before it. *)
Lemma toWellFormed_line l : toWellFormed (l ++ newline) = toWellFormed l ++ newline.
Proof. now rewrite toWellFormed_app. Qed.

Lemma whole_nil : whole [].
Proof. split; reflexivity. Qed.

Lemma whole_app a b : whole a -> whole b -> whole (a ++ b).
Proof.
  intros [Ha Ha'] [Hb Hb']. split.
  - rewrite toWellFormed_app by assumption. now rewrite Ha, Hb.
  - now rewrite next_is_low_app.
Qed.

Lemma plain_char_not_low c : plain_char c = true -> is_low_surrogate c = false.
Proof.
  unfold plain_char. rewrite negb_true_iff, orb_false_iff. now intros [_ H].
Qed.

Lemma plain_char_not_high c : plain_char c = true -> is_high_surrogate c = false.
Proof.
  unfold plain_char. rewrite negb_true_iff, orb_false_iff. now intros [H _].
Qed.

Lemma well_formed_plain s : plain s = true -> forall paired, well_formed paired s = s.
Proof.
  unfold plain. induction s as [|c s IH]; intros H paired; [reflexivity|].
  cbn [forallb] in H. apply andb_prop in H as [Hc Hs].
  cbn [well_formed].
  rewrite (plain_char_not_low c Hc), (plain_char_not_high c Hc).
  now rewrite IH.
Qed.

Lemma whole_plain s : plain s = true -> whole s.
Proof.
  intros H. split; [now apply well_formed_plain|].
  destruct s as [|c s]; [reflexivity|]. cbn [plain forallb] in H.
  apply andb_prop in H as [Hc _]. now apply plain_char_not_low.
Qed.

Lemma whole_cons c s : plain_char c = true -> whole s -> whole (c :: s).
Proof. intros Hc Hs. apply (whole_app [c]); [apply whole_plain; cbn; now rewrite Hc|exact Hs]. Qed.

Lemma plain_hex_char x : (x < 16)%N -> plain_char (hex_char x) = true.
Proof.
  intros H. unfold hex_char, plain_char, is_high_surrogate, is_low_surrogate.
  destruct (x <? 10)%N; apply negb_true_iff, orb_false_iff;
    split; apply andb_false_iff; left; apply N.leb_gt; lia.
Qed.

Lemma whole_unicode_escape c : whole (unicode_escape c).
Proof.
  unfold unicode_escape. apply whole_app; [apply whole_plain; reflexivity|].
  apply whole_plain. cbn [plain forallb].
  rewrite !plain_hex_char by (apply N.mod_lt; discriminate). reflexivity.
Qed.

Lemma whole_escape_char c : is_high_surrogate c = false -> whole (escape_char c).
Proof.
  intros Hh.
  assert (Hd : whole (if (c <? 32)%N || is_high_surrogate c || is_low_surrogate c
                      then unicode_escape c else [c])).
  { destruct ((c <? 32)%N || is_high_surrogate c || is_low_surrogate c) eqn:E;
      [apply whole_unicode_escape|].
    apply orb_false_iff in E as [_ El].
    apply whole_plain. cbn. unfold plain_char. now rewrite Hh, El. }
  unfold escape_char.
  destruct c as [|p]; [exact Hd|].
  do 7 (try destruct p as [p|p|]);
    try exact Hd; apply whole_plain; reflexivity.
Qed.

Lemma whole_quote_body_bounded n : forall s, length s <= n -> whole (quote_body s).
Proof.
  induction n as [|n IH]; intros s Hn.
  - destruct s; [apply whole_nil|cbn in Hn; lia].
  - destruct s as [|c s]; [apply whole_nil|]. cbn [length] in Hn.
    cbn [quote_body]. destruct (is_high_surrogate c) eqn:Hh.
    + destruct s as [|x s]; [apply whole_unicode_escape|].
      cbn [length] in Hn. destruct (is_low_surrogate x) eqn:Hl.
      * destruct (IH s ltac:(lia)) as [Hw _]. split.
        -- unfold toWellFormed in *. cbn [well_formed next_is_low].
           assert (Hc : is_low_surrogate c = false).
           { unfold is_high_surrogate, is_low_surrogate in *.
             apply andb_prop in Hh as [_ Hh]. apply N.leb_le in Hh.
             apply andb_false_iff. left. apply N.leb_gt. lia. }
           rewrite Hc, Hh, Hl. now rewrite Hw.
        -- cbn [next_is_low]. unfold is_high_surrogate, is_low_surrogate in *.
           apply andb_prop in Hh as [_ Hh]. apply N.leb_le in Hh.
           apply andb_false_iff. left. apply N.leb_gt. lia.
      * apply whole_app; [apply whole_unicode_escape|].
        apply IH. cbn [length]. lia.
    + apply whole_app; [now apply whole_escape_char|]. apply IH. lia.
Qed.

Lemma whole_quote s : whole (quote s).
Proof.
  unfold quote. apply whole_cons; [reflexivity|].
  apply whole_app; [apply (whole_quote_body_bounded (length s)); lia|].
  apply whole_plain. reflexivity.
Qed.

Lemma plain_uint_chars u : plain (uint_chars u) = true.
Proof. induction u; cbn [uint_chars plain forallb]; try reflexivity; exact IHu. Qed.

Lemma whole_num_chars z : whole (num_chars z).
Proof.
  apply whole_plain. unfold num_chars, nat_chars.
  destruct (z <? 0)%Z; [cbn [plain forallb]|]; apply plain_uint_chars.
Qed.

Lemma whole_pad n : whole (pad n).
Proof.
  apply whole_plain. unfold pad. induction n; [reflexivity|exact IHn].
Qed.

Lemma whole_join sep parts :
  whole sep -> Forall whole parts -> whole (join sep parts).
Proof.
  intros Hsep. induction 1 as [|p ps Hp Hps IH]; [apply whole_nil|].
  destruct ps as [|q ps]; [exact Hp|].
  change (join sep (p :: q :: ps)) with (p ++ sep ++ join sep (q :: ps)).
  now repeat apply whole_app.
Qed.

Lemma whole_members (f : value -> str) props :
  Forall (fun kv => whole (f (snd kv))) props -> Forall whole (members f props).
Proof.
  induction 1 as [|[k x] props Hx _ IH]; cbn [members]; [constructor|].
  destruct (is_defined x); [|exact IH]. constructor; [|exact IH].
  apply whole_app; [apply whole_quote|].
  apply whole_app; [apply whole_plain; reflexivity|exact Hx].
Qed.

(** The text that [JSON.stringify] writes is read back as it is: a lone
    surrogate in it is escaped. *)
Lemma whole_ser v : forall ind, whole (ser ind v).
Proof.
  induction v as [| |b|z|s|items IH|props IH] using value_ind; intros ind;
    cbn [ser].
  - apply whole_plain. reflexivity.
  - apply whole_plain. reflexivity.
  - destruct b; apply whole_plain; reflexivity.
  - apply whole_num_chars.
  - apply whole_quote.
  - destruct items as [|x items]; [apply whole_plain; reflexivity|].
    assert (Hsep : whole (lit "," ++ newline ++ pad (ind + 2))).
    { apply whole_app; [apply whole_plain; reflexivity|].
      apply whole_app; [apply whole_plain; reflexivity|apply whole_pad]. }
    repeat apply whole_app;
      try (apply whole_plain; reflexivity); try apply whole_pad.
    apply whole_join; [exact Hsep|].
    apply Forall_forall. intros t Ht.
    apply list_elem_of_In, in_map_iff in Ht as (y & <- & Hy).
    apply list_elem_of_In in Hy.
    exact (proj1 (Forall_forall _ _) IH y Hy (ind + 2)).
  - assert (Hm : Forall whole (members (ser (ind + 2)) props)).
    { apply whole_members. eapply Forall_impl; [exact IH|].
      intros kv Hkv. apply Hkv. }
    destruct (members (ser (ind + 2)) props) as [|m ms];
      [apply whole_plain; reflexivity|].
    assert (Hsep : whole (lit "," ++ newline ++ pad (ind + 2))).
    { apply whole_app; [apply whole_plain; reflexivity|].
      apply whole_app; [apply whole_plain; reflexivity|apply whole_pad]. }
    repeat apply whole_app;
      try (apply whole_plain; reflexivity); try apply whole_pad.
    now apply whole_join.
Qed.

Lemma whole_delimiter : whole delimiter.
Proof. apply whole_plain. vm_compute. reflexivity. Qed.

(** ** [Logger.log] *)

Lemma appendFile_appended d name data :
  name ∉ readonly d ->
  appendFile d name data = Return (appended d name (toWellFormed data)).
Proof. apply appendFile_ok. Qed.

Lemma appendFile_inv d name data d' :
  appendFile d name data = Return d' ->
  (name ∉ readonly d) /\ d' = appended d name (toWellFormed data).
Proof.
  unfold appendFile. destruct (decide (name ∈ readonly d)); [discriminate|].
  intros [= <-]. split; [assumption|reflexivity].
Qed.

Lemma detailedLog_entry ts type title description metadata :
  detailedLog (logEntry ts type title description metadata)
  = Return (record_text (logEntry ts type title description metadata)).
Proof. reflexivity. Qed.

(** A record is stored as it is written. *)
Lemma toWellFormed_record entry : toWellFormed (record_text entry) = record_text entry.
Proof.
  unfold record_text.
  apply (whole_app (ser 0 entry) (newline ++ delimiter ++ newline)).
  - apply whole_ser.
  - apply whole_app; [apply whole_plain; reflexivity|].
    apply whole_app; [apply whole_delimiter|apply whole_plain; reflexivity].
Qed.

(** When both templates evaluate and both files can be written, the
    method returns [true] and has appended the line and the record. *)
Lemma Logger_log_ok ts type title description metadata d l :
  compact_line ts type title (or_default (VStr []) description) = Return l ->
  (logFile ∉ readonly d) -> (typeFile type ∉ readonly d) ->
  Logger_log ts type title description metadata d
  = Return (true,
            appended (appended d logFile (toWellFormed l ++ newline))
              (typeFile type)
              (record_text (logEntry ts type title
                              (or_default (VStr []) description)
                              (or_default (VObj []) metadata)))).
Proof.
  intros Hline Hw1 Hw2. unfold Logger_log, logLine. rewrite Hline. cbn [bind].
  rewrite detailedLog_entry. cbn [bind].
  rewrite appendFile_appended by assumption.
  rewrite appendFile_appended by assumption.
  now rewrite toWellFormed_line, toWellFormed_record.
Qed.

(** Conversely, a [true] result means exactly these two appends. *)
Lemma Logger_log_true ts type title description metadata d d' :
  Logger_log ts type title description metadata d = Return (true, d') ->
  exists l,
    compact_line ts type title (or_default (VStr []) description) = Return l
    /\ (logFile ∉ readonly d) /\ (typeFile type ∉ readonly d)
    /\ d' = appended (appended d logFile (toWellFormed l ++ newline))
              (typeFile type)
              (record_text (logEntry ts type title
                              (or_default (VStr []) description)
                              (or_default (VObj []) metadata))).
Proof.
  unfold Logger_log, logLine.
  destruct (compact_line ts type title (or_default (VStr []) description))
    as [l|] eqn:Hline; cbn [bind]; [|discriminate].
  rewrite detailedLog_entry. cbn [bind].
  destruct (appendFile d logFile (l ++ newline)) as [dk|] eqn:H1; [|discriminate].
  apply appendFile_inv in H1 as [Hw1 ->].
  destruct (appendFile _ (typeFile type) _) as [dk'|] eqn:H2; [|discriminate].
  apply appendFile_inv in H2 as [Hw2 ->].
  intros [= <-]. exists l.
  rewrite toWellFormed_line, toWellFormed_record. auto.
Qed.

(** ** Objects *)

Lemma obj_get_set_eq k v o : obj_get k (obj_set k v o) = v.
Proof.
  induction o as [|[k' v'] o IH]; cbn.
  - now rewrite str_eqb_refl.
  - destruct (str_eqb k k') eqn:E; cbn; [now rewrite str_eqb_refl|].
    now rewrite E.
Qed.

Lemma obj_get_set_ne k k' v o : k <> k' -> obj_get k' (obj_set k v o) = obj_get k' o.
Proof.
  intros Hne. induction o as [|[k2 v2] o IH]; cbn.
  - destruct (str_eqb k' k) eqn:E; [|reflexivity].
    apply str_eqb_eq in E. congruence.
  - destruct (str_eqb k k2) eqn:E; cbn.
    + apply str_eqb_eq in E as <-.
      destruct (str_eqb k' k) eqn:E'; [|reflexivity].
      apply str_eqb_eq in E'. congruence.
    + now rewrite IH.
Qed.

Lemma obj_set_keys k v o :
  List.map fst (obj_set k v o)
  = if decide (k ∈ List.map fst o) then List.map fst o else List.map fst o ++ [k].
Proof.
  induction o as [|[k' v'] o IH]; cbn.
  - rewrite decide_False; [reflexivity|]. apply not_elem_of_nil.
  - destruct (str_eqb k k') eqn:E; cbn.
    + apply str_eqb_eq in E as <-. rewrite decide_True by left. reflexivity.
    + rewrite IH. assert (k <> k') by (intros ->; now rewrite str_eqb_refl in E).
      destruct (decide (k ∈ List.map fst o)) as [Hin|Hnin].
      * rewrite decide_True by now right. reflexivity.
      * rewrite decide_False; [reflexivity|].
        intros [?|?]%elem_of_cons; contradiction.
Qed.

Lemma obj_set_NoDup k v o : NoDup (List.map fst o) -> NoDup (List.map fst (obj_set k v o)).
Proof.
  intros H. rewrite obj_set_keys. destruct (decide (k ∈ List.map fst o)); [assumption|].
  apply NoDup_app. repeat split; [assumption| |apply NoDup_singleton].
  intros x Hx ->%list_elem_of_singleton. contradiction.
Qed.

Lemma fold_obj_set_NoDup kvs : forall acc,
  NoDup (List.map fst acc) ->
  NoDup (List.map fst (fold_left (fun o kv => obj_set (fst kv) (snd kv) o) kvs acc)).
Proof.
  induction kvs as [|[k v] kvs IH]; intros acc H; cbn; [assumption|].
  apply IH. now apply obj_set_NoDup.
Qed.

Lemma obj_set_fresh k v o : k ∉ List.map fst o -> obj_set k v o = o ++ [(k, v)].
Proof.
  induction o as [|[k' v'] o IH]; cbn; intros H; [reflexivity|].
  destruct (str_eqb k k') eqn:E.
  - apply str_eqb_eq in E as <-. exfalso. apply H. left.
  - rewrite IH; [reflexivity|]. intros Hin. apply H. now right.
Qed.

(** Copying the properties of an object with distinct names into an
    object that has none of them appends them in order. *)
Lemma fold_obj_set_fresh kvs : forall acc,
  NoDup (List.map fst (acc ++ kvs)) ->
  fold_left (fun o kv => obj_set (fst kv) (snd kv) o) kvs acc = acc ++ kvs.
Proof.
  induction kvs as [|[k v] kvs IH]; intros acc H; cbn.
  - now rewrite app_nil_r.
  - rewrite obj_set_fresh.
    + rewrite IH; rewrite <- app_assoc; [reflexivity|exact H].
    + rewrite map_app in H. apply NoDup_app in H as (_ & H & _).
      intros Hin. apply (H k Hin). left.
Qed.

Lemma spread_object kvs : NoDup (List.map fst kvs) -> spread (VObj kvs) [] = kvs.
Proof. intros H. unfold spread. cbn [own_props]. now rewrite fold_obj_set_fresh. Qed.

Lemma object_of_distinct kvs : NoDup (List.map fst kvs) -> object_of kvs = kvs.
Proof. intros H. unfold object_of. now rewrite fold_obj_set_fresh. Qed.

(** ** Accepted submissions *)

Lemma or_default_idem dflt v :
  dflt <> VUndef -> or_default dflt (or_default dflt v) = or_default dflt v.
Proof. intros H. destruct v, dflt; try reflexivity; contradiction. Qed.

(** What an accepted submission has passed and done: both checks, the two
    templates, and the two appends. *)
Lemma post_log_accepted props ua addr qt ql now later d b d' :
  post_log (Request (VObj props) ua addr qt ql) now later d = (Json 200 b, d') ->
  exists type l,
    obj_get (lit "type") props = VStr type
    /\ type ∈ allowedTypes
    /\ truthy (obj_get (lit "title") props) = true
    /\ compact_line now type (obj_get (lit "title") props)
         (or_default (VStr []) (obj_get (lit "description") props)) = Return l
    /\ (logFile ∉ readonly d) /\ (typeFile type ∉ readonly d)
    /\ d' = appended (appended d logFile (toWellFormed l ++ newline))
              (typeFile type)
              (record_text (submitted_entry props ua addr now)).
Proof.
  unfold post_log. cbn [body user_agent ip get_prop bind].
  destruct (truthy (obj_get (lit "type") props)) eqn:Ht; cbn [negb orb];
    [|intros [=]].
  destruct (truthy (obj_get (lit "title") props)) eqn:Hl; cbn [negb];
    [|intros [=]].
  destruct (includes allowedTypes (obj_get (lit "type") props)) eqn:Hi; cbn [negb];
    [|intros [=]].
  destruct (obj_get (lit "type") props) as [| | | |type| |] eqn:Htype;
    try discriminate Hi.
  cbn [str_of].
  destruct (Logger_log now type _ _ _ d) as [[ok dk]|] eqn:HL; cbn [bind fst snd];
    [|intros [=]].
  destruct ok; [|intros [=]]. intros [= <- <-].
  apply Logger_log_true in HL as (l & Hline & Hw1 & Hw2 & ->).
  exists type, l. repeat split; try assumption.
  - cbn [includes] in Hi. apply existsb_exists in Hi as (x & Hx & E).
    apply str_eqb_eq in E as ->. now apply list_elem_of_In.
  - now rewrite or_default_idem in Hline.
  - unfold submitted_entry. rewrite Htype. cbn [str_of].
    rewrite or_default_idem by discriminate. reflexivity.
Qed.

Lemma appended_lookup_eq d name data :
  files (appended d name data) !! name = Some (content d name ++ data).
Proof. cbn. apply lookup_insert_eq. Qed.

Lemma appended_lookup_ne d name data f :
  f <> name -> files (appended d name data) !! f = files d !! f.
Proof. intros H. cbn. now rewrite lookup_insert_ne. Qed.

Lemma appended_content_ne d name data f :
  f <> name -> content (appended d name data) f = content d f.
Proof. intros H. unfold content. now rewrite appended_lookup_ne. Qed.

Lemma appended_content_eq d name data :
  content (appended d name data) name = content d name ++ data.
Proof. unfold content. now rewrite appended_lookup_eq. Qed.

Lemma request_metadata_get caller ua addr :
  exists m,
    request_metadata caller ua addr = VObj m
    /\ obj_get (lit "userAgent") m = ua
    /\ obj_get (lit "ip") m = addr
    /\ obj_get (lit "source") m = VStr (lit "react-native-app")
    /\ NoDup (List.map fst m)
    /\ (forall k, k ∉ server_keys -> obj_get k m = obj_get k (spread caller [])).
Proof.
  eexists. split; [reflexivity|].
  assert (N1 : lit "source" <> lit "ip") by (vm_compute; discriminate).
  assert (N2 : lit "source" <> lit "userAgent") by (vm_compute; discriminate).
  assert (N3 : lit "ip" <> lit "userAgent") by (vm_compute; discriminate).
  repeat split.
  - rewrite !obj_get_set_ne by assumption. apply obj_get_set_eq.
  - rewrite obj_get_set_ne by assumption. apply obj_get_set_eq.
  - apply obj_get_set_eq.
  - do 3 apply obj_set_NoDup. apply fold_obj_set_NoDup. constructor.
  - intros k Hk. unfold server_keys in Hk.
    rewrite !obj_get_set_ne; [reflexivity| | |];
      intros <-; apply Hk; apply (bool_decide_unpack _); vm_compute; reflexivity.
Qed.

(** C10: after an accepted submission, the file of the event's type
    holds what it held, followed by the record of the event: the JSON
    text of the object with the instant of the call, the type, the title
    and the description of the submission and a [metadata] object, then
    the delimiter.  In that [metadata], [userAgent], [ip] and [source]
    hold the values the server took from the request and a fixed tag,
    each name occurs once, and every other name holds what the caller's
    metadata holds: a value the caller sent under one of the three names
    is not in the stored event.  The event is one that the embedding holds
    as JavaScript does ([modelled]). *)
Theorem stored_metadata_merges_server_keys props ua addr qt ql now later d b d' :
  post_log (Request (VObj props) ua addr qt ql) now later d = (Json 200 b, d') ->
  modelled (submitted_entry props ua addr now) = true ->
  exists type m,
    obj_get (lit "type") props = VStr type
    /\ files d' !! typeFile type
       = Some (content d (typeFile type)
               ++ ser 0 (VObj [(lit "timestamp", VStr now);
                               (lit "type", VStr type);
                               (lit "title", obj_get (lit "title") props);
                               (lit "description",
                                or_default (VStr [])
                                  (obj_get (lit "description") props));
                               (lit "metadata", VObj m)])
               ++ newline ++ delimiter ++ newline)
    /\ obj_get (lit "userAgent") m = ua
    /\ obj_get (lit "ip") m = addr
    /\ obj_get (lit "source") m = VStr (lit "react-native-app")
    /\ NoDup (List.map fst m)
    /\ (forall k, k ∉ server_keys ->
          obj_get k m
          = obj_get k (spread (or_default (VObj []) (obj_get (lit "metadata") props)) []))
    /\ (forall kvs, obj_get (lit "metadata") props = VObj kvs ->
          NoDup (List.map fst kvs) ->
          forall k, k ∉ server_keys -> obj_get k m = obj_get k kvs).
Proof.
  intros H _.
  apply post_log_accepted in H
    as (type & line & Htype & Hallowed & _ & _ & _ & _ & ->).
  destruct (request_metadata_get
              (or_default (VObj []) (obj_get (lit "metadata") props)) ua addr)
    as (m & Hm & Hua & Hip & Hsrc & Hnd & Hrest).
  exists type, m.
  repeat split; try assumption.
  - rewrite appended_lookup_eq. rewrite appended_content_ne.
    + unfold submitted_entry, record_text, logEntry. rewrite Htype, Hm.
      reflexivity.
    + now apply typeFile_not_aggregate.
  - intros kvs Hkvs Hnd' k Hk. rewrite (Hrest k Hk), Hkvs. cbn [or_default].
    now rewrite spread_object.
Qed.

Lemma stored_metadata_merges_server_keys_witness :
  exists type m,
    obj_get (lit "type") crash_body = VStr type
    /\ files (snd (post_log crash_request noon just_after_noon empty_disk))
         !! typeFile type
       = Some (content empty_disk (typeFile type)
               ++ ser 0 (VObj [(lit "timestamp", VStr noon);
                               (lit "type", VStr type);
                               (lit "title", obj_get (lit "title") crash_body);
                               (lit "description",
                                or_default (VStr [])
                                  (obj_get (lit "description") crash_body));
                               (lit "metadata", VObj m)])
               ++ newline ++ delimiter ++ newline)
    /\ obj_get (lit "userAgent") m = VStr (lit "okhttp/4.9.2")
    /\ obj_get (lit "ip") m = VStr (lit "::1")
    /\ obj_get (lit "source") m = VStr (lit "react-native-app")
    /\ NoDup (List.map fst m)
    /\ (forall k, k ∉ server_keys ->
          obj_get k m
          = obj_get k (spread (or_default (VObj []) (obj_get (lit "metadata") crash_body)) []))
    /\ (forall kvs, obj_get (lit "metadata") crash_body = VObj kvs ->
          NoDup (List.map fst kvs) ->
          forall k, k ∉ server_keys -> obj_get k m = obj_get k kvs).
Proof.
  apply (stored_metadata_merges_server_keys crash_body _ _ VUndef None
           noon just_after_noon empty_disk
           (VObj [(lit "success", VBool true);
                  (lit "message", VStr (lit "Log entry created successfully"));
                  (lit "timestamp", VStr just_after_noon)])).
  - vm_compute. reflexivity.
  - vm_compute. reflexivity.
Defined.

(** The record of the sample: the caller's [ip] is gone, the caller's
    [screen] is kept. *)
Example stored_metadata_ex :
  exists rest,
    files (snd (post_log crash_request noon just_after_noon empty_disk))
      !! lit "error_logs.txt"
    = Some (ser 0 (VObj ([(lit "timestamp", VStr noon);
                          (lit "type", VStr (lit "error"));
                          (lit "title", VStr (lit "Crash"));
                          (lit "description", VStr (lit "npe"));
                          (lit "metadata",
                           VObj [(lit "screen", VStr (lit "Home"));
                                 (lit "ip", VStr (lit "::1"));
                                 (lit "userAgent", VStr (lit "okhttp/4.9.2"));
                                 (lit "source", VStr (lit "react-native-app"))])]))
            ++ rest).
Proof. eexists. vm_compute. reflexivity. Qed.

(** ** Splitting at a separator *)

Lemma split_go_skip sep u : forall rest,
  split_go sep (length u) (u ++ rest) = split_go sep 0 rest.
Proof.
  induction u as [|c u IH]; intros rest; cbn [length app]; [reflexivity|].
  cbn [split_go]. apply IH.
Qed.

Lemma is_prefix_app sep rest : is_prefix sep (sep ++ rest) = true.
Proof. induction sep as [|c sep IH]; cbn; [reflexivity|]. now rewrite N.eqb_refl. Qed.

(** A separator at the head of the string ends an empty piece. *)
Lemma split_sep_head sep rest :
  sep <> [] -> split sep (sep ++ rest) = [] :: split sep rest.
Proof.
  intros Hne. destruct sep as [|c sep]; [contradiction|].
  unfold split. cbn [app split_go].
  change (c :: sep ++ rest) with ((c :: sep) ++ rest).
  rewrite is_prefix_app.
  replace (length (c :: sep) - 1) with (length sep) by (cbn; lia).
  rewrite split_go_skip. now destruct (split_go (c :: sep) 0 rest).
Qed.

(** A piece in which no separator starts is cut at the separator that
    follows it. *)
Lemma split_free sep a rest :
  sep <> [] -> free sep a (sep ++ rest) = true ->
  split sep (a ++ sep ++ rest) = a :: split sep rest.
Proof.
  intros Hne. induction a as [|x a IH]; intros Hfree.
  - exact (split_sep_head sep rest Hne).
  - cbn [free] in Hfree. apply andb_prop in Hfree as [Hx Ha].
    apply negb_true_iff in Hx. specialize (IH Ha).
    unfold split in *. cbn [app split_go].
    cbn [app] in Hx. rewrite Hx.
    destruct (split_go sep 0 (a ++ sep ++ rest)) as [p ps].
    now injection IH as -> ->.
Qed.

Lemma split_no_occurrence sep s :
  occurs sep s = false -> split sep s = [s].
Proof.
  unfold split. induction s as [|c s IH]; intros H; [reflexivity|].
  cbn [occurs] in H. apply orb_false_elim in H as [H1 H2].
  cbn [split_go]. rewrite H1. specialize (IH H2).
  destruct (split_go sep 0 s) as [p ps]. now injection IH as -> ->.
Qed.

(** A separator that fits before a character it does not hold fits in
    what precedes that character. *)
Lemma is_prefix_before c sep : c ∉ sep -> forall u v,
  is_prefix sep (u ++ c :: v) = true -> is_prefix sep u = true.
Proof.
  induction sep as [|a sep IH]; intros Hc u v H; [now destruct u|].
  destruct u as [|b u]; cbn in *.
  - apply andb_prop in H as [H _]. apply N.eqb_eq in H as ->.
    exfalso. apply Hc. left.
  - apply andb_prop in H as [H1 H2]. rewrite H1. cbn.
    apply (IH (fun Hin => Hc (list_elem_of_further _ _ _ Hin)) u v H2).
Qed.

Lemma is_prefix_app_l sep u v : is_prefix sep u = true -> is_prefix sep (u ++ v) = true.
Proof.
  revert u. induction sep as [|a sep IH]; intros u H; [reflexivity|].
  destruct u as [|b u]; cbn in *; [discriminate|].
  apply andb_prop in H as [H1 H2]. rewrite H1. cbn. now apply IH.
Qed.

Lemma free_before c sep a tail :
  c ∉ sep -> sep <> [] -> occurs sep a = false -> free sep (a ++ [c]) tail = true.
Proof.
  intros Hc Hne. induction a as [|x a IH]; intros Hocc.
  - cbn. destruct sep as [|s0 sep]; [contradiction|]. cbn.
    destruct (s0 =? c)%N eqn:E; [|reflexivity].
    apply N.eqb_eq in E as ->. exfalso. apply Hc. left.
  - cbn [occurs] in Hocc. apply orb_false_elim in Hocc as [H1 H2].
    cbn [app free]. rewrite (IH H2), andb_true_r. apply negb_true_iff.
    destruct (is_prefix sep (x :: (a ++ [c]) ++ tail)) eqn:E; [|reflexivity].
    replace (x :: (a ++ [c]) ++ tail) with ((x :: a) ++ c :: tail) in E
      by (cbn; now rewrite <- app_assoc).
    apply (is_prefix_before c sep Hc) in E. congruence.
Qed.

Lemma free_line_feed a tail : line_feed_free a = true -> free newline a tail = true.
Proof.
  induction a as [|x a IH]; intros H; [reflexivity|].
  cbn in H. apply andb_prop in H as [H1 H2].
  cbn [free]. rewrite (IH H2), andb_true_r.
  unfold newline. cbn [app is_prefix].
  apply negb_true_iff in H1. rewrite N.eqb_sym in H1. now rewrite H1.
Qed.

(** Whatever precedes it, a separator that follows a character it does
    not hold is found: the pieces of what follows it are the last pieces
    of the whole. *)
Lemma split_go_boundary c sep rest :
  c ∉ sep -> sep <> [] ->
  forall X skip,
    skip <= length X -> Forall (fun x => x ∈ sep) (take skip X) ->
    exists p ps,
      split_go sep skip (X ++ c :: sep ++ rest) = (p, ps ++ split sep rest).
Proof.
  intros Hc Hne. induction X as [|x X IH]; intros skip Hlen Hskip.
  - assert (skip = 0) as -> by (cbn in Hlen; lia).
    cbn [app split_go].
    destruct (is_prefix sep (c :: sep ++ rest)) eqn:E.
    + apply (is_prefix_before c sep Hc [] (sep ++ rest)) in E.
      destruct sep; [contradiction|discriminate].
    + pose proof (split_sep_head sep rest Hne) as Hs. unfold split in Hs at 1.
      destruct (split_go sep 0 (sep ++ rest)) as [p ps].
      injection Hs as -> ->. exists [c], []. reflexivity.
  - cbn [app split_go]. destruct skip as [|k].
    + destruct (is_prefix sep (x :: X ++ c :: sep ++ rest)) eqn:E.
      * change (x :: X ++ c :: sep ++ rest) with ((x :: X) ++ c :: sep ++ rest) in E.
        apply (is_prefix_before c sep Hc) in E.
        destruct sep as [|s0 sep']; [contradiction|].
        replace (length (s0 :: sep') - 1) with (length sep') by (cbn; lia).
        cbn in E. apply andb_prop in E as [E0 E1].
        destruct (IH (length sep')) as (p & ps & Hp).
        -- clear -E1. revert X E1. induction sep' as [|a l IHl]; intros X E1; cbn; [lia|].
           destruct X as [|b X]; [discriminate|]. cbn in E1.
           apply andb_prop in E1 as [_ E1]. specialize (IHl X E1). cbn. lia.
        -- clear -E1. revert X E1. induction sep' as [|a l IHl]; intros X E1; cbn; [constructor|].
           destruct X as [|b X]; [discriminate|]. cbn in E1.
           apply andb_prop in E1 as [Eb E1]. apply N.eqb_eq in Eb as <-.
           constructor; [right; left|].
           specialize (IHl X E1).
           eapply Forall_impl; [exact IHl|]. cbn. intros y Hy.
           apply elem_of_cons in Hy as [-> | Hy]; [left|right; now right].
        -- rewrite Hp. exists [], (p :: ps). reflexivity.
      * destruct (IH 0) as (p & ps & Hp); [lia|constructor|].
        rewrite Hp. exists (x :: p), ps. reflexivity.
    + apply IH; [cbn in Hlen; lia|].
      cbn in Hskip. now apply Forall_cons in Hskip as [_ Hskip].
Qed.

Lemma split_boundary c sep X rest :
  c ∉ sep -> sep <> [] ->
  exists P, split sep (X ++ c :: sep ++ rest) = P ++ split sep rest.
Proof.
  intros Hc Hne.
  destruct (split_go_boundary c sep rest Hc Hne X 0) as (p & ps & H);
    [lia|constructor|].
  unfold split at 1. rewrite H. exists (p :: ps). reflexivity.
Qed.

(** ** Blank and non-blank pieces *)

Lemma trimStart_keeps c s : c ∈ s -> is_space c = false -> c ∈ trimStart s.
Proof.
  intros Hin Hc. induction s as [|x s IH]; [now apply elem_of_nil in Hin|].
  cbn. destruct (is_space x) eqn:E; [|assumption].
  apply elem_of_cons in Hin as [-> | Hin]; [congruence|]. now apply IH.
Qed.

Lemma nonblank_has c s : c ∈ s -> is_space c = false -> nonblank s = true.
Proof.
  intros Hin Hc. unfold nonblank, trim, trimEnd.
  assert (H : c ∈ rev (trimStart (rev (trimStart s)))).
  { apply list_elem_of_In, in_rev, list_elem_of_In. rewrite rev_involutive.
    apply trimStart_keeps; [|assumption].
    apply list_elem_of_In, in_rev, list_elem_of_In. rewrite rev_involutive.
    now apply trimStart_keeps. }
  destruct (rev (trimStart (rev (trimStart s)))); [now apply elem_of_nil in H|reflexivity].
Qed.

Lemma filter_nonblank_tail P E b :
  Forall (fun e => nonblank e = true) E -> nonblank b = false ->
  List.filter nonblank (P ++ E ++ [b]) = List.filter nonblank P ++ E.
Proof.
  intros HE Hb. rewrite !List.filter_app. cbn. rewrite Hb, app_nil_r. f_equal.
  induction HE as [|e E He _ IH]; cbn; [reflexivity|]. now rewrite He, IH.
Qed.

(** ** The last entries of an array *)

Lemma slice_from_last {A} (limit : Z) (F E : list A) :
  (0 < limit)%Z -> (limit <= Z.of_nat (length E))%Z ->
  slice_from (- limit) (F ++ E) = last_n (Z.to_nat limit) E.
Proof.
  intros Hpos Hle. unfold slice_from, last_n.
  destruct (- limit <? 0)%Z eqn:E0; [|apply Z.ltb_ge in E0; lia].
  rewrite length_app.
  replace (Z.to_nat (Z.max (Z.of_nat (length F + length E) + - limit) 0))
    with (length F + (length E - Z.to_nat limit)) by lia.
  now rewrite drop_app_add.
Qed.

Lemma last_n_length {A} n (l : list A) : n <= length l -> length (last_n n l) = n.
Proof. intros H. unfold last_n. rewrite length_drop. lia. Qed.

Lemma last_n_cons {A} n x (l : list A) : n <= length l -> last_n n (x :: l) = last_n n l.
Proof.
  intros H. unfold last_n. cbn [length].
  replace (S (length l) - n) with (S (length l - n)) by lia. reflexivity.
Qed.

Lemma last_n_map {A B} (f : A -> B) n l : last_n n (List.map f l) = List.map f (last_n n l).
Proof. unfold last_n. rewrite length_map. 
  change (@List.map A B f) with (@fmap list _ A B f). now rewrite fmap_drop. Qed.

(** ** The streams after a run of appends *)

Lemma log_event_true e d dk :
  log_event e d = Return (true, dk) ->
  exists l,
    line_of e = Return l
    /\ dk = appended (appended d logFile (toWellFormed l ++ newline))
              (typeFile (ev_type e)) (record_text (entry_of e)).
Proof.
  intros H. apply Logger_log_true in H as (l & Hline & _ & _ & ->).
  exists l. split; [exact Hline|reflexivity].
Qed.

Lemma logged_aggregate es d d' :
  logged es d d' ->
  (forall e, e ∈ es -> typeFile (ev_type e) <> logFile) ->
  exists ls,
    Forall2 (fun e l => line_of e = Return l) es ls
    /\ content d' logFile
       = content d logFile
         ++ concat (List.map (fun l => l ++ newline) (List.map toWellFormed ls)).
Proof.
  induction 1 as [d|e es d dk d' He _ IH]; intros Hty.
  - exists []. split; [constructor|]. now rewrite app_nil_r.
  - apply log_event_true in He as (l & Hl & ->).
    destruct IH as (ls & Hls & Hc); [intros x Hx; apply Hty; now right|].
    exists (l :: ls). split; [now constructor|].
    rewrite Hc. rewrite appended_content_ne by (symmetry; apply Hty; left).
    rewrite appended_content_eq. cbn [List.map concat].
    now rewrite <- !app_assoc.
Qed.

Lemma typeFile_inj s t : typeFile s = typeFile t -> s = t.
Proof. unfold typeFile. apply app_inv_tail. Qed.

(** The file of a type holds the records of the events of that type,
    whatever other events were logged in between. *)
Lemma logged_typed t es d d' :
  logged es d d' ->
  typeFile t <> logFile ->
  content d' (typeFile t)
  = content d (typeFile t)
    ++ concat (List.map (fun e => record_text (entry_of e)) (of_type t es)).
Proof.
  intros H Hne. induction H as [d|e es d dk d' He _ IH].
  - cbn. now rewrite app_nil_r.
  - apply log_event_true in He as (l & Hl & ->).
    rewrite IH. unfold of_type. cbn [List.filter]. fold (of_type t es).
    unfold str_eqb. destruct (decide (ev_type e = t)) as [E|E].
    + rewrite E.
      rewrite appended_content_eq, appended_content_ne by assumption.
      cbn [List.map concat]. now rewrite <- !app_assoc.
    + rewrite !appended_content_ne; [reflexivity|assumption|].
      intros E'. apply typeFile_inj in E'. congruence.
Qed.

(** After an append the file is there. *)
Lemma logged_present es d d' f :
  logged es d d' -> is_Some (files d !! f) -> is_Some (files d' !! f).
Proof.
  induction 1 as [d|e es d dk d' He _ IH]; intros Hf; [assumption|].
  apply IH. apply log_event_true in He as (l & _ & ->). cbn [files appended].
  rewrite !lookup_insert. repeat case_decide; try (eexists; reflexivity); assumption.
Qed.

Lemma logged_aggregate_present e es d d' :
  logged (e :: es) d d' -> files d' !! logFile = Some (content d' logFile).
Proof.
  intros H. inversion H as [|? ? ? dk ? He Hes]; subst.
  assert (Hp : is_Some (files d' !! logFile)).
  { eapply logged_present; [exact Hes|].
    apply log_event_true in He as (l & _ & ->). cbn [files appended].
    rewrite !lookup_insert.
    repeat case_decide; try (eexists; reflexivity); congruence. }
  destruct Hp as [x Hx]. unfold content. now rewrite Hx.
Qed.

Lemma logged_typed_present t es d d' :
  logged es d d' -> of_type t es <> [] ->
  files d' !! typeFile t = Some (content d' (typeFile t)).
Proof.
  intros H Hne.
  assert (Hp : is_Some (files d' !! typeFile t)).
  { induction H as [d|e es d dk d' He Hes IH]; [contradiction|].
    unfold of_type in Hne. cbn [List.filter] in Hne. fold (of_type t es) in Hne.
    unfold str_eqb in Hne. destruct (decide (ev_type e = t)) as [E|E].
    - eapply logged_present; [exact Hes|].
      apply log_event_true in He as (l & _ & ->). cbn [files appended].
      rewrite E, lookup_insert_eq. eauto.
    - now apply IH. }
  destruct Hp as [x Hx]. unfold content. now rewrite Hx.
Qed.

(** ** The pieces of a run of lines and of a run of records *)

Lemma split_lines ls :
  Forall (fun l => line_feed_free l = true) ls ->
  split newline (concat (List.map (fun l => l ++ newline) ls)) = ls ++ [[]].
Proof.
  induction 1 as [|l ls Hl _ IH]; [reflexivity|].
  cbn [List.map concat]. rewrite <- app_assoc.
  rewrite split_free; [now rewrite IH| discriminate | now apply free_line_feed].
Qed.

Lemma split_records Js :
  Forall (fun J => occurs delimiter J = false) Js ->
  split delimiter
    (newline ++ concat (List.map (fun J => J ++ newline ++ delimiter ++ newline) Js))
  = List.map (fun J => newline ++ J ++ newline) Js ++ [newline].
Proof.
  induction 1 as [|J Js HJ _ IH]; [reflexivity|].
  cbn [List.map concat].
  replace (newline ++ (J ++ newline ++ delimiter ++ newline) ++ _)
    with (((newline ++ J) ++ newline) ++ delimiter
          ++ (newline ++ concat (List.map (fun J => J ++ newline ++ delimiter ++ newline) Js)))
    by (now rewrite <- !app_assoc).
  rewrite split_free.
  - rewrite IH. cbn [app]. now rewrite <- !app_assoc.
  - discriminate.
  - apply free_before.
    + vm_compute. intros H. apply list_elem_of_In in H. cbn in H.
      repeat (destruct H as [H|H]; [discriminate|]). exact H.
    + discriminate.
    + unfold newline. cbn [app occurs]. rewrite HJ.
      replace (is_prefix delimiter (10%N :: J)) with false by reflexivity.
      reflexivity.
Qed.

(** ** [JSON.parse] after [JSON.stringify]: strings and numbers *)

Lemma hex_val_char d : (d < 16)%N -> hex_val (hex_char d) = Some d.
Proof.
  intros H. unfold hex_char, hex_val.
  destruct (N.ltb_spec d 10).
  - replace ((48 <=? 48 + d) && (48 + d <=? 57))%N with true
      by (symmetry; apply andb_true_intro; split; apply N.leb_le; lia).
    f_equal. lia.
  - replace ((48 <=? 87 + d) && (87 + d <=? 57))%N with false
      by (symmetry; apply andb_false_intro2; apply N.leb_gt; lia).
    replace ((97 <=? 87 + d) && (87 + d <=? 102))%N with true
      by (symmetry; apply andb_true_intro; split; apply N.leb_le; lia).
    f_equal. lia.
Qed.

Lemma hex4_escape c :
  (c < 65536)%N ->
  hex4 (hex_char ((c / 4096) mod 16)) (hex_char ((c / 256) mod 16))
       (hex_char ((c / 16) mod 16)) (hex_char (c mod 16)) = Some c.
Proof.
  intros H. unfold hex4.
  rewrite !hex_val_char by (apply N.mod_upper_bound; discriminate).
  f_equal.
  pose proof (N.div_mod c 16 ltac:(discriminate)) as E1.
  pose proof (N.div_mod (c / 16) 16 ltac:(discriminate)) as E2.
  pose proof (N.div_mod (c / 256) 16 ltac:(discriminate)) as E3.
  rewrite N.Div0.div_div in E2.
  rewrite N.Div0.div_div in E3.
  change (16 * 16)%N with 256%N in E2. change (256 * 16)%N with 4096%N in E3.
  assert (E4 : ((c / 4096) mod 16 = c / 4096)%N).
  { apply N.mod_small. apply N.Div0.div_lt_upper_bound. exact H. }
  rewrite E4. generalize dependent (c / 4096)%N. generalize dependent (c / 256)%N.
  generalize dependent (c / 16)%N. intros. lia.
Qed.

Lemma parse_unicode_escape c s t r :
  (c < 65536)%N ->
  parse_string_body s = Some (t, r) ->
  parse_string_body (unicode_escape c ++ s) = Some (c :: t, r).
Proof.
  intros Hc Hs. unfold unicode_escape.
  change (lit "\u") with [92; 117]%N.
  cbn [app]. cbn [parse_string_body N.eqb Pos.eqb].
  rewrite hex4_escape by assumption. now rewrite Hs.
Qed.

Lemma parse_literal c s :
  (32 <= c)%N -> c <> 34%N -> c <> 92%N ->
  parse_string_body (c :: s)
  = match parse_string_body s with
    | Some (t, r) => Some (c :: t, r)
    | None => None
    end.
Proof.
  intros H1 H2 H3. cbn [parse_string_body].
  apply N.eqb_neq in H2, H3. rewrite H2, H3.
  apply N.ltb_ge in H1. now rewrite H1.
Qed.

Lemma escape_char_default c :
  c <> 8%N -> c <> 9%N -> c <> 10%N -> c <> 12%N -> c <> 13%N ->
  c <> 34%N -> c <> 92%N ->
  escape_char c
  = if (c <? 32)%N || is_high_surrogate c || is_low_surrogate c
    then unicode_escape c else [c].
Proof.
  intros. unfold escape_char.
  destruct c as [|p]; [reflexivity|].
  do 7 (try destruct p as [p|p|]); try reflexivity; congruence.
Qed.

Lemma surrogate_bound c :
  is_high_surrogate c || is_low_surrogate c = true -> (32 <= c < 65536)%N.
Proof.
  unfold is_high_surrogate, is_low_surrogate.
  rewrite orb_true_iff, !andb_true_iff, !N.leb_le. lia.
Qed.

Lemma parse_escaped_char c s t r :
  is_high_surrogate c = false ->
  parse_string_body s = Some (t, r) ->
  parse_string_body (escape_char c ++ s) = Some (c :: t, r).
Proof.
  intros Hh Hs.
  destruct (N.eq_dec c 8%N) as [->|?]; [cbn; now rewrite Hs|].
  destruct (N.eq_dec c 9%N) as [->|?]; [cbn; now rewrite Hs|].
  destruct (N.eq_dec c 10%N) as [->|?]; [cbn; now rewrite Hs|].
  destruct (N.eq_dec c 12%N) as [->|?]; [cbn; now rewrite Hs|].
  destruct (N.eq_dec c 13%N) as [->|?]; [cbn; now rewrite Hs|].
  destruct (N.eq_dec c 34%N) as [->|?]; [cbn; now rewrite Hs|].
  destruct (N.eq_dec c 92%N) as [->|?]; [cbn; now rewrite Hs|].
  rewrite escape_char_default by assumption. rewrite Hh, orb_false_r.
  destruct (c <? 32)%N eqn:E32; cbn [orb].
  - apply parse_unicode_escape; [|assumption]. apply N.ltb_lt in E32. lia.
  - destruct (is_low_surrogate c) eqn:El.
    + apply parse_unicode_escape; [|assumption].
      apply (surrogate_bound c). now rewrite El, orb_true_r.
    + cbn [app]. rewrite parse_literal, Hs; try assumption; [reflexivity|].
      now apply N.ltb_ge.
Qed.

Lemma parse_quote_body_bounded n : forall s r,
  length s <= n -> parse_string_body (quote_body s ++ dquote :: r) = Some (s, r).
Proof.
  induction n as [|n IH]; intros s r Hlen.
  - destruct s; [reflexivity|cbn in Hlen; lia].
  - destruct s as [|c s]; [reflexivity|]. cbn [length] in Hlen.
    cbn [quote_body]. destruct (is_high_surrogate c) eqn:Hh.
    + destruct s as [|d s].
      * cbn [app]. rewrite <- (app_nil_l (dquote :: r)) at 1.
        rewrite app_assoc, app_nil_r.
        apply parse_unicode_escape; [|reflexivity].
        apply (surrogate_bound c). now rewrite Hh.
      * destruct (is_low_surrogate d) eqn:Hl.
        -- cbn [app length] in *.
           assert (Bc := surrogate_bound c ltac:(now rewrite Hh)).
           assert (Bd := surrogate_bound d ltac:(now rewrite Hl, orb_true_r)).
           unfold is_high_surrogate in Hh. unfold is_low_surrogate in Hl.
           apply andb_prop in Hh as [Hh _], Hl as [Hl _]. apply N.leb_le in Hh, Hl.
           rewrite parse_literal by lia. rewrite parse_literal by lia.
           rewrite IH by lia. reflexivity.
        -- rewrite <- app_assoc. apply parse_unicode_escape.
           ++ apply (surrogate_bound c). now rewrite Hh.
           ++ apply IH. lia.
    + rewrite <- app_assoc. apply parse_escaped_char; [assumption|].
      apply IH. lia.
Qed.

(** A quoted string is read back. *)
Lemma parse_quote s r :
  parse_string_body (quote_body s ++ dquote :: r) = Some (s, r).
Proof. now apply (parse_quote_body_bounded (length s)). Qed.

Lemma read_digits_uint d rest :
  number_end rest = true ->
  read_digits (uint_chars d ++ rest) = (d, rest).
Proof.
  intros Hend. induction d; cbn [uint_chars app read_digits digit_of];
    try (rewrite IHd; reflexivity).
  destruct rest as [|c rest]; [reflexivity|].
  cbn [number_end] in Hend. cbn [read_digits].
  destruct (digit_of c); [discriminate|reflexivity].
Qed.

Lemma to_uint_normal n : unorm (N.to_uint n) = N.to_uint n.
Proof.
  rewrite <- (DecimalN.Unsigned.of_to n) at 2.
  now rewrite DecimalN.Unsigned.to_of.
Qed.

(** The digits of a natural number: a lone zero, or digits that do not
    start with a zero. *)
Lemma to_uint_shape n :
  match N.to_uint n with
  | Nil => False
  | D0 Nil => True
  | D0 _ => False
  | _ => True
  end.
Proof.
  pose proof (to_uint_normal n) as H.
  destruct (N.to_uint n) as [|u|u|u|u|u|u|u|u|u|u]; try exact I.
  - discriminate H.
  - unfold unorm in H. cbn [nzhead] in H.
    destruct (nzhead u) eqn:E; try (exfalso; apply (nzhead_nonzero u u); congruence).
    injection H as <-. exact I.
Qed.

Lemma parse_nat_chars n rest :
  number_end rest = true ->
  parse_number (nat_chars n ++ rest) = Some (Z.of_N n, rest).
Proof.
  intros Hend. unfold parse_number, nat_chars.
  pose proof (to_uint_shape n) as Hs.
  pose proof (DecimalN.Unsigned.of_to n) as Hof.
  assert (Hcont : (match rest with
                   | c :: _ => (c =? 46)%N || (c =? 101)%N || (c =? 69)%N
                   | [] => false
                   end) = false).
  { destruct rest as [|c rest]; [reflexivity|]. cbn [number_end] in Hend.
    destruct (digit_of c); [discriminate|]. now apply negb_true_iff in Hend. }
  destruct (N.to_uint n) as [|u|u|u|u|u|u|u|u|u|u] eqn:E; [contradiction|..];
    cbn [uint_chars app];
    match goal with
    | |- context [read_digits (?c :: uint_chars ?u ++ rest)] =>
        change (c :: uint_chars u ++ rest) with (uint_chars (N.to_uint n) ++ rest) ||
        idtac
    end.
  all: try (rewrite <- E at 1).
  all: cbn [uint_chars app read_digits digit_of];
       rewrite (read_digits_uint u rest Hend); rewrite Hcont; cbn [negb andb].
  1: destruct u; try contradiction; cbn [andb]; rewrite <- Hof; reflexivity.
  all: rewrite <- Hof; reflexivity.
Qed.

Lemma parse_negative_chars n rest :
  number_end rest = true ->
  parse_number (45%N :: nat_chars n ++ rest) = Some ((- Z.of_N n)%Z, rest).
Proof.
  intros Hend. unfold parse_number, nat_chars.
  pose proof (to_uint_shape n) as Hs.
  pose proof (DecimalN.Unsigned.of_to n) as Hof.
  assert (Hcont : (match rest with
                   | c :: _ => (c =? 46)%N || (c =? 101)%N || (c =? 69)%N
                   | [] => false
                   end) = false).
  { destruct rest as [|c rest]; [reflexivity|]. cbn [number_end] in Hend.
    destruct (digit_of c); [discriminate|]. now apply negb_true_iff in Hend. }
  rewrite (read_digits_uint (N.to_uint n) rest Hend). rewrite Hcont, Hof.
  destruct (N.to_uint n) as [|u|u|u|u|u|u|u|u|u|u]; try contradiction;
    try reflexivity.
  destruct u; try contradiction. reflexivity.
Qed.

(** The decimal form of an integer is read back. *)
Lemma parse_num_chars z rest :
  number_end rest = true ->
  parse_number (num_chars z ++ rest) = Some (z, rest).
Proof.
  intros Hend. unfold num_chars. destruct (z <? 0)%Z eqn:E.
  - cbn [app]. rewrite parse_negative_chars by assumption.
    apply Z.ltb_lt in E. do 2 f_equal. lia.
  - rewrite parse_nat_chars by assumption.
    apply Z.ltb_ge in E. do 2 f_equal. lia.
Qed.

(** The first character of a numeral is a minus sign or a digit. *)
Lemma num_chars_head z :
  exists c t, num_chars z = c :: t
              /\ (c = 45%N \/ exists mk, digit_of c = Some mk).
Proof.
  unfold num_chars. destruct (z <? 0)%Z.
  - eauto.
  - unfold nat_chars. pose proof (to_uint_shape (Z.to_N z)) as Hs.
    destruct (N.to_uint (Z.to_N z)); [contradiction|..];
      cbn [uint_chars]; do 2 eexists; (split; [reflexivity|]); right;
      eexists; reflexivity.
Qed.

(** ** [JSON.parse] after [JSON.stringify]: values *)

Lemma skip_ws_app ws s : json_ws ws -> skip_ws (ws ++ s) = skip_ws s.
Proof. induction 1 as [|c ws Hc _ IH]; cbn; [|rewrite Hc]; auto. Qed.

Lemma skip_ws_head c s : is_json_ws c = false -> skip_ws (c :: s) = c :: s.
Proof. intros H. cbn. now rewrite H. Qed.

Lemma pad_ws n : json_ws (pad n).
Proof. induction n; constructor; auto. Qed.

Lemma newline_pad_ws n : json_ws (newline ++ pad n).
Proof. constructor; [reflexivity|apply pad_ws]. Qed.

Lemma parse_value_S f s :
  parse_value (S f) s
  = match skip_ws s with
    | [] => None
    | c :: s' =>
        match c with
        | 123 =>
            match skip_ws s' with
            | 125 :: r => Some (VObj [], r)
            | _ =>
                match parse_members f s' with
                | Some (ms, r) => Some (VObj (object_of ms), r)
                | None => None
                end
            end
        | 91 =>
            match skip_ws s' with
            | 93 :: r => Some (VArr [], r)
            | _ =>
                match parse_elements f s' with
                | Some (vs, r) => Some (VArr vs, r)
                | None => None
                end
            end
        | 34 =>
            match parse_string_body s' with
            | Some (t, r) => Some (VStr t, r)
            | None => None
            end
        | 116 => expect (lit "true") (VBool true) (c :: s')
        | 102 => expect (lit "false") (VBool false) (c :: s')
        | 110 => expect (lit "null") VNull (c :: s')
        | _ =>
            match parse_number (c :: s') with
            | Some (z, r) => Some (VNum z, r)
            | None => None
            end
        end%N
    end.
Proof. reflexivity. Qed.

Lemma parse_elements_S f s :
  parse_elements (S f) s
  = match parse_value f s with
    | None => None
    | Some (v, r) =>
        match skip_ws r with
        | 44%N :: r' =>
            match parse_elements f r' with
            | Some (vs, r'') => Some (v :: vs, r'')
            | None => None
            end
        | 93%N :: r' => Some ([v], r')
        | _ => None
        end
    end.
Proof. reflexivity. Qed.

Lemma parse_members_S f s :
  parse_members (S f) s
  = match skip_ws s with
    | 34%N :: s1 =>
        match parse_string_body s1 with
        | None => None
        | Some (k, r) =>
            match skip_ws r with
            | 58%N :: r1 =>
                match parse_value f r1 with
                | None => None
                | Some (v, r2) =>
                    match skip_ws r2 with
                    | 44%N :: r3 =>
                        match parse_members f r3 with
                        | Some (ms, r4) => Some ((k, v) :: ms, r4)
                        | None => None
                        end
                    | 125%N :: r3 => Some ([(k, v)], r3)
                    | _ => None
                    end
                end
            | _ => None
            end
        end
    | _ => None
    end.
Proof. reflexivity. Qed.

(** The text of a value starts with a character that is no white space
    and closes no array. *)
Lemma ser_head ind v :
  exists c t, ser ind v = c :: t /\ is_json_ws c = false /\ c <> 93%N.
Proof.
  destruct v as [| |[|]|z|s|items|props]; cbn [ser];
    try (do 2 eexists; split; [reflexivity|split; [reflexivity|discriminate]]).
  - destruct (num_chars_head z) as (c & t & -> & [-> | [mk Hmk]]).
    + do 2 eexists; split; [reflexivity|split; [reflexivity|discriminate]].
    + do 2 eexists; split; [reflexivity|].
      destruct c as [|p]; [discriminate|].
      do 7 (try destruct p as [p|p|]); try discriminate; split; (reflexivity || discriminate).
  - destruct items;
      do 2 eexists; (split; [reflexivity|split; [reflexivity|discriminate]]).
  - destruct (members _ props);
      do 2 eexists; (split; [reflexivity|split; [reflexivity|discriminate]]).
Qed.

Lemma members_defined f props :
  members f props
  = List.map (fun kv => quote (fst kv) ++ lit ": " ++ f (snd kv)) (defined_props props).
Proof.
  induction props as [|[k x] props IH]; [reflexivity|].
  cbn [members defined_props List.filter snd]. fold (defined_props props).
  destruct (is_defined x); cbn [List.map fst snd]; now rewrite IH.
Qed.

Lemma norm_object props :
  norm (VObj props)
  = VObj (List.map (fun kv => (fst kv, norm (snd kv))) (defined_props props)).
Proof.
  cbn [norm]. f_equal.
  induction props as [|[k x] props IH]; [reflexivity|].
  cbn [defined_props List.filter snd]. fold (defined_props props).
  destruct (is_defined x); cbn [List.map fst snd]; now rewrite IH.
Qed.

Lemma join_cons2 sep p q ps : join sep (p :: q :: ps) = p ++ sep ++ join sep (q :: ps).
Proof. reflexivity. Qed.

Lemma skip_closing ind c rest :
  is_json_ws c = false ->
  skip_ws ((newline ++ pad ind) ++ c :: rest) = c :: rest.
Proof.
  intros H. rewrite skip_ws_app by apply newline_pad_ws. now apply skip_ws_head.
Qed.

(** The elements of an array are read back, up to its closing bracket. *)
Lemma parse_elements_join items :
  items <> [] -> Forall roundtrips items ->
  forall ind' ind ws rest fuel,
    json_ws ws ->
    length (join (lit "," ++ newline ++ pad ind') (List.map (ser ind') items)) < fuel ->
    parse_elements fuel
      (ws ++ join (lit "," ++ newline ++ pad ind') (List.map (ser ind') items)
          ++ (newline ++ pad ind) ++ 93%N :: rest)
    = Some (List.map norm items, rest).
Proof.
  intros Hne Hall. induction Hall as [|x items Hx Hitems IH]; [contradiction|].
  intros ind' ind ws rest fuel Hws Hfuel.
  destruct fuel as [|f]; [lia|]. rewrite parse_elements_S.
  destruct items as [|y items].
  - cbn [List.map join] in *.
    rewrite (Hx ind' ws _ f Hws) by (reflexivity || lia).
    rewrite skip_closing by reflexivity. reflexivity.
  - cbn [List.map] in *. rewrite join_cons2 in *.
    rewrite !length_app in Hfuel.
    rewrite <- !app_assoc.
    rewrite (Hx ind' ws _ f Hws) by (reflexivity || lia).
    change (lit "," ++ newline ++ pad ind' ++ ?t) with (44%N :: newline ++ pad ind' ++ t).
    rewrite skip_ws_head by reflexivity.
    match goal with
    | |- context [parse_elements f ?t] =>
        replace t with
          ((newline ++ pad ind')
           ++ join (lit "," ++ newline ++ pad ind')
                (ser ind' y :: List.map (ser ind') items)
           ++ (newline ++ pad ind) ++ 93%N :: rest)
          by (now rewrite <- !app_assoc)
    end.
    rewrite (IH ltac:(discriminate) ind' ind (newline ++ pad ind') rest f).
    + reflexivity.
    + apply newline_pad_ws.
    + change (length (lit ",")) with 1 in Hfuel. lia.
Qed.

(** The members of an object are read back, up to its closing brace. *)
Lemma parse_members_join D :
  D <> [] -> Forall (fun kv => roundtrips (snd kv)) D ->
  forall ind' ind ws rest fuel,
    json_ws ws ->
    length (join (lit "," ++ newline ++ pad ind')
              (List.map (fun kv => quote (fst kv) ++ lit ": " ++ ser ind' (snd kv)) D))
    < fuel ->
    parse_members fuel
      (ws ++ join (lit "," ++ newline ++ pad ind')
               (List.map (fun kv => quote (fst kv) ++ lit ": " ++ ser ind' (snd kv)) D)
          ++ (newline ++ pad ind) ++ 125%N :: rest)
    = Some (List.map (fun kv => (fst kv, norm (snd kv))) D, rest).
Proof.
  intros Hne Hall. induction Hall as [|[k x] D Hx HD IH]; [contradiction|].
  intros ind' ind ws rest fuel Hws Hfuel.
  destruct fuel as [|f]; [lia|]. rewrite parse_members_S.
  rewrite skip_ws_app by assumption.
  cbn [fst snd] in Hx.
  destruct D as [|kv D].
  - cbn [List.map join fst snd] in *.
    unfold quote at 1. cbn [app]. rewrite skip_ws_head by reflexivity.
    rewrite <- !app_assoc. cbn [app]. rewrite parse_quote.
    change (lit ": " ++ ?t) with (58%N :: [32%N] ++ t).
    rewrite skip_ws_head by reflexivity.
    rewrite !length_app in Hfuel.
    rewrite (Hx ind' [32%N] _ f) by
      (repeat constructor || reflexivity || (cbn [length] in Hfuel; lia)).
    rewrite (app_assoc newline), skip_closing by reflexivity. reflexivity.
  - cbn [List.map] in *. rewrite join_cons2 in *. cbn [fst snd] in *.
    unfold quote at 1. cbn [app]. rewrite skip_ws_head by reflexivity.
    rewrite <- !app_assoc. cbn [app]. rewrite parse_quote.
    change (lit ": " ++ ?t) with (58%N :: [32%N] ++ t).
    rewrite skip_ws_head by reflexivity.
    rewrite !length_app in Hfuel.
    rewrite (Hx ind' [32%N] _ f) by
      (repeat constructor || reflexivity || (cbn [length] in Hfuel; lia)).
    change (lit "," ++ newline ++ pad ind' ++ ?t) with (44%N :: newline ++ pad ind' ++ t).
    rewrite skip_ws_head by reflexivity.
    match goal with
    | |- context [parse_members f ?t] =>
        replace t with
          ((newline ++ pad ind')
           ++ join (lit "," ++ newline ++ pad ind')
                ((quote (fst kv) ++ lit ": " ++ ser ind' (snd kv))
                 :: List.map (fun kv => quote (fst kv) ++ lit ": " ++ ser ind' (snd kv)) D)
           ++ (newline ++ pad ind) ++ 125%N :: rest)
          by (now rewrite <- !app_assoc)
    end.
    rewrite (IH ltac:(discriminate) ind' ind (newline ++ pad ind') rest f).
    + reflexivity.
    + apply newline_pad_ws.
    + change (length (lit ",")) with 1 in Hfuel. lia.
Qed.

Lemma distinct_keys_items items :
  distinct_keys (VArr items) -> Forall distinct_keys items.
Proof.
  cbn [distinct_keys]. induction items as [|x items IH]; intros H; constructor;
    [apply H|apply IH, H].
Qed.

Lemma distinct_keys_props props :
  distinct_keys (VObj props) ->
  NoDup (List.map fst props) /\ Forall (fun kv => distinct_keys (snd kv)) props.
Proof.
  cbn [distinct_keys]. intros [Hnd H]. split; [assumption|]. clear Hnd.
  induction props as [|kv props IH]; constructor; [apply H|apply IH, H].
Qed.

Lemma defined_props_keys props :
  NoDup (List.map fst props) ->
  NoDup (List.map fst (List.map (fun kv => (fst kv, norm (snd kv))) (defined_props props))).
Proof.
  rewrite List.map_map. cbn [fst].
  induction props as [|[k x] props IH]; cbn; intros H; [constructor|].
  apply NoDup_cons in H as [Hk H]. fold (defined_props props).
  destruct (is_defined x); [|now apply IH].
  cbn [List.map fst]. constructor; [|now apply IH].
  intros Hin. apply Hk.
  apply list_elem_of_In, in_map_iff in Hin as ([k' x'] & <- & Hin).
  apply list_elem_of_In, in_map_iff. exists (k', x'). split; [reflexivity|].
  unfold defined_props in Hin. now apply filter_In in Hin as [Hin _].
Qed.

Lemma ser_array ind x items :
  ser ind (VArr (x :: items))
  = [91%N] ++ newline ++ pad (ind + 2)
    ++ join (lit "," ++ newline ++ pad (ind + 2))
         (List.map (ser (ind + 2)) (x :: items))
    ++ newline ++ pad ind ++ [93%N].
Proof. reflexivity. Qed.

Lemma ser_object ind props m ms :
  members (ser (ind + 2)) props = m :: ms ->
  ser ind (VObj props)
  = [123%N] ++ newline ++ pad (ind + 2)
    ++ join (lit "," ++ newline ++ pad (ind + 2)) (m :: ms)
    ++ newline ++ pad ind ++ [125%N].
Proof. intros H. cbn [ser]. now rewrite H. Qed.

Lemma ser_object_empty ind props :
  members (ser (ind + 2)) props = [] -> ser ind (VObj props) = lit "{}".
Proof. intros H. cbn [ser]. now rewrite H. Qed.

Lemma array_not_closed c s (X : option (value * str)) :
  c <> 93%N ->
  match c :: s with
  | 93%N :: r => Some (VArr [], r)
  | _ => X
  end = X.
Proof.
  intros H. destruct c as [|p]; [reflexivity|].
  do 7 (try destruct p as [p|p|]); try reflexivity. congruence.
Qed.

(** Every value with distinct property names is read back from its
    text. *)
Lemma parse_ser v : distinct_keys v -> roundtrips v.
Proof.
  induction v as [| |b|z|s|items IH|props IH] using value_ind;
    intros Hd ind ws rest fuel Hws Hend Hfuel;
    (destruct fuel as [|f];
     [match type of Hfuel with
      | length (ser _ ?v) <= _ =>
          destruct (ser_head ind v) as (c & t & E & _);
          rewrite E in Hfuel; cbn in Hfuel; lia
      end|]);
    rewrite parse_value_S, skip_ws_app by assumption.
  - reflexivity.
  - reflexivity.
  - destruct b; reflexivity.
  - cbn [ser norm]. destruct (num_chars_head z) as (c & t & E & Hc).
    pose proof (parse_num_chars z rest Hend) as Hp. rewrite E in *.
    cbn [app] in *.
    destruct Hc as [-> | [mk Hmk]].
    + rewrite skip_ws_head by reflexivity. now rewrite Hp.
    + destruct c as [|p]; [discriminate|].
      do 7 (try destruct p as [p|p|]); try discriminate;
        (rewrite skip_ws_head by reflexivity); rewrite Hp; reflexivity.
  - change (ser ind (VStr s)) with (dquote :: quote_body s ++ [dquote]).
    cbn [app norm]. rewrite (skip_ws_head dquote) by reflexivity.
    rewrite <- app_assoc. cbn [app].
    pose proof (parse_quote s rest) as Hq. unfold dquote in *. now rewrite Hq.
  - apply distinct_keys_items in Hd.
    assert (Hall : Forall roundtrips items).
    { clear -IH Hd. induction IH as [|x items Hx _ IHl]; constructor;
        apply Forall_cons in Hd as [? ?]; auto. }
    destruct items as [|x items]; [reflexivity|].
    rewrite ser_array in *. cbn [norm].
    set (its := x :: items) in *.
    cbn [app]. rewrite (skip_ws_head 91%N) by reflexivity.
    rewrite !length_app in Hfuel. cbn [length] in Hfuel.
    rewrite <- !app_assoc.
    destruct (ser_head (ind + 2) x) as (c & t & E & Hc & Hc').
    assert (Hskip : forall tl,
              skip_ws (newline ++ pad (ind + 2)
                       ++ join (lit "," ++ newline ++ pad (ind + 2))
                            (List.map (ser (ind + 2)) its) ++ tl)
              = c :: t ++ match items with
                          | [] => []
                          | _ => (lit "," ++ newline ++ pad (ind + 2))
                                 ++ join (lit "," ++ newline ++ pad (ind + 2))
                                      (List.map (ser (ind + 2)) items)
                          end ++ tl).
    { intros tl. rewrite app_assoc, skip_ws_app by apply newline_pad_ws.
      subst its. destruct items as [|y items]; cbn [List.map].
      - cbn [join]. rewrite E. cbn [app]. now rewrite (skip_ws_head c).
      - rewrite join_cons2, E. cbn [app]. rewrite (skip_ws_head c) by assumption.
        now rewrite <- !app_assoc. }
    rewrite Hskip, array_not_closed by assumption.
    replace (newline ++ pad (ind + 2)
             ++ join (lit "," ++ newline ++ pad (ind + 2))
                  (List.map (ser (ind + 2)) its)
             ++ newline ++ pad ind ++ [93%N] ++ rest)
      with ((newline ++ pad (ind + 2))
            ++ join (lit "," ++ newline ++ pad (ind + 2))
                 (List.map (ser (ind + 2)) its)
            ++ (newline ++ pad ind) ++ 93%N :: rest)
      by (now rewrite <- !app_assoc).
    rewrite (parse_elements_join its ltac:(discriminate) Hall);
      [reflexivity|apply newline_pad_ws|lia].
  - apply distinct_keys_props in Hd as [Hnd Hd].
    assert (Hall : Forall (fun kv => roundtrips (snd kv)) (defined_props props)).
    { clear -IH Hd. induction IH as [|kv props Hx _ IHl]; [constructor|].
      apply Forall_cons in Hd as [? ?]. cbn [defined_props List.filter].
      fold (defined_props props). destruct (is_defined (snd kv)); [constructor|]; auto. }
    rewrite norm_object.
    pose proof (defined_props_keys props Hnd) as Hkeys.
    pose proof (members_defined (ser (ind + 2)) props) as Hm.
    destruct (defined_props props) as [|kv D].
    { rewrite ser_object_empty by assumption. reflexivity. }
    set (mem := fun kv : str * value =>
                  quote (fst kv) ++ lit ": " ++ ser (ind + 2) (snd kv)) in *.
    rewrite (ser_object ind props (mem kv) (List.map mem D) Hm) in *.
    change (mem kv :: List.map mem D) with (List.map mem (kv :: D)) in *.
    set (ds := kv :: D) in *.
    cbn [app]. rewrite (skip_ws_head 123%N) by reflexivity.
    rewrite !length_app in Hfuel. cbn [length] in Hfuel.
    rewrite <- !app_assoc.
    assert (Hskip : exists t,
              skip_ws (newline ++ pad (ind + 2)
                       ++ join (lit "," ++ newline ++ pad (ind + 2)) (List.map mem ds)
                       ++ newline ++ pad ind ++ [125%N] ++ rest)
              = 34%N :: t).
    { subst ds mem. destruct D as [|kv' D]; cbn [List.map]; eexists;
        rewrite (app_assoc newline (pad (ind + 2)));
        (rewrite (skip_ws_app (newline ++ pad (ind + 2))) by apply newline_pad_ws).
      - cbn [join]. unfold quote at 1. cbn [app].
        rewrite (skip_ws_head dquote) by reflexivity. reflexivity.
      - rewrite join_cons2. unfold quote at 1. cbn [app].
        rewrite (skip_ws_head dquote) by reflexivity. reflexivity. }
    destruct Hskip as [t Hskip]. rewrite Hskip. cbv iota.
    replace (newline ++ pad (ind + 2)
             ++ join (lit "," ++ newline ++ pad (ind + 2)) (List.map mem ds)
             ++ newline ++ pad ind ++ [125%N] ++ rest)
      with ((newline ++ pad (ind + 2))
            ++ join (lit "," ++ newline ++ pad (ind + 2)) (List.map mem ds)
            ++ (newline ++ pad ind) ++ 125%N :: rest)
      by (now rewrite <- !app_assoc).
    subst mem.
    rewrite (parse_members_join ds ltac:(discriminate) Hall);
      [|apply newline_pad_ws|lia].
    now rewrite object_of_distinct.
Qed.

(** [JSON.parse(JSON.stringify(v, null, 2))] *)
Lemma JSON_parse_ser v : distinct_keys v -> JSON_parse (ser 0 v) = Return (norm v).
Proof.
  intros Hd. unfold JSON_parse.
  pose proof (parse_ser v Hd 0 [] [] (S (length (ser 0 v)))) as H.
  cbn [app] in H. rewrite app_nil_r in H.
  rewrite H; [reflexivity|constructor|reflexivity|lia].
Qed.

(** ** The pattern that extracts the JSON text of a record *)

Lemma any_char_true c : any_char c = true.
Proof. unfold any_char. now destruct (is_space c). Qed.

Lemma rep_greedy_fail {R} p s (k : str -> option R) :
  (forall w, w `suffix_of` s -> k w = None) -> rep true p 0 s k = None.
Proof.
  induction s as [|c s IH]; intros H; cbn [rep].
  - apply H. reflexivity.
  - rewrite IH by (intros w Hw; apply H; now apply suffix_cons_r).
    rewrite (H (c :: s)) by reflexivity. now destruct (p c).
Qed.

Lemma rep_greedy_app {R} p u v (k : str -> option R) r :
  Forall (fun c => p c = true) u ->
  rep true p 0 v k = Some r -> rep true p 0 (u ++ v) k = Some r.
Proof.
  intros Hu Hv. induction Hu as [|c u Hc _ IH]; [assumption|].
  cbn [app rep]. now rewrite Hc, IH.
Qed.

(** The match runs from the first opening brace to the last closing
    brace. *)
Lemma json_pattern_match pre mid post :
  123%N ∉ pre -> 125%N ∉ post ->
  str_match json_pattern 0 (pre ++ 123%N :: mid ++ 125%N :: post)
  = Some [Some (123%N :: mid ++ [125%N])].
Proof.
  intros Hpre Hpost. induction pre as [|x pre IH].
  - cbn [app]. cbn [str_match].
    unfold json_pattern, seq_re. cbn [fold_right mt].
    change (is_char 123 123) with true. cbv iota.
    set (s := 123%N :: mid ++ 125%N :: post).
    set (k := fun s' : str => _).
    assert (Hk : k (125%N :: post)
                 = Some [Some (123%N :: mid ++ [125%N])]).
    { subst k. cbv beta. change (is_char 125 125) with true. cbv iota.
      cbn [replicate]. cbn [insert list_insert]. do 3 f_equal.
      subst s. cbn [length]. rewrite length_app. cbn [length].
      replace (S (length mid + S (length post)) - length post)
        with (S (length mid + 1)) by lia.
      cbn [take]. f_equal.
      change (125%N :: post) with ([125%N] ++ post).
      rewrite app_assoc. rewrite take_app_length'; [reflexivity|].
      rewrite length_app. reflexivity. }
    assert (Hfail : rep true any_char 0 post k = None).
    { apply rep_greedy_fail. intros w Hw. subst k. cbv beta.
      destruct w as [|c w]; [reflexivity|].
      destruct (is_char 125 c) eqn:E; [|reflexivity].
      apply N.eqb_eq in E as ->. exfalso. apply Hpost.
      destruct Hw as [u ->]. apply elem_of_app. right. left. }
    rewrite (rep_greedy_app any_char mid (125%N :: post) k
               [Some (123%N :: mid ++ [125%N])]).
    + reflexivity.
    + apply Forall_forall. intros c _. apply any_char_true.
    + cbn [rep]. rewrite any_char_true, Hfail. exact Hk.
  - cbn [app]. cbn [str_match].
    assert (Hx : is_char 123 x = false).
    { apply N.eqb_neq. intros ->. apply Hpre. left. }
    unfold json_pattern at 1, seq_re. cbn [fold_right mt]. rewrite Hx.
    apply IH. intros Hin. apply Hpre. now right.
Qed.

(** Without an opening brace, or without a closing brace after the
    first opening one, the pattern matches nowhere. *)
Lemma json_pattern_needs_brace s :
  (123%N ∉ s) -> str_match json_pattern 0 s = None.
Proof.
  induction s as [|c s IH]; intros H; [reflexivity|].
  cbn [str_match]. unfold json_pattern at 1, seq_re. cbn [fold_right mt].
  assert (Hc : is_char 123 c = false).
  { apply N.eqb_neq. intros ->. apply H. left. }
  rewrite Hc. apply IH. intros Hin. apply H. now right.
Qed.

Lemma json_pattern_needs_close s :
  (125%N ∉ s) -> str_match json_pattern 0 s = None.
Proof.
  induction s as [|c s IH]; intros H; [reflexivity|].
  assert (Hs : 125%N ∉ s) by (intros Hin; apply H; now right).
  cbn [str_match]. unfold json_pattern at 1, seq_re. cbn [fold_right mt].
  destruct (is_char 123 c); [|now apply IH].
  rewrite rep_greedy_fail; [now apply IH|].
  intros w Hw. destruct w as [|x w]; [reflexivity|].
  destruct (is_char 125 x) eqn:E; [|reflexivity].
  apply N.eqb_eq in E as ->. exfalso. apply Hs.
  destruct Hw as [u ->]. apply elem_of_app. right. left.
Qed.

Lemma json_pattern_unclosed pre rest :
  (123%N ∉ pre) -> (125%N ∉ rest) ->
  str_match json_pattern 0 (pre ++ 123%N :: rest) = None.
Proof.
  intros Hpre Hrest. induction pre as [|x pre IH].
  - apply json_pattern_needs_close.
    intros [E|H]%elem_of_cons; [discriminate|contradiction].
  - cbn [app str_match].
    assert (Hx : is_char 123 x = false).
    { apply N.eqb_neq. intros ->. apply Hpre. left. }
    unfold json_pattern at 1, seq_re. cbn [fold_right mt]. rewrite Hx.
    apply IH. intros Hin. apply Hpre. now right.
Qed.

Lemma elem_of_rev_iff {A} (x : A) l : x ∈ rev l <-> x ∈ l.
Proof.
  split; intros H; apply list_elem_of_In; apply list_elem_of_In in H.
  - now apply (proj2 (in_rev l x)).
  - now apply (proj1 (in_rev l x)).
Qed.

Lemma after_first_some c s rest :
  after_first c s = Some rest -> exists pre, s = pre ++ c :: rest /\ c ∉ pre.
Proof.
  revert rest. induction s as [|x s IH]; intros rest; cbn [after_first];
    [discriminate|].
  destruct (x =? c)%N eqn:E.
  - apply N.eqb_eq in E as ->. intros [= ->]. exists []. split; [reflexivity|].
    apply not_elem_of_nil.
  - intros H. destruct (IH _ H) as (pre & -> & Hpre). exists (x :: pre).
    split; [reflexivity|]. apply N.eqb_neq in E.
    intros [->|Hin]%elem_of_cons; [now apply E|contradiction].
Qed.

Lemma after_first_none c s : after_first c s = None -> c ∉ s.
Proof.
  induction s as [|x s IH]; cbn [after_first]; [intros _; apply not_elem_of_nil|].
  destruct (x =? c)%N eqn:E; [discriminate|]. intros H. apply N.eqb_neq in E.
  intros [->|Hin]%elem_of_cons; [now apply E|]. now apply IH.
Qed.

(** What the pattern of line 234 matches is the text from the first
    opening brace to the last closing brace after it. *)
Lemma json_pattern_span entry :
  str_match json_pattern 0 entry
  = match brace_span entry with
    | Some text => Some [Some text]
    | None => None
    end.
Proof.
  unfold brace_span.
  destruct (after_first 123 entry) as [rest|] eqn:Hopen.
  - apply after_first_some in Hopen as (pre & -> & Hpre).
    destruct (after_first 125 (rev rest)) as [behind|] eqn:Hclose.
    + apply after_first_some in Hclose as (post & Hrest & Hpost).
      apply (f_equal (@rev N)) in Hrest. rewrite rev_involutive in Hrest.
      rewrite rev_app_distr in Hrest. cbn [rev] in Hrest.
      rewrite <- app_assoc in Hrest. cbn [app] in Hrest. subst rest.
      apply json_pattern_match; [assumption|].
      intros Hin. apply Hpost. exact (proj1 (elem_of_rev_iff _ _) Hin).
    + apply after_first_none in Hclose.
      apply json_pattern_unclosed; [assumption|].
      intros Hin. apply Hclose. exact (proj2 (elem_of_rev_iff _ _) Hin).
  - apply json_pattern_needs_brace. now apply after_first_none.
Qed.

(** ** Reading records back *)

Lemma ser_object_shape ind props :
  exists mid, ser ind (VObj props) = 123%N :: mid ++ [125%N].
Proof.
  destruct (members (ser (ind + 2)) props) as [|m ms] eqn:E.
  - rewrite ser_object_empty by assumption. now exists [].
  - rewrite (ser_object ind props m ms E). eexists. cbn [app].
    f_equal. rewrite !app_assoc. reflexivity.
Qed.

(** The record of a logged entry, as the page finds it between two
    delimiters, is parsed back into the entry. *)
Lemma parse_entry_record props :
  distinct_keys (VObj props) ->
  parse_entry (newline ++ ser 0 (VObj props) ++ newline) = Return (norm (VObj props)).
Proof.
  intros Hd. unfold parse_entry, parse_entry_with.
  destruct (ser_object_shape 0 props) as [mid E].
  pose proof (json_pattern_match newline mid newline) as Hm.
  rewrite E.
  replace ((123%N :: mid ++ [125%N]) ++ newline)
    with (123%N :: mid ++ 125%N :: newline)
    by (cbn [app]; now rewrite <- app_assoc).
  rewrite Hm.
  - cbn [group lookup list_lookup str_of]. rewrite <- E.
    now rewrite JSON_parse_ser.
  - intros H. apply list_elem_of_singleton in H. discriminate.
  - intros H. apply list_elem_of_singleton in H. discriminate.
Qed.

Lemma record_nonblank props : nonblank (newline ++ ser 0 (VObj props) ++ newline) = true.
Proof.
  destruct (ser_object_shape 0 props) as [mid ->].
  apply (nonblank_has 123%N); [|reflexivity].
  apply elem_of_app. right. left.
Qed.

Lemma compact_line_head ts type title description l :
  compact_line ts type title description = Return l -> exists t, l = 91%N :: t.
Proof.
  unfold compact_line.
  destruct (toString title); [|discriminate]. cbn [bind].
  destruct (if truthy description then _ else _); [|discriminate].
  cbn [bind]. intros [= <-]. eexists. reflexivity.
Qed.

Lemma line_nonblank e l : line_of e = Return l -> nonblank l = true.
Proof.
  intros H. apply compact_line_head in H as [t ->].
  apply (nonblank_has 91%N); [left|reflexivity].
Qed.

Lemma map_outcome_return {A B} (f : A -> outcome B) (g : A -> B) l :
  Forall (fun x => f x = Return (g x)) l ->
  map_outcome f l = Return (List.map g l).
Proof.
  induction 1 as [|x l Hx _ IH]; [reflexivity|].
  cbn [map_outcome List.map]. now rewrite Hx, IH.
Qed.

(** ** The last entries of a stream *)

Lemma line_feed_free_elem l c : line_feed_free l = true -> c ∈ l -> c <> 10%N.
Proof.
  unfold line_feed_free. rewrite forallb_forall. intros H Hc ->.
  apply list_elem_of_In in Hc. specialize (H _ Hc). discriminate.
Qed.

(** Whatever the file held before, the lines appended after the first one
    are its last pieces, followed by the empty piece after the last line
    break. *)
Lemma aggregate_pieces pre l ls :
  l <> [] -> line_feed_free l = true ->
  Forall (fun x => line_feed_free x = true) ls ->
  exists P,
    split newline (pre ++ concat (List.map (fun x => x ++ newline) (l :: ls)))
    = P ++ ls ++ [[]].
Proof.
  intros Hne Hl Hls.
  destruct (exists_last Hne) as (l' & c & ->).
  assert (Hc : c ∉ newline).
  { intros H. apply list_elem_of_singleton in H.
    apply (line_feed_free_elem _ c Hl); [|assumption].
    apply elem_of_app. right. left. }
  destruct (split_boundary c newline (pre ++ l')
              (concat (List.map (fun x => x ++ newline) ls)) Hc ltac:(discriminate))
    as [P HP].
  exists P. rewrite <- split_lines by assumption. rewrite <- HP.
  f_equal. cbn [List.map concat]. rewrite <- !app_assoc. reflexivity.
Qed.

(** The same for the records of a typed stream: the piece after the last
    delimiter is a line break. *)
Lemma typed_pieces pre J Js :
  Forall (fun x => occurs delimiter x = false) Js ->
  exists P,
    split delimiter
      (pre ++ concat (List.map (fun x => x ++ newline ++ delimiter ++ newline) (J :: Js)))
    = P ++ List.map (fun x => newline ++ x ++ newline) Js ++ [newline].
Proof.
  intros HJs.
  assert (Hc : 10%N ∉ delimiter).
  { intros H. apply list_elem_of_In in H. vm_compute in H.
    repeat (destruct H as [H|H]; [discriminate|]). exact H. }
  destruct (split_boundary 10%N delimiter (pre ++ J)
              (newline ++ concat (List.map (fun x => x ++ newline ++ delimiter ++ newline) Js))
              Hc ltac:(discriminate))
    as [P HP].
  exists P. rewrite <- split_records by assumption. rewrite <- HP.
  f_equal. cbn [List.map concat]. rewrite <- !app_assoc. reflexivity.
Qed.

Lemma read_tail P E b (limit : Z) :
  Forall (fun e => nonblank e = true) E -> nonblank b = false ->
  (0 < limit)%Z -> (limit <= Z.of_nat (length E))%Z ->
  slice_from (- limit) (List.filter nonblank (P ++ E ++ [b]))
  = last_n (Z.to_nat limit) E.
Proof.
  intros HE Hb Hpos Hle. rewrite filter_nonblank_tail by assumption.
  now apply slice_from_last.
Qed.

Lemma Forall2_length_eq {A B} (R : A -> B -> Prop) l k :
  Forall2 R l k -> length l = length k.
Proof. induction 1; cbn; congruence. Qed.

Lemma well_formed_forallb (p : N -> bool) :
  (forall c, is_high_surrogate c || is_low_surrogate c = true -> p c = p 65533%N) ->
  forall s paired, forallb p (well_formed paired s) = forallb p s.
Proof.
  intros Hp. induction s as [|c s IH]; intros paired; [reflexivity|].
  cbn [well_formed].
  destruct (is_low_surrogate c) eqn:Hl.
  - cbn [forallb]. rewrite IH. destruct paired; [reflexivity|].
    now rewrite (Hp c) by (rewrite Hl; apply orb_true_r).
  - destruct (is_high_surrogate c) eqn:Hh; [|cbn [forallb]; now rewrite IH].
    destruct (next_is_low s); cbn [forallb]; rewrite IH; [reflexivity|].
    now rewrite (Hp c) by (rewrite Hh; reflexivity).
Qed.

(** What is stored of a line holds a line break where the line does. *)
Lemma line_feed_free_stored l : line_feed_free (toWellFormed l) = line_feed_free l.
Proof.
  unfold line_feed_free, toWellFormed. apply well_formed_forallb.
  intros c Hc. apply surrogate_bound in Hc.
  change (negb (65533 =? 10)%N) with true. apply negb_true_iff, N.eqb_neq. lia.
Qed.

Lemma stored_line_nonblank e l : line_of e = Return l -> nonblank (toWellFormed l) = true.
Proof.
  intros H. apply compact_line_head in H as [t ->].
  apply (nonblank_has 91%N); [left|reflexivity].
Qed.

(** The entries that the page and [GET /api/logs] make of the aggregate
    file after a run of appends. *)
Lemma aggregate_read e es d d' ls (limit : Z) :
  logged (e :: es) d d' ->
  (forall x, x ∈ e :: es -> typeFile (ev_type x) <> logFile) ->
  Forall2 (fun x l => line_of x = Return l) (e :: es) ls ->
  Forall (fun l => line_feed_free l = true) ls ->
  (0 < limit)%Z -> (limit <= Z.of_nat (length es))%Z ->
  exists data,
    files d' !! logFile = Some data
    /\ slice_from (- limit) (List.filter nonblank (split newline data))
       = last_n (Z.to_nat limit) (List.map toWellFormed ls).
Proof.
  intros Hlog Hty Hls Hfree Hpos Hle.
  exists (content d' logFile). split; [eapply logged_aggregate_present; eassumption|].
  destruct (logged_aggregate _ _ _ Hlog Hty) as (ls' & Hls' & ->).
  assert (ls' = ls) as ->.
  { clear -Hls Hls'. revert ls' Hls'.
    induction Hls as [|x l xs ls Hx _ IH]; intros ls' Hls'; inversion Hls'; subst;
      [reflexivity|].
    f_equal; [congruence|now apply IH]. }
  inversion Hls as [|? l ? ls0 Hl Hls0]; subst.
  apply Forall_cons in Hfree as [Hfl Hfree].
  change (List.map toWellFormed (l :: ls0))
    with (toWellFormed l :: List.map toWellFormed ls0).
  destruct (aggregate_pieces (content d logFile) (toWellFormed l)
              (List.map toWellFormed ls0)) as [P ->].
  { apply compact_line_head in Hl as [t ->]. discriminate. }
  { now rewrite line_feed_free_stored. }
  { apply Forall_forall. intros x Hx.
    apply list_elem_of_In, in_map_iff in Hx as (y & <- & Hy).
    rewrite line_feed_free_stored.
    apply (proj1 (Forall_forall _ _) Hfree). now apply list_elem_of_In. }
  assert (Hlen : length ls0 = length es)
    by (symmetry; eapply Forall2_length_eq; eassumption).
  rewrite read_tail; [| |reflexivity|assumption|rewrite length_map; lia].
  - rewrite last_n_cons; [reflexivity|rewrite length_map; lia].
  - clear -Hls0. induction Hls0 as [|x l xs ls Hx _ IH]; constructor; [|assumption].
    eapply stored_line_nonblank; eassumption.
Qed.

(** The records that the page cuts out of the file of a type after a run
    of appends, of that type and of others. *)
Lemma typed_read t e est es d d' (limit : Z) :
  logged es d d' ->
  typeFile t <> logFile ->
  of_type t es = e :: est ->
  Forall (fun x => occurs delimiter (ser 0 (entry_of x)) = false) est ->
  (0 < limit)%Z -> (limit <= Z.of_nat (length est))%Z ->
  exists data,
    files d' !! typeFile t = Some data
    /\ slice_from (- limit) (List.filter nonblank (split delimiter data))
       = last_n (Z.to_nat limit)
           (List.map (fun x => newline ++ ser 0 (entry_of x) ++ newline) (e :: est)).
Proof.
  intros Hlog Hne Hof Hocc Hpos Hle.
  exists (content d' (typeFile t)).
  split; [eapply logged_typed_present; [eassumption|now rewrite Hof]|].
  rewrite (logged_typed t _ _ _ Hlog Hne), Hof.
  replace (List.map (fun x => record_text (entry_of x)) (e :: est))
    with (List.map (fun x => x ++ newline ++ delimiter ++ newline)
            (ser 0 (entry_of e) :: List.map (fun x => ser 0 (entry_of x)) est))
    by (cbn [List.map]; now rewrite List.map_map).
  destruct (typed_pieces (content d (typeFile t)) (ser 0 (entry_of e))
              (List.map (fun x => ser 0 (entry_of x)) est)) as [P ->].
  { apply Forall_forall. intros J HJ.
    apply list_elem_of_In, in_map_iff in HJ as (x & <- & Hx).
    apply (proj1 (Forall_forall _ _) Hocc). now apply list_elem_of_In. }
  rewrite List.map_map.
  rewrite read_tail; [| |reflexivity|assumption|rewrite length_map; lia].
  - cbn [List.map]. rewrite last_n_cons; [reflexivity|rewrite length_map; lia].
  - apply Forall_forall. intros J HJ.
    apply list_elem_of_In, in_map_iff in HJ as (x & <- & Hx).
    apply record_nonblank.
Qed.

Lemma typeFile_allowed t : t ∈ allowedTypes -> typeFile t = t ++ lit "_logs.txt".
Proof. reflexivity. Qed.

Lemma allowed_not_all t : t ∈ allowedTypes -> includes [lit "all"] (VStr t) = false.
Proof.
  intros H. unfold allowedTypes in H.
  repeat (apply elem_of_cons in H as [-> | H]; [vm_compute; reflexivity|]).
  now apply elem_of_nil in H.
Qed.

Lemma last_n_sublist {A} n (l : list A) x : x ∈ last_n n l -> x ∈ l.
Proof.
  unfold last_n. intros H. rewrite <- (take_drop (length l - n) l).
  apply elem_of_app. now right.
Qed.

Lemma view_entries_all sel limit d data :
  sel = VUndef \/ sel = VStr (lit "all") ->
  files d !! logFile = Some data ->
  view_entries (read_request sel (Some limit)) d
  = List.map VStr (rev (slice_from (- limit)
                          (List.filter nonblank (split newline data)))).
Proof.
  intros Hsel Hdata. unfold view_entries, view_entries_with, readFile, read_request.
  cbn [query_type query_limit].
  change (default 50%Z (Some limit)) with limit.
  change (lit "app_logs.txt") with logFile. rewrite Hdata. cbn [bind].
  destruct Hsel as [-> | ->].
  - cbn [truthy]. change (includes [lit "all"] (VStr (lit "all"))) with true.
    reflexivity.
  - change (truthy (VStr (lit "all"))) with true. cbv iota.
    change (includes [lit "all"] (VStr (lit "all"))) with true.
    reflexivity.
Qed.

Lemma get_logs_aggregate limit d data :
  files d !! logFile = Some data ->
  get_logs (read_request VUndef (Some limit)) d
  = logs_reply (slice_from (- limit) (List.filter nonblank (split newline data)))
      (lit "app_logs.txt").
Proof.
  intros Hdata. unfold get_logs, readFile, read_request.
  cbn [query_type query_limit].
  change (default 100%Z (Some limit)) with limit.
  change (api_filename VUndef) with logFile. now rewrite Hdata.
Qed.

Lemma view_entries_typed t limit d data :
  t ∈ allowedTypes ->
  files d !! typeFile t = Some data ->
  view_entries (read_request (VStr t) (Some limit)) d
  = match map_outcome parse_entry
            (rev (slice_from (- limit)
                    (List.filter nonblank (split delimiter data)))) with
    | Return logs => logs
    | Throw _ => [VStr (lit "No logs found for this type")]
    end.
Proof.
  intros Hin Hdata. unfold view_entries, view_entries_with, readFile, read_request.
  cbn [query_type query_limit].
  change (default 50%Z (Some limit)) with limit.
  rewrite (allowed_truthy t Hin), (allowed_not_all t Hin). cbn [toString bind].
  change (t ++ lit "_logs.txt") with (typeFile t).
  now rewrite Hdata.
Qed.

Lemma map_outcome_map {A B C} (f : B -> outcome C) (g : A -> B) (h : A -> C) l :
  Forall (fun x => f (g x) = Return (h x)) l ->
  map_outcome f (List.map g l) = Return (List.map h l).
Proof.
  induction 1 as [|x l Hx _ IH]; [reflexivity|].
  cbn [map_outcome List.map]. now rewrite Hx, IH.
Qed.

(** C2, as the code has it.  After a run of successful appends of events
    of the three types, in any order, whatever the files held before,
    and for every positive limit:
    - when more than [limit] events were appended and no compact line
      holds a line break, the page lists the last [limit] compact lines,
      newest first, for no selector and for ['all'], and [GET /api/logs]
      returns the same lines in the order of the file, oldest first,
      with their count; a line is listed as the file holds it, a lone
      surrogate replaced by U+FFFD;
    - when more than [limit] of the events are of the type [t], their
      JSON texts do not hold the delimiter and their objects have
      distinct property names, the page of [t] lists the last [limit]
      events of that type, newest first, each parsed back from its
      record.
    The events are events that the embedding holds as JavaScript does
    ([modelled]). *)
Theorem last_entries_of_a_stream es d d' (limit : Z) :
  logged es d d' ->
  (0 < limit)%Z ->
  (forall e, e ∈ es -> ev_type e ∈ allowedTypes) ->
  (forall e, e ∈ es -> modelled (entry_of e) = true) ->
  (forall ls,
      (limit < Z.of_nat (length es))%Z ->
      Forall2 (fun e l => line_of e = Return l) es ls ->
      Forall (fun l => line_feed_free l = true) ls ->
      length (last_n (Z.to_nat limit) (List.map toWellFormed ls)) = Z.to_nat limit
      /\ view_entries (read_request VUndef (Some limit)) d'
         = List.map VStr (rev (last_n (Z.to_nat limit) (List.map toWellFormed ls)))
      /\ view_entries (read_request (VStr (lit "all")) (Some limit)) d'
         = List.map VStr (rev (last_n (Z.to_nat limit) (List.map toWellFormed ls)))
      /\ get_logs (read_request VUndef (Some limit)) d'
         = logs_reply (last_n (Z.to_nat limit) (List.map toWellFormed ls))
             (lit "app_logs.txt"))
  /\ (forall t,
        t ∈ allowedTypes ->
        (limit < Z.of_nat (length (of_type t es)))%Z ->
        Forall (fun e => occurs delimiter (ser 0 (entry_of e)) = false
                         /\ distinct_keys (entry_of e)) (of_type t es) ->
        length (last_n (Z.to_nat limit) (of_type t es)) = Z.to_nat limit
        /\ view_entries (read_request (VStr t) (Some limit)) d'
           = List.map (fun e => norm (entry_of e))
               (rev (last_n (Z.to_nat limit) (of_type t es)))).
Proof.
  intros Hlog Hpos Hallowed _.
  split.
  - intros ls Hlt Hls Hfree.
    destruct es as [|e es]; [cbn in Hlt; lia|].
    cbn [length] in Hlt.
    assert (Hty : forall x, x ∈ e :: es -> typeFile (ev_type x) <> logFile).
    { intros x Hx. apply typeFile_not_aggregate. now apply Hallowed. }
    assert (Hlen : length ls = S (length es))
      by (symmetry; apply (Forall2_length_eq _ _ _ Hls)).
    destruct (aggregate_read e es d d' ls limit Hlog Hty Hls Hfree Hpos ltac:(lia))
      as (data & Hdata & Hread).
    split; [apply last_n_length; rewrite length_map; lia|].
    rewrite !(view_entries_all _ limit d' data) by auto.
    rewrite (get_logs_aggregate limit d' data) by assumption.
    rewrite Hread. repeat split; reflexivity.
  - intros t Hin Hlt Hrec.
    pose proof (typeFile_not_aggregate t Hin) as Hne.
    destruct (of_type t es) as [|e est] eqn:Hof; [cbn in Hlt; lia|].
    cbn [length] in Hlt.
    destruct (typed_read t e est es d d' limit Hlog Hne Hof) as (data & Hdata & Hread);
      [apply Forall_cons in Hrec as [_ Hrec];
       eapply Forall_impl; [exact Hrec|]; intros x [Hx _]; exact Hx
      |assumption|lia|].
    split; [apply last_n_length; cbn [length]; lia|].
    rewrite (view_entries_typed t limit d' data) by assumption.
    rewrite Hread.
    rewrite last_n_map, <- map_rev.
    rewrite (map_outcome_map parse_entry _ (fun x => norm (entry_of x)));
      [reflexivity|].
    apply Forall_forall. intros x Hx.
    apply list_elem_of_In, in_rev, list_elem_of_In, last_n_sublist in Hx.
    apply (proj1 (Forall_forall _ _) Hrec) in Hx as [_ Hx].
    now apply parse_entry_record.
Qed.

Lemma three_errors_logged : logged three_errors empty_disk after_three_errors.
Proof.
  unfold three_errors, after_three_errors.
  eapply logged_cons; [vm_compute; reflexivity|].
  eapply logged_cons; [vm_compute; reflexivity|].
  eapply logged_cons; [vm_compute; reflexivity|].
  match goal with
  | |- logged [] ?a ?b => replace b with a by (vm_compute; reflexivity)
  end.
  constructor.
Qed.

Lemma mixed_events_logged : logged mixed_events empty_disk after_mixed_events.
Proof.
  unfold mixed_events, after_mixed_events.
  eapply logged_cons; [vm_compute; reflexivity|].
  eapply logged_cons; [vm_compute; reflexivity|].
  eapply logged_cons; [vm_compute; reflexivity|].
  eapply logged_cons; [vm_compute; reflexivity|].
  match goal with
  | |- logged [] ?a ?b => replace b with a by (vm_compute; reflexivity)
  end.
  constructor.
Qed.

Lemma last_entries_of_a_stream_witness :
  view_entries (read_request VUndef (Some 2%Z)) after_mixed_events
  = List.map VStr (rev (last_n (Z.to_nat 2) (List.map toWellFormed mixed_lines)))
  /\ view_entries (read_request (VStr (lit "all")) (Some 2%Z)) after_mixed_events
     = List.map VStr (rev (last_n (Z.to_nat 2) (List.map toWellFormed mixed_lines)))
  /\ get_logs (read_request VUndef (Some 2%Z)) after_mixed_events
     = logs_reply (last_n (Z.to_nat 2) (List.map toWellFormed mixed_lines))
         (lit "app_logs.txt")
  /\ view_entries (read_request (VStr (lit "error")) (Some 2%Z)) after_mixed_events
     = List.map (fun e => norm (entry_of e))
         (rev (last_n (Z.to_nat 2) (of_type (lit "error") mixed_events))).
Proof.
  destruct (last_entries_of_a_stream mixed_events empty_disk after_mixed_events 2%Z)
    as [HA HB].
  - exact mixed_events_logged.
  - reflexivity.
  - intros e He. unfold mixed_events in He.
    repeat (apply elem_of_cons in He as [-> | He];
            [apply (bool_decide_unpack _); vm_compute; reflexivity|]).
    now apply elem_of_nil in He.
  - intros e He. unfold mixed_events in He.
    repeat (apply elem_of_cons in He as [-> | He]; [vm_compute; reflexivity|]).
    now apply elem_of_nil in He.
  - destruct (HA mixed_lines) as (_ & H1 & H2 & H3).
    + reflexivity.
    + repeat constructor.
    + repeat constructor.
    + destruct (HB (lit "error")) as [_ H4].
      * apply (bool_decide_unpack _). vm_compute. reflexivity.
      * reflexivity.
      * repeat constructor; try (vm_compute; reflexivity);
          apply (bool_decide_unpack _); vm_compute; reflexivity.
      * exact (conj H1 (conj H2 (conj H3 H4))).
Defined.

(** The entries of the sample: the last two lines, the newest first, with
    the lone surrogate of the last title replaced; the last two errors. *)
Example mixed_events_read :
  view_entries (read_request VUndef (Some 2%Z)) after_mixed_events
  = [VStr (lit "[2024-01-01T12:00:03.000Z] [ERROR] third " ++ [65533%N]);
     VStr (lit "[2024-01-01T12:00:02.000Z] [ERROR] second - npe")]
  /\ List.map (fun v => get_prop (lit "title") v)
       (view_entries (read_request (VStr (lit "error")) (Some 2%Z)) after_mixed_events)
     = [Return (VStr (lit "third " ++ [55357%N])); Return (VStr (lit "second"))].
Proof. vm_compute. split; reflexivity. Qed.

(** C2 as stated fails for [GET /api/logs]: with three appends and a limit
    of two, its entries are the last two lines in the order of the file,
    not newest first. *)
Lemma api_read_is_oldest_first :
  response_logs (get_logs (read_request VUndef (Some 2%Z)) after_three_errors)
  <> VArr (List.map VStr (rev (last_n 2 three_lines))).
Proof. vm_compute. discriminate. Qed.

(** ** Entries of a typed stream that are no JSON text *)

Lemma parse_entry_recovered {V} (inj : str -> V) (parse : str -> outcome V) entry :
  exists v, parse_entry_with inj parse entry = Return v /\ recovered inj parse entry v.
Proof.
  unfold parse_entry_with, recovered. rewrite json_pattern_span.
  destruct (brace_span entry) as [text|]; cbn [try_catch].
  - cbn [group lookup list_lookup str_of].
    destruct (parse text) as [v|e]; cbn [try_catch]; eauto.
  - eauto.
Qed.

Lemma map_parse_entry_returns {V} (inj : str -> V) (parse : str -> outcome V) entries :
  exists logs,
    map_outcome (parse_entry_with inj parse) entries = Return logs
    /\ Forall2 (recovered inj parse) entries logs.
Proof.
  induction entries as [|entry entries (logs & IH & Hall)].
  - exists []. split; [reflexivity|constructor].
  - destruct (parse_entry_recovered inj parse entry) as (v & Hv & Hr).
    exists (v :: logs). cbn [map_outcome]. rewrite Hv, IH. cbn [bind].
    split; [reflexivity|now constructor].
Qed.

(** C7: a read of the stream of one of the three types, when its file is
    there, throws nothing and has one entry for each non-blank record it
    keeps (the last [limit] pieces between delimiters, newest first),
    whatever the file holds and whatever [JSON.parse] returns or throws:
    the entry of a record is what the parser returns for the text from
    the first opening brace of the record to its last closing brace or,
    when there is no such text or the parser throws on it, the trimmed
    text of the record. *)
Theorem parse_fallback_never_fails {V} (inj : str -> V) (parse : str -> outcome V)
    t limit data d :
  t ∈ allowedTypes ->
  files d !! typeFile t = Some data ->
  exists logs,
    view_entries_with inj parse (read_request (VStr t) limit) d = logs
    /\ map_outcome (parse_entry_with inj parse)
         (rev (slice_from (- default 50%Z limit)
                 (List.filter nonblank (split delimiter data))))
       = Return logs
    /\ Forall2 (recovered inj parse)
         (rev (slice_from (- default 50%Z limit)
                 (List.filter nonblank (split delimiter data))))
         logs.
Proof.
  intros Hin Hdata.
  destruct (map_parse_entry_returns inj parse
              (rev (slice_from (- default 50%Z limit)
                      (List.filter nonblank (split delimiter data)))))
    as (logs & Hlogs & Hrec).
  exists logs. split; [|split; assumption].
  unfold view_entries_with, readFile, read_request. cbn [query_type query_limit].
  rewrite (allowed_truthy t Hin), (allowed_not_all t Hin). cbn [toString bind].
  change (t ++ lit "_logs.txt") with (typeFile t).
  rewrite Hdata. cbn [bind]. now rewrite Hlogs.
Qed.

Lemma parse_fallback_never_fails_witness :
  exists logs,
    view_entries (read_request (VStr (lit "error")) (Some 10%Z)) garbled_stream = logs
    /\ map_outcome parse_entry
         (rev (slice_from (- default 50%Z (Some 10%Z))
                 (List.filter nonblank
                    (split delimiter (content garbled_stream (lit "error_logs.txt"))))))
       = Return logs
    /\ Forall2 (recovered VStr JSON_parse)
         (rev (slice_from (- default 50%Z (Some 10%Z))
                 (List.filter nonblank
                    (split delimiter (content garbled_stream (lit "error_logs.txt"))))))
         logs.
Proof.
  apply (parse_fallback_never_fails VStr JSON_parse (lit "error") (Some 10%Z)).
  - apply (bool_decide_unpack _). vm_compute. reflexivity.
  - vm_compute. reflexivity.
Defined.

(** The entries of the sample: the well-formed record is parsed, the two
    others are returned as their trimmed text. *)
Example garbled_stream_read :
  view_entries (read_request (VStr (lit "error")) (Some 10%Z)) garbled_stream
  = [VObj [(lit "title", VStr (lit "Crash"))];
     VStr (lit "plain text"); VStr (lit "{not json}")].
Proof. vm_compute. reflexivity. Qed.

(** ** The compact lines on the page *)

(** The pattern of line 553 starts with a literal backslash: it matches
    nowhere in a string that holds none. *)
Lemma line_pattern_needs_backslash s :
  backslash ∉ s -> str_match line_pattern 2 s = None.
Proof.
  induction s as [|c s IH]; intros H; [reflexivity|].
  cbn [str_match]. unfold line_pattern at 1, seq_re. cbn [fold_right mt].
  assert (Hc : is_char backslash c = false).
  { apply N.eqb_neq. intros ->. apply H. left. }
  rewrite Hc. apply IH. intros Hin. apply H. now right.
Qed.

(** A string without a backslash is rendered as an opaque entry. *)
Lemma render_without_backslash s :
  backslash ∉ s -> render_log (VStr s) = Return (PlainEntry s).
Proof. intros H. cbn [render_log]. now rewrite line_pattern_needs_backslash. Qed.

(** C8 at a line that [Logger.log] writes: the page renders the compact
    line of an error titled second with the description npe as an opaque
    entry, without fields, because the pattern of line 553 does not match
    it; the pattern with single backslashes, which the specification
    describes, does match it and captures timestamp, type, title and
    description. *)
Theorem compact_line_is_rendered_opaque :
  let line := lit "[2024-01-01T12:00:01.000Z] [ERROR] second - npe" in
  line_of (Event (lit "2024-01-01T12:00:01.000Z") (lit "error")
             (VStr (lit "second")) (VStr (lit "npe")) (VObj []))
  = Return line
  /\ str_match line_pattern 2 line = None
  /\ render_log (VStr line) = Return (PlainEntry line)
  /\ str_match spec_line_pattern 4 line
     = Some [Some line; Some (lit "2024-01-01T12:00:01.000Z"); Some (lit "ERROR");
             Some (lit "second"); Some (lit "npe")].
Proof. vm_compute. repeat split; reflexivity. Qed.

(** The same on the page as a whole: every entry of the aggregate stream
    is opaque. *)
Example aggregate_page_is_opaque :
  view_logs (read_request VUndef None) after_three_errors
  = Html 200 (Entries (List.map PlainEntry (rev three_lines))).
Proof. vm_compute. reflexivity. Qed.

(** A line that the pattern does match has a backslash in its title; its
    third group does not exist, and the page fails on it. *)
Example line_with_backslashes_fails :
  render_log (VStr (lit "[t] [LOG] see \( \) here")) = Throw TypeError.
Proof. vm_compute. reflexivity. Qed.

(** ** A title that holds the delimiter *)

(** C1 at a failing input: the submission whose title is fifty equals
    signs is accepted and appended to both files, and the read of its
    type has two entries, both raw text, neither of them the event. *)
Theorem delimiter_in_title_breaks_the_record :
  let result := post_log delimiter_request noon just_after_noon empty_disk in
  let entry := submitted_entry [(lit "type", VStr (lit "error"));
                                (lit "title", VStr delimiter)]
                 (VStr (lit "okhttp/4.9.2")) (VStr (lit "::1")) noon in
  let logs := view_entries (read_request (VStr (lit "error")) (Some 100%Z))
                (snd result) in
  (exists b, fst result = Json 200 b)
  /\ files (snd result) !! lit "app_logs.txt"
     = Some (lit "[2024-01-01T12:00:00.000Z] [ERROR] " ++ delimiter ++ newline)
  /\ files (snd result) !! lit "error_logs.txt" = Some (record_text entry)
  /\ length logs = 2
  /\ Forall (fun v => exists text, v = VStr text) logs
  /\ norm entry ∉ logs.
Proof.
  vm_compute. repeat split.
  - eexists. reflexivity.
  - repeat constructor; eexists; reflexivity.
  - intros H. apply list_elem_of_In in H. cbn in H.
    repeat (destruct H as [H|H]; [discriminate|]). exact H.
Qed.

(** ** Streams that hold whole entries *)

Lemma closed_by_append terminator s a :
  closed_by terminator (s ++ a ++ terminator).
Proof. right. exists (s ++ a). now rewrite <- app_assoc. Qed.

Lemma tidy_empty : tidy empty_disk.
Proof. split; [now left|]. intros t _. now left. Qed.

Lemma content_appended d name data f :
  content (appended d name data) f
  = if decide (f = name) then content d name ++ data else content d f.
Proof.
  case_decide as E.
  - subst. apply appended_content_eq.
  - now apply appended_content_ne.
Qed.

Lemma tidy_after_line d l :
  tidy d -> tidy (appended d logFile (l ++ newline)).
Proof.
  intros [Ha Ht]. split.
  - rewrite appended_content_eq. apply closed_by_append.
  - intros t Hin. rewrite appended_content_ne; [now apply Ht|].
    now apply typeFile_not_aggregate.
Qed.

Lemma tidy_after_record d t entry :
  t ∈ allowedTypes -> tidy d -> tidy (appended d (typeFile t) (record_text entry)).
Proof.
  intros Hin [Ha Ht]. split.
  - rewrite appended_content_ne; [assumption|].
    intros E. symmetry in E. now apply typeFile_not_aggregate in E.
  - intros t' Hin'. rewrite content_appended. case_decide as E; [|now apply Ht].
    unfold record_text. apply closed_by_append.
Qed.

Lemma tidy_after_write d name :
  tidy d -> tidy (Disk (<[name := []]> (files d)) (readonly d)).
Proof.
  intros [Ha Ht].
  assert (Hc : forall f,
            content (Disk (<[name := []]> (files d)) (readonly d)) f
            = if decide (f = name) then [] else content d f).
  { intros f. unfold content. cbn [files]. rewrite lookup_insert.
    destruct (decide (name = f)), (decide (f = name)); congruence || reflexivity. }
  split.
  - rewrite Hc. case_decide; [now left|assumption].
  - intros t Hin. rewrite Hc. case_decide; [now left|now apply Ht].
Qed.

Lemma tidy_after_clear names : forall d, tidy d -> tidy (clear_files names d).
Proof.
  induction names as [|n names IH]; intros d Hd; [assumption|].
  cbn [clear_files fold_left]. unfold clear_files in IH. apply IH.
  unfold writeFile. destruct (decide (n ∈ readonly d)); [assumption|].
  now apply tidy_after_write.
Qed.

(** Whatever [Logger.log] returns or throws for an event of one of the
    three types, the files still hold whole entries. *)
Lemma tidy_after_log ts t title description metadata d r :
  t ∈ allowedTypes -> tidy d ->
  Logger_log ts t title description metadata d = Return r -> tidy (snd r).
Proof.
  intros Hin Hd. unfold Logger_log, logLine.
  destruct (compact_line _ _ _ _) as [l|]; cbn [bind]; [|discriminate].
  rewrite detailedLog_entry. cbn [bind].
  destruct (appendFile d logFile (l ++ newline)) as [dk|] eqn:H1.
  - apply appendFile_inv in H1 as [_ ->]. rewrite toWellFormed_line.
    destruct (appendFile _ (typeFile t) _) as [dk'|] eqn:H2.
    + apply appendFile_inv in H2 as [_ ->]. rewrite toWellFormed_record.
      intros [= <-]. cbn [snd].
      now apply tidy_after_record, tidy_after_line.
    + intros [= <-]. now apply tidy_after_line.
  - intros [= <-]. assumption.
Qed.

(** The handlers that write keep the files tidy. *)
Lemma tidy_after_post_log req now later d :
  tidy d -> tidy (snd (post_log req now later d)).
Proof.
  intros Hd. unfold post_log.
  destruct (get_prop (lit "type") (body req)) as [type|]; cbn [bind]; [|assumption].
  destruct (get_prop (lit "title") (body req)) as [title|]; cbn [bind]; [|assumption].
  destruct (get_prop (lit "description") (body req)) as [description|];
    cbn [bind]; [|assumption].
  destruct (get_prop (lit "metadata") (body req)) as [metadata|];
    cbn [bind]; [|assumption].
  destruct (negb (truthy type) || negb (truthy title)); [assumption|].
  destruct (includes allowedTypes type) eqn:Hi; cbn [negb]; [|assumption].
  destruct (Logger_log now (str_of type) title _ _ d) as [r|] eqn:HL;
    cbn [bind]; [|assumption].
  assert (Hin : str_of type ∈ allowedTypes).
  { apply includes_allowed in Hi as [-> | [-> | ->]];
      apply (bool_decide_unpack _); vm_compute; reflexivity. }
  pose proof (tidy_after_log _ _ _ _ _ _ _ Hin Hd HL).
  now destruct (fst r).
Qed.

Lemma tidy_after_delete_logs req d : tidy d -> tidy (snd (delete_logs req d)).
Proof.
  intros Hd. unfold delete_logs.
  destruct (truthy (query_type req) && includes allowedTypes (query_type req)).
  - unfold writeFile. destruct (decide (_ ∈ readonly d)); [assumption|].
    now apply tidy_after_write.
  - now apply tidy_after_clear.
Qed.

(** ** The newest entry of a tidy stream *)

Lemma split_single_app c X Y :
  split [c] (X ++ c :: Y) = split [c] X ++ split [c] Y.
Proof.
  unfold split. induction X as [|x X IH]; cbn [app split_go is_prefix length].
  - rewrite N.eqb_refl. cbn [andb Nat.sub].
    now destruct (split_go [c] 0 Y).
  - destruct (c =? x)%N; cbn [andb Nat.sub].
    + destruct (split_go [c] 0 (X ++ c :: Y)) as [p ps],
               (split_go [c] 0 X) as [p0 ps0], (split_go [c] 0 Y) as [q qs].
      cbn [app] in *. now rewrite IH.
    + destruct (split_go [c] 0 (X ++ c :: Y)) as [p ps],
               (split_go [c] 0 X) as [p0 ps0], (split_go [c] 0 Y) as [q qs].
      cbn [app] in *. now injection IH as -> ->.
Qed.

Lemma aggregate_tail pre l :
  closed_by newline pre -> line_feed_free l = true ->
  exists F, split newline (pre ++ l ++ newline) = F ++ [l; []].
Proof.
  intros Hpre Hl.
  assert (Hline : split newline (l ++ newline) = [l; []]).
  { rewrite <- (app_nil_r (l ++ newline)), <- app_assoc.
    rewrite split_free; [reflexivity|discriminate|now apply free_line_feed]. }
  destruct Hpre as [-> | [X ->]].
  - exists []. exact Hline.
  - exists (split newline X).
    pose proof (split_single_app 10%N X (l ++ newline)) as Hs.
    change [10%N] with newline in Hs.
    replace ((X ++ newline) ++ l ++ newline) with (X ++ 10%N :: l ++ newline)
      by (unfold newline; now rewrite <- app_assoc).
    now rewrite Hs, Hline.
Qed.

Lemma delimiter_no_line_feed : 10%N ∉ delimiter.
Proof.
  intros H. apply list_elem_of_In in H. vm_compute in H.
  repeat (destruct H as [H|H]; [discriminate|]). exact H.
Qed.

Lemma typed_tail pre J :
  closed_by (newline ++ delimiter ++ newline) pre ->
  occurs delimiter J = false ->
  exists F before,
    (before = [] \/ before = newline)
    /\ split delimiter (pre ++ J ++ newline ++ delimiter ++ newline)
       = F ++ [before ++ J ++ newline; newline].
Proof.
  intros Hpre HJ. destruct Hpre as [-> | [X ->]].
  - exists [], []. split; [now left|]. cbn [app].
    rewrite (app_assoc J newline).
    rewrite split_free; [reflexivity|discriminate|].
    apply free_before; [apply delimiter_no_line_feed|discriminate|assumption].
  - destruct (split_boundary 10%N delimiter X
                (newline ++ concat (List.map (fun x => x ++ newline ++ delimiter ++ newline) [J]))
                delimiter_no_line_feed ltac:(discriminate)) as [P HP].
    exists P, newline. split; [now right|].
    rewrite split_records in HP by (repeat constructor; assumption).
    cbn [List.map app] in HP. rewrite <- HP. f_equal.
    cbn [List.map concat]. rewrite <- !app_assoc. cbn [app].
    now rewrite app_nil_r.
Qed.

Lemma slice_keeps_last {A} (limit : Z) (F : list A) x :
  (0 < limit)%Z -> exists F', slice_from (- limit) (F ++ [x]) = F' ++ [x].
Proof.
  intros Hpos. unfold slice_from.
  destruct (- limit <? 0)%Z eqn:E; [|apply Z.ltb_ge in E; lia].
  rewrite length_app. cbn [length].
  eexists. rewrite drop_app_le by lia. reflexivity.
Qed.

Lemma newest_of_tail F x b (limit : Z) :
  nonblank x = true -> nonblank b = false -> (0 < limit)%Z ->
  exists rest,
    rev (slice_from (- limit) (List.filter nonblank (F ++ [x; b]))) = x :: rest.
Proof.
  intros Hx Hb Hpos.
  change (F ++ [x; b]) with (F ++ [x] ++ [b]).
  rewrite filter_nonblank_tail by (repeat constructor; assumption).
  destruct (slice_keeps_last limit (List.filter nonblank F) x Hpos) as [F' ->].
  rewrite rev_app_distr. cbn [rev app]. eauto.
Qed.

Lemma parse_entry_record_after before props :
  before = [] \/ before = newline ->
  distinct_keys (VObj props) ->
  parse_entry (before ++ ser 0 (VObj props) ++ newline) = Return (norm (VObj props)).
Proof.
  intros Hb Hd. unfold parse_entry, parse_entry_with.
  destruct (ser_object_shape 0 props) as [mid E].
  pose proof (json_pattern_match before mid newline) as Hm.
  rewrite E.
  replace ((123%N :: mid ++ [125%N]) ++ newline)
    with (123%N :: mid ++ 125%N :: newline)
    by (cbn [app]; now rewrite <- app_assoc).
  rewrite Hm.
  - cbn [group lookup list_lookup str_of]. rewrite <- E.
    now rewrite JSON_parse_ser.
  - destruct Hb as [-> | ->]; [apply not_elem_of_nil|].
    intros H. apply list_elem_of_singleton in H. discriminate.
  - intros H. apply list_elem_of_singleton in H. discriminate.
Qed.

Lemma record_nonblank_after before props :
  nonblank (before ++ ser 0 (VObj props) ++ newline) = true.
Proof.
  destruct (ser_object_shape 0 props) as [mid ->].
  apply (nonblank_has 123%N); [|reflexivity].
  apply elem_of_app. right. left.
Qed.

(** On tidy files, the event of a successful [Logger.log] is the newest
    entry of both streams: its compact line, when that holds no line
    break, heads the aggregate entries of the page and ends the lines of
    [GET /api/logs], as the file holds it; the event itself, when its
    JSON text does not hold the delimiter, heads the entries of its
    type.  The event is one that the embedding holds as JavaScript does
    ([modelled]). *)
Theorem logged_event_is_newest e d d' l (limit : Z) :
  tidy d -> ev_type e ∈ allowedTypes ->
  modelled (entry_of e) = true ->
  log_event e d = Return (true, d') ->
  line_of e = Return l ->
  (0 < limit)%Z ->
  (line_feed_free l = true ->
   (exists rest, view_entries (read_request VUndef (Some limit)) d'
                 = VStr (toWellFormed l) :: rest)
   /\ (exists rest, get_logs (read_request VUndef (Some limit)) d'
                    = logs_reply (rest ++ [toWellFormed l]) (lit "app_logs.txt")))
  /\ (occurs delimiter (ser 0 (entry_of e)) = false ->
      distinct_keys (entry_of e) ->
      exists rest,
        view_entries (read_request (VStr (ev_type e)) (Some limit)) d'
        = norm (entry_of e) :: rest).
Proof.
  intros [Hagg Htyped] Hin _ Hlog Hl Hpos.
  apply log_event_true in Hlog as (l' & Hl' & ->).
  assert (l' = l) as -> by congruence.
  pose proof (typeFile_not_aggregate _ Hin) as Hne.
  pose proof (stored_line_nonblank _ _ Hl) as Hnb.
  split.
  - intros Hfree. rewrite <- line_feed_free_stored in Hfree.
    destruct (aggregate_tail (content d logFile) _ Hagg Hfree) as [F HF].
    assert (Hdata : files (appended (appended d logFile (toWellFormed l ++ newline))
                             (typeFile (ev_type e)) (record_text (entry_of e)))
                    !! logFile = Some (content d logFile ++ toWellFormed l ++ newline)).
    { rewrite appended_lookup_ne by (intros E; symmetry in E; exact (Hne E)).
      apply appended_lookup_eq. }
    split.
    + rewrite (view_entries_all _ limit _ _ (or_introl eq_refl) Hdata), HF.
      destruct (newest_of_tail F (toWellFormed l) [] limit) as [rest ->];
        [assumption|reflexivity|assumption|].
      cbn [List.map]. eauto.
    + rewrite (get_logs_aggregate limit _ _ Hdata), HF.
      change (F ++ [toWellFormed l; []]) with (F ++ [toWellFormed l] ++ [[]]).
      rewrite filter_nonblank_tail;
        [|repeat constructor; assumption|reflexivity].
      destruct (slice_keeps_last limit (List.filter nonblank F) (toWellFormed l) Hpos)
        as [F' ->].
      eauto.
  - intros Hocc Hd.
    destruct (typed_tail (content d (typeFile (ev_type e))) (ser 0 (entry_of e))
                (Htyped _ Hin) Hocc) as (F & before & Hb & HF).
    assert (Hdata : files (appended (appended d logFile (toWellFormed l ++ newline))
                             (typeFile (ev_type e)) (record_text (entry_of e)))
                    !! typeFile (ev_type e)
                    = Some (content d (typeFile (ev_type e)) ++ record_text (entry_of e))).
    { rewrite appended_lookup_eq. now rewrite appended_content_ne. }
    rewrite (view_entries_typed _ limit _ _ Hin Hdata).
    unfold record_text. rewrite HF.
    destruct (newest_of_tail F (before ++ ser 0 (entry_of e) ++ newline) newline limit)
      as [rest ->]; [apply record_nonblank_after|reflexivity|assumption|].
    cbn [map_outcome].
    pose proof (parse_entry_record_after before _ Hb Hd) as Hp.
    unfold entry_of, logEntry in *. rewrite Hp. cbn [bind].
    destruct (map_parse_entry_returns VStr JSON_parse rest) as (logs & Hlogs & _).
    fold parse_entry in Hlogs. rewrite Hlogs. cbn [bind]. eauto.
Qed.

(** ** Submissions that cannot be stored *)

Lemma post_log_valid props ua addr qt ql now later d type :
  obj_get (lit "type") props = VStr type -> type ∈ allowedTypes ->
  truthy (obj_get (lit "title") props) = true ->
  post_log (Request (VObj props) ua addr qt ql) now later d
  = match Logger_log now type (obj_get (lit "title") props)
            (or_default (VStr []) (obj_get (lit "description") props))
            (request_metadata (or_default (VObj []) (obj_get (lit "metadata") props))
               ua addr) d with
    | Return r =>
        if fst r then
          (Json 200 (VObj [(lit "success", VBool true);
                           (lit "message", VStr (lit "Log entry created successfully"));
                           (lit "timestamp", VStr later)]), snd r)
        else (failure 500 (lit "Failed to write log entry"), snd r)
    | Throw _ => (failure 500 (lit "Internal server error"), d)
    end.
Proof.
  intros Htype Hin Htitle. unfold post_log.
  cbn [body user_agent ip get_prop bind]. rewrite Htype, Htitle.
  rewrite (allowed_truthy _ Hin), (allowed_includes _ Hin). cbn [negb orb str_of].
  destruct (Logger_log now type _ _ _ d) as [r|]; cbn [bind]; [|reflexivity].
  now destruct (fst r).
Qed.

Lemma appendFile_refused d name data :
  name ∈ readonly d -> appendFile d name data = Throw EACCES.
Proof. intros H. unfold appendFile. now destruct (decide (name ∈ readonly d)). Qed.

Lemma Logger_log_line ts type title description metadata d l :
  compact_line ts type title (or_default (VStr []) description) = Return l ->
  Logger_log ts type title description metadata d
  = match appendFile d logFile (l ++ newline) with
    | Throw _ => Return (false, d)
    | Return dk =>
        match appendFile dk (typeFile type)
                (record_text (logEntry ts type title
                                (or_default (VStr []) description)
                                (or_default (VObj []) metadata))) with
        | Throw _ => Return (false, dk)
        | Return dk' => Return (true, dk')
        end
    end.
Proof.
  intros Hl. unfold Logger_log, logLine. rewrite Hl. cbn [bind].
  rewrite detailedLog_entry. reflexivity.
Qed.

(** X1: a submission that passes validation, whose title and description
    can be printed and whose body the embedding holds as JavaScript does
    ([modelled]), while one of its two files cannot be written, is
    answered with the status 500 and the message Failed to write log
    entry; nothing is rolled back: when it is the file of the type that
    cannot be written, the compact line has been appended to the
    aggregate file, as UTF-8 stores it, and stays there. *)
Theorem unwritable_file_fails_the_submission props ua addr qt ql now later d type l :
  obj_get (lit "type") props = VStr type -> type ∈ allowedTypes ->
  truthy (obj_get (lit "title") props) = true ->
  compact_line now type (obj_get (lit "title") props)
    (or_default (VStr []) (obj_get (lit "description") props)) = Return l ->
  modelled (VObj props) = true ->
  logFile ∈ readonly d \/ typeFile type ∈ readonly d ->
  post_log (Request (VObj props) ua addr qt ql) now later d
  = (failure 500 (lit "Failed to write log entry"),
     if decide (logFile ∈ readonly d) then d
     else appended d logFile (toWellFormed l ++ newline)).
Proof.
  intros Htype Hin Htitle Hl _ Hro.
  rewrite (post_log_valid _ _ _ _ _ _ _ _ _ Htype Hin Htitle).
  rewrite (Logger_log_line _ _ _ _ _ _ l)
    by (rewrite or_default_idem by discriminate; exact Hl).
  destruct (decide (logFile ∈ readonly d)) as [H1|H1].
  - now rewrite appendFile_refused.
  - destruct Hro as [H|H]; [contradiction|].
    rewrite appendFile_appended by assumption.
    rewrite appendFile_refused by assumption.
    now rewrite toWellFormed_line.
Qed.

Lemma unwritable_file_fails_the_submission_witness :
  post_log crash_request noon just_after_noon locked_errors
  = (failure 500 (lit "Failed to write log entry"),
     appended locked_errors logFile
       (toWellFormed (lit "[2024-01-01T12:00:00.000Z] [ERROR] Crash - npe")
        ++ newline)).
Proof.
  apply (unwritable_file_fails_the_submission crash_body _ _ VUndef None noon
           just_after_noon locked_errors (lit "error")
           (lit "[2024-01-01T12:00:00.000Z] [ERROR] Crash - npe")).
  - reflexivity.
  - apply (bool_decide_unpack _); vm_compute; reflexivity.
  - reflexivity.
  - reflexivity.
  - reflexivity.
  - right. apply (bool_decide_unpack _); vm_compute; reflexivity.
Defined.

(** X2: a submission that the embedding holds as JavaScript does
    ([modelled]) is answered with the status 200 and the instant of the
    reply exactly when its type is one of the three, its title is truthy,
    its title and description can be printed and its two files can be
    written; it has then appended its compact line to the aggregate file,
    a lone surrogate replaced by U+FFFD as UTF-8 stores it, and its
    record to the file of its type, and nothing else. *)
Theorem valid_submission_is_stored props ua addr qt ql now later d d' :
  modelled (submitted_entry props ua addr now) = true ->
  post_log (Request (VObj props) ua addr qt ql) now later d = (created later, d')
  <-> exists type l,
        obj_get (lit "type") props = VStr type /\ type ∈ allowedTypes
        /\ truthy (obj_get (lit "title") props) = true
        /\ compact_line now type (obj_get (lit "title") props)
             (or_default (VStr []) (obj_get (lit "description") props)) = Return l
        /\ (logFile ∉ readonly d) /\ (typeFile type ∉ readonly d)
        /\ d' = appended (appended d logFile (toWellFormed l ++ newline))
                  (typeFile type)
                  (record_text (submitted_entry props ua addr now)).
Proof.
  intros _. split.
  - intros H. apply post_log_accepted in H
      as (type & l & Htype & Hin & Htitle & Hl & H1 & H2 & ->).
    exists type, l. auto 10.
  - intros (type & l & Htype & Hin & Htitle & Hl & H1 & H2 & ->).
    rewrite (post_log_valid _ _ _ _ _ _ _ _ _ Htype Hin Htitle).
    rewrite (Logger_log_ok _ _ _ _ _ _ l)
      by (try assumption; rewrite or_default_idem by discriminate; exact Hl).
    cbn [fst snd].
    unfold created, submitted_entry. rewrite Htype. cbn [str_of].
    rewrite !or_default_idem by discriminate. reflexivity.
Qed.

Lemma valid_submission_is_stored_witness :
  post_log crash_request noon just_after_noon empty_disk
  = (created just_after_noon,
     appended (appended empty_disk logFile
                 (toWellFormed (lit "[2024-01-01T12:00:00.000Z] [ERROR] Crash - npe")
                  ++ newline))
       (typeFile (lit "error"))
       (record_text (submitted_entry crash_body (VStr (lit "okhttp/4.9.2"))
                       (VStr (lit "::1")) noon))).
Proof.
  apply (valid_submission_is_stored crash_body (VStr (lit "okhttp/4.9.2"))
           (VStr (lit "::1")) VUndef None noon just_after_noon empty_disk).
  - reflexivity.
  - exists (lit "error"), (lit "[2024-01-01T12:00:00.000Z] [ERROR] Crash - npe").
    repeat split; try reflexivity;
      apply (bool_decide_unpack _); vm_compute; reflexivity.
Defined.

(** A title that ends with half of a surrogate pair: the line in the
    file ends with U+FFFD, the record holds the escape of the half. *)
Example lone_surrogate_is_replaced :
  let body := [(lit "type", VStr (lit "log")); (lit "title", VStr [55357%N])] in
  let d' := snd (post_log (Request (VObj body) VUndef VUndef VUndef None)
                   noon just_after_noon empty_disk) in
  files d' !! lit "app_logs.txt"
  = Some (lit "[2024-01-01T12:00:00.000Z] [LOG] " ++ [65533%N] ++ newline)
  /\ view_entries (read_request (VStr (lit "log")) None) d'
     = [VObj [(lit "timestamp", VStr noon); (lit "type", VStr (lit "log"));
              (lit "title", VStr [55357%N]); (lit "description", VStr []);
              (lit "metadata",
               VObj [(lit "source", VStr (lit "react-native-app"))])]].
Proof. vm_compute. split; reflexivity. Qed.

(** X3: a submission that passes validation but whose title or
    description cannot be printed into the compact line (an object that
    has a property named [toString]) leaves [Logger.log] with an
    exception before anything is written: the reply is the status 500
    with the message Internal server error, and the files are as they
    were. *)
Theorem unprintable_field_is_an_internal_error
    props ua addr qt ql now later d type e :
  obj_get (lit "type") props = VStr type -> type ∈ allowedTypes ->
  truthy (obj_get (lit "title") props) = true ->
  compact_line now type (obj_get (lit "title") props)
    (or_default (VStr []) (obj_get (lit "description") props)) = Throw e ->
  post_log (Request (VObj props) ua addr qt ql) now later d
  = (failure 500 (lit "Internal server error"), d).
Proof.
  intros Htype Hin Htitle Hl.
  rewrite (post_log_valid _ _ _ _ _ _ _ _ _ Htype Hin Htitle).
  unfold Logger_log, logLine. rewrite or_default_idem by discriminate.
  rewrite Hl. reflexivity.
Qed.

Lemma unprintable_field_is_an_internal_error_witness :
  post_log unprintable_request noon just_after_noon two_streams
  = (failure 500 (lit "Internal server error"), two_streams).
Proof.
  apply (unprintable_field_is_an_internal_error
           [(lit "type", VStr (lit "log"));
            (lit "title", VObj [(lit "toString", VNum 1)])]
           _ _ VUndef None noon just_after_noon two_streams (lit "log") TypeError).
  - reflexivity.
  - apply (bool_decide_unpack _); vm_compute; reflexivity.
  - reflexivity.
  - reflexivity.
Defined.

(** ** What the writing handlers leave alone *)

(** The three ways a call of [Logger.log] that returns leaves the disk. *)
Lemma Logger_log_cases ts type title description metadata d r :
  Logger_log ts type title description metadata d = Return r ->
  snd r = d
  \/ exists l,
       (logFile ∉ readonly d)
       /\ (snd r = appended d logFile (l ++ newline)
           \/ exists entry,
                (typeFile type ∉ readonly d)
                /\ snd r = appended (appended d logFile (l ++ newline))
                             (typeFile type) (record_text entry)).
Proof.
  unfold Logger_log, logLine.
  destruct (compact_line _ _ _ _) as [l|]; cbn [bind]; [|discriminate].
  rewrite detailedLog_entry. cbn [bind].
  destruct (appendFile d logFile (l ++ newline)) as [dk|] eqn:H1.
  - apply appendFile_inv in H1 as [Hw1 ->]. rewrite toWellFormed_line.
    destruct (appendFile _ (typeFile type) _) as [dk'|] eqn:H2.
    + apply appendFile_inv in H2 as [Hw2 ->]. rewrite toWellFormed_record.
      intros [= <-]. cbn [snd].
      right. exists (toWellFormed l). split; [assumption|]. right. eexists.
      split; [exact Hw2|reflexivity].
    + intros [= <-]. right. exists (toWellFormed l). split; [assumption|].
      now left.
  - intros [= <-]. now left.
Qed.

(** The three ways a submission leaves the disk. *)
Lemma post_log_cases req now later d :
  snd (post_log req now later d) = d
  \/ exists type l,
       type ∈ allowedTypes /\ (logFile ∉ readonly d)
       /\ (snd (post_log req now later d) = appended d logFile (l ++ newline)
           \/ exists entry,
                (typeFile type ∉ readonly d)
                /\ snd (post_log req now later d)
                   = appended (appended d logFile (l ++ newline)) (typeFile type)
                       (record_text entry)).
Proof.
  unfold post_log.
  destruct (get_prop (lit "type") (body req)) as [type|]; cbn [bind]; [|now left].
  destruct (get_prop (lit "title") (body req)) as [title|]; cbn [bind]; [|now left].
  destruct (get_prop (lit "description") (body req)) as [description|];
    cbn [bind]; [|now left].
  destruct (get_prop (lit "metadata") (body req)) as [metadata|];
    cbn [bind]; [|now left].
  destruct (negb (truthy type) || negb (truthy title)); [now left|].
  destruct (includes allowedTypes type) eqn:Hi; cbn [negb]; [|now left].
  assert (Hin : str_of type ∈ allowedTypes).
  { apply includes_allowed in Hi as [-> | [-> | ->]];
      apply (bool_decide_unpack _); vm_compute; reflexivity. }
  destruct (Logger_log now (str_of type) title _ _ d) as [r|] eqn:HL;
    cbn [bind]; [|now left].
  apply Logger_log_cases in HL.
  destruct (fst r); cbn [snd] in *;
    (destruct HL as [HL | (l & Hw1 & HL)]; [now left|];
     right; exists (str_of type), l; auto).
Qed.

Lemma appended_readonly d name data : readonly (appended d name data) = readonly d.
Proof. reflexivity. Qed.

(** X4: a submission only appends.  Whatever the request, the clock and
    the disk, every file holds after [POST /api/log] what it held before,
    followed by what was appended, the files other than the aggregate
    file and the files of the three types are untouched, and so are the
    permissions. *)
Theorem submission_only_appends req now later d f :
  (exists suffix,
     content (snd (post_log req now later d)) f = content d f ++ suffix)
  /\ (f ∉ all_files ->
      files (snd (post_log req now later d)) !! f = files d !! f)
  /\ readonly (snd (post_log req now later d)) = readonly d.
Proof.
  destruct (post_log_cases req now later d)
    as [-> | (type & l & Hin & _ & [-> | (entry & _ & ->)])].
  - split; [exists []; now rewrite app_nil_r|]. split; reflexivity.
  - split; [|split; [|reflexivity]].
    + rewrite content_appended. case_decide as E; [subst; eauto|].
      exists []. now rewrite app_nil_r.
    + intros Hf. apply appended_lookup_ne. intros ->. apply Hf.
      apply (bool_decide_unpack _); vm_compute; reflexivity.
  - pose proof (typeFile_known _ Hin) as Hk.
    split; [|split; [|reflexivity]].
    + rewrite !content_appended.
      destruct (decide (f = typeFile type)) as [->|E1].
      * rewrite decide_False by now apply typeFile_not_aggregate. eauto.
      * case_decide as E2; [subst; eauto|]. exists []. now rewrite app_nil_r.
    + intros Hf. rewrite !appended_lookup_ne; [reflexivity| |].
      * intros ->. apply Hf. apply (bool_decide_unpack _); vm_compute; reflexivity.
      * intros ->. contradiction.
Qed.

(** ** Invariants of a run *)

Lemma clear_files_frame names : forall d f,
  f ∉ names \/ f ∈ readonly d ->
  files (clear_files names d) !! f = files d !! f.
Proof.
  induction names as [|n names IH]; intros d f Hf; [reflexivity|].
  cbn [clear_files fold_left]. unfold clear_files in IH. unfold writeFile.
  destruct (decide (n ∈ readonly d)) as [Hn|Hn].
  - apply IH. destruct Hf as [Hf|Hf]; [left|now right].
    intros H. apply Hf. now right.
  - rewrite IH.
    + cbn [files]. apply lookup_insert_ne. intros ->.
      destruct Hf as [Hf|Hf]; [apply Hf; left|contradiction].
    + cbn [readonly]. destruct Hf as [Hf|Hf]; [left|now right].
      intros H. apply Hf. now right.
Qed.

Lemma serve_frame c d f :
  readonly (snd (serve c d)) = readonly d
  /\ (f ∉ all_files \/ f ∈ readonly d ->
      files (snd (serve c d)) !! f = files d !! f).
Proof.
  destruct c as [req now later|req]; cbn [serve].
  - destruct (post_log_cases req now later d)
      as [-> | (type & l & Hin & Hw1 & [-> | (entry & Hw2 & ->)])].
    + split; reflexivity.
    + split; [reflexivity|]. intros Hf. apply appended_lookup_ne. intros ->.
      destruct Hf as [Hf|Hf]; [|contradiction].
      apply Hf. apply (bool_decide_unpack _); vm_compute; reflexivity.
    + split; [reflexivity|]. intros Hf.
      pose proof (typeFile_known _ Hin) as Hk.
      rewrite !appended_lookup_ne; [reflexivity| |].
      * intros ->. destruct Hf as [Hf|Hf]; [|contradiction].
        apply Hf. apply (bool_decide_unpack _); vm_compute; reflexivity.
      * intros ->. destruct Hf as [Hf|Hf]; contradiction.
  - unfold delete_logs.
    destruct (truthy (query_type req) && includes allowedTypes (query_type req))
      eqn:Hsel.
    + apply andb_prop in Hsel as [_ Hi].
      assert (Hin : str_of (query_type req) ∈ allowedTypes).
      { apply includes_allowed in Hi as [-> | [-> | ->]];
          apply (bool_decide_unpack _); vm_compute; reflexivity. }
      pose proof (typeFile_known _ Hin) as Hk.
      unfold writeFile.
      destruct (decide (typeFile (str_of (query_type req)) ∈ readonly d)) as [Hr|Hr];
        cbn [snd]; [split; reflexivity|].
      split; [reflexivity|]. intros Hf. cbn [files].
      apply lookup_insert_ne. intros <-. destruct Hf as [Hf|Hf]; contradiction.
    + cbn [snd]. split; [apply clear_files_readonly|]. apply clear_files_frame.
Qed.

(** X5: whatever submissions and clears are served, in whatever order,
    the permissions stay as they were, and a file that is not one of the
    four stream files, or that cannot be written, stays as it was. *)
Theorem run_leaves_other_files cs : forall d f,
  readonly (run cs d) = readonly d
  /\ (f ∉ all_files \/ f ∈ readonly d -> files (run cs d) !! f = files d !! f).
Proof.
  induction cs as [|c cs IH]; intros d f; [split; reflexivity|].
  cbn [run fold_left]. unfold run in IH.
  destruct (serve_frame c d f) as [Hro Hf].
  destruct (IH (snd (serve c d)) f) as [Hro' Hf'].
  split; [now rewrite Hro'|].
  intros H. rewrite Hf' by (now rewrite Hro). now apply Hf.
Qed.

Lemma run_tidy cs : forall d, tidy d -> tidy (run cs d).
Proof.
  induction cs as [|c cs IH]; intros d Hd; [assumption|].
  cbn [run fold_left]. apply IH.
  destruct c as [req now later|req]; cbn [serve].
  - now apply tidy_after_post_log.
  - now apply tidy_after_delete_logs.
Qed.

(** X6: the files hold whole entries after every run that started with
    files that do: whatever submissions and clears are served, accepted
    or not, the aggregate file is empty or ends with a line break and a
    file of a type is empty or ends with the line of the delimiter. *)
Theorem run_keeps_whole_entries cs d : tidy d -> tidy (run cs d).
Proof. apply run_tidy. Qed.

Lemma run_keeps_whole_entries_witness : tidy (run sample_calls empty_disk).
Proof. apply (run_keeps_whole_entries sample_calls empty_disk). apply tidy_empty. Defined.

(** ** A clear that cannot write *)

(** X7: when the file of a type cannot be written, the clear of that
    type is answered with the status 500 and the message Failed to clear
    logs, and the disk is as it was; a clear of everything passes over
    the same failure: it is answered with success, and the file still
    holds what it held. *)
Theorem clear_of_a_read_only_file t limit d :
  t ∈ allowedTypes -> typeFile t ∈ readonly d ->
  delete_logs (read_request (VStr t) limit) d
  = (failure 500 (lit "Failed to clear logs"), d)
  /\ forall sel,
       includes allowedTypes sel = false ->
       fst (delete_logs (read_request sel limit) d) = cleared (lit "All logs cleared")
       /\ files (snd (delete_logs (read_request sel limit) d)) !! typeFile t
          = files d !! typeFile t.
Proof.
  intros Hin Hro. split.
  - unfold delete_logs, read_request. cbn [query_type].
    rewrite (allowed_truthy _ Hin), (allowed_includes _ Hin). cbn [andb str_of].
    unfold writeFile. now rewrite decide_True.
  - intros sel Hsel. rewrite delete_logs_all by exact Hsel. cbn [fst snd].
    split; [reflexivity|]. apply clear_files_frame. now right.
Qed.

Lemma clear_of_a_read_only_file_witness :
  delete_logs (read_request (VStr (lit "error")) None) locked_errors
  = (failure 500 (lit "Failed to clear logs"), locked_errors)
  /\ forall sel,
       includes allowedTypes sel = false ->
       fst (delete_logs (read_request sel None) locked_errors)
       = cleared (lit "All logs cleared")
       /\ files (snd (delete_logs (read_request sel None) locked_errors))
          !! typeFile (lit "error")
          = files locked_errors !! typeFile (lit "error").
Proof.
  apply (clear_of_a_read_only_file (lit "error") None locked_errors).
  - apply (bool_decide_unpack _); vm_compute; reflexivity.
  - apply (bool_decide_unpack _); vm_compute; reflexivity.
Defined.

(** ** The limit of a read *)

Lemma slice_from_last_n {A} (limit : Z) (l : list A) :
  (0 < limit)%Z -> slice_from (- limit) l = last_n (Z.to_nat limit) l.
Proof.
  intros Hpos. unfold slice_from, last_n.
  destruct (- limit <? 0)%Z eqn:E0; [|apply Z.ltb_ge in E0; lia].
  f_equal. lia.
Qed.

Lemma slice_from_drop {A} (limit : Z) (l : list A) :
  (limit <= 0)%Z -> slice_from (- limit) l = drop (Z.to_nat (- limit)) l.
Proof.
  intros Hle. unfold slice_from.
  destruct (- limit <? 0)%Z eqn:E0; [apply Z.ltb_lt in E0; lia|].
  destruct (Z.min_spec (- limit) (Z.of_nat (length l))) as [[_ ->] | [Hge ->]];
    [reflexivity|].
  rewrite Nat2Z.id. rewrite !drop_ge; [reflexivity|lia|lia].
Qed.

(** No piece of a split at a single character holds that character. *)
Lemma split_go_single c s :
  (c ∉ fst (split_go [c] 0 s)) /\ Forall (fun p => c ∉ p) (snd (split_go [c] 0 s)).
Proof.
  induction s as [|x s [IH1 IH2]]; cbn [split_go].
  - split; [apply not_elem_of_nil|constructor].
  - cbn [is_prefix length Nat.sub]. rewrite andb_true_r.
    destruct (split_go [c] 0 s) as [p ps]; cbn [fst snd] in *.
    destruct (c =? x)%N eqn:E; cbn [fst snd].
    + split; [apply not_elem_of_nil|now constructor].
    + split; [|assumption]. apply N.eqb_neq in E.
      intros [->|H]%elem_of_cons; [now apply E|contradiction].
Qed.

Lemma split_single c s : Forall (fun p => c ∉ p) (split [c] s).
Proof.
  unfold split. destruct (split_go_single c s) as [H1 H2].
  destruct (split_go [c] 0 s); cbn [fst snd] in *. now constructor.
Qed.

Lemma line_feed_free_iff s : line_feed_free s = true <-> 10%N ∉ s.
Proof.
  unfold line_feed_free. induction s as [|c s IH]; cbn [forallb].
  - split; [intros _; apply not_elem_of_nil|reflexivity].
  - rewrite andb_true_iff, IH, negb_true_iff, N.eqb_neq, not_elem_of_cons.
    intuition congruence.
Qed.

Lemma kept_lines_whole data :
  Forall (fun s => nonblank s = true /\ line_feed_free s = true) (kept_lines data).
Proof.
  unfold kept_lines.
  pose proof (split_single 10%N data) as H. change [10%N] with newline in H.
  induction H as [|p ps Hp _ IH]; cbn [List.filter]; [constructor|].
  destruct (nonblank p) eqn:E; [|assumption].
  constructor; [|assumption]. split; [assumption|now apply line_feed_free_iff].
Qed.

Lemma get_logs_kept type limit d data :
  files d !! api_filename type = Some data ->
  get_logs (read_request type (Some limit)) d
  = logs_reply (slice_from (- limit) (kept_lines data)) (api_filename type).
Proof.
  intros Hdata. unfold get_logs, readFile, read_request.
  cbn [query_type query_limit].
  change (default 100%Z (Some limit)) with limit.
  now rewrite Hdata.
Qed.

(** X8: a read of [GET /api/logs] with a positive limit, of a file that
    is there, returns the last [limit] non-blank lines of the file, all
    of them when there are fewer, in the order of the file; the count of
    the reply is the smaller of the limit and the number of such lines,
    and no entry is blank or holds a line break. *)
Theorem api_read_is_bounded type limit d data :
  files d !! api_filename type = Some data -> (0 < limit)%Z ->
  exists logs,
    get_logs (read_request type (Some limit)) d = logs_reply logs (api_filename type)
    /\ logs = last_n (Z.to_nat limit) (kept_lines data)
    /\ length logs = Nat.min (Z.to_nat limit) (length (kept_lines data))
    /\ Forall (fun s => nonblank s = true /\ line_feed_free s = true) logs.
Proof.
  intros Hdata Hpos. exists (last_n (Z.to_nat limit) (kept_lines data)).
  split; [|split; [reflexivity|split]].
  - rewrite (get_logs_kept _ _ _ _ Hdata). now rewrite slice_from_last_n.
  - unfold last_n. rewrite length_drop. lia.
  - unfold last_n. apply Forall_drop, kept_lines_whole.
Qed.

Lemma api_read_is_bounded_witness :
  exists logs,
    get_logs (read_request (VStr (lit "error")) (Some 7%Z)) after_three_errors
    = logs_reply logs (api_filename (VStr (lit "error")))
    /\ logs = last_n (Z.to_nat 7)
                (kept_lines (content after_three_errors (lit "error_logs.txt")))
    /\ length logs
       = Nat.min (Z.to_nat 7)
           (length (kept_lines (content after_three_errors (lit "error_logs.txt"))))
    /\ Forall (fun s => nonblank s = true /\ line_feed_free s = true) logs.
Proof.
  apply (api_read_is_bounded (VStr (lit "error")) 7%Z after_three_errors).
  - vm_compute. reflexivity.
  - lia.
Defined.

(** X9: a limit that is zero, as a limit that is no number is for
    [slice], keeps every non-blank line, and a negative limit [-k] drops
    the first [k] of them: [slice(-limit)] then counts from the start of
    the array.  This holds for the reply of [GET /api/logs] and for the
    aggregate entries of the page, which are the same lines in
    reverse. *)
Theorem nonpositive_limit_counts_from_the_start limit d data :
  files d !! logFile = Some data -> (limit <= 0)%Z ->
  get_logs (read_request VUndef (Some limit)) d
  = logs_reply (drop (Z.to_nat (- limit)) (kept_lines data)) (lit "app_logs.txt")
  /\ view_entries (read_request VUndef (Some limit)) d
     = List.map VStr (rev (drop (Z.to_nat (- limit)) (kept_lines data))).
Proof.
  intros Hdata Hle. split.
  - rewrite (get_logs_aggregate _ _ _ Hdata). fold (kept_lines data).
    now rewrite slice_from_drop.
  - rewrite (view_entries_all _ _ _ _ (or_introl eq_refl) Hdata).
    fold (kept_lines data). now rewrite slice_from_drop.
Qed.

Lemma nonpositive_limit_counts_from_the_start_witness :
  get_logs (read_request VUndef (Some 0%Z)) after_three_errors
  = logs_reply
      (drop (Z.to_nat (- 0)) (kept_lines (content after_three_errors logFile)))
      (lit "app_logs.txt")
  /\ view_entries (read_request VUndef (Some 0%Z)) after_three_errors
     = List.map VStr
         (rev (drop (Z.to_nat (- 0))
                 (kept_lines (content after_three_errors logFile)))).
Proof.
  apply (nonpositive_limit_counts_from_the_start 0%Z after_three_errors).
  - vm_compute. reflexivity.
  - lia.
Defined.

(** With the limit zero, the three lines of the sample are all there. *)
Example limit_zero_keeps_every_line :
  get_logs (read_request VUndef (Some 0%Z)) after_three_errors
  = logs_reply three_lines (lit "app_logs.txt").
Proof. vm_compute. reflexivity. Qed.

(** X10: for one limit and one aggregate file, the page and
    [GET /api/logs] keep the same lines: the entries of the page, for no
    selector and for the selector all, are the entries of the reply in
    reverse. *)
Theorem page_reverses_the_api_read sel limit d data logs file :
  sel = VUndef \/ sel = VStr (lit "all") ->
  files d !! logFile = Some data ->
  get_logs (read_request VUndef (Some limit)) d = logs_reply logs file ->
  view_entries (read_request sel (Some limit)) d = List.map VStr (rev logs).
Proof.
  intros Hsel Hdata Hget.
  rewrite (get_logs_aggregate _ _ _ Hdata) in Hget.
  rewrite (view_entries_all _ _ _ _ Hsel Hdata).
  unfold logs_reply in Hget.
  injection Hget as Hmap _ _.
  assert (Hinj : forall a b : list str, List.map VStr a = List.map VStr b -> a = b).
  { induction a as [|x a IH]; intros [|y b]; cbn; try discriminate; [reflexivity|].
    intros [= -> H]. f_equal. now apply IH. }
  apply Hinj in Hmap. now rewrite Hmap.
Qed.

Lemma page_reverses_the_api_read_witness :
  view_entries (read_request (VStr (lit "all")) (Some 2%Z)) after_three_errors
  = List.map VStr (rev (last_n 2 three_lines)).
Proof.
  apply (page_reverses_the_api_read (VStr (lit "all")) 2%Z after_three_errors
           (content after_three_errors logFile) (last_n 2 three_lines)
           (lit "app_logs.txt")).
  - now right.
  - vm_compute. reflexivity.
  - vm_compute. reflexivity.
Defined.

(** ** The page of a file that is not there *)

(** X11: in a logs directory where neither the aggregate file nor the
    file of a selector exists, the page of the aggregate stream shows
    the empty state, while the page of the selector shows one entry, the
    text No logs found for this type: the test for the empty state of
    line 544 knows the message of the aggregate read only.  The selector
    holds no [/], so that its file is the file of that name in the logs
    directory. *)
Theorem page_of_a_missing_file name limit d :
  name <> [] -> name <> lit "all" -> (47%N ∉ name) ->
  files d !! logFile = None -> files d !! (name ++ lit "_logs.txt") = None ->
  view_logs (read_request VUndef limit) d = Html 200 EmptyState
  /\ view_logs (read_request (VStr (lit "all")) limit) d = Html 200 EmptyState
  /\ view_logs (read_request (VStr name) limit) d
     = Html 200 (Entries [PlainEntry (lit "No logs found for this type")]).
Proof.
  intros Hne Hall _ Hagg Htyped.
  assert (Hincl : includes [lit "all"] (VStr name) = false).
  { cbn [includes existsb]. rewrite orb_false_r. unfold str_eqb.
    now rewrite decide_False. }
  assert (Ht : truthy (VStr name) = true) by now destruct name.
  split; [|split].
  - unfold view_logs, view_entries, view_entries_with, readFile, read_request.
    cbn [query_type query_limit truthy].
    change (includes [lit "all"] (VStr (lit "all"))) with true. cbv iota.
    change (lit "app_logs.txt") with logFile. rewrite Hagg. reflexivity.
  - unfold view_logs, view_entries, view_entries_with, readFile, read_request.
    cbn [query_type query_limit].
    change (truthy (VStr (lit "all"))) with true. cbv iota.
    change (includes [lit "all"] (VStr (lit "all"))) with true. cbv iota.
    change (lit "app_logs.txt") with logFile. rewrite Hagg. reflexivity.
  - unfold view_logs, view_entries, view_entries_with, readFile, read_request.
    cbn [query_type query_limit]. rewrite Ht, Hincl. cbn [toString bind].
    rewrite Htyped. cbn [bind]. reflexivity.
Qed.

Lemma page_of_a_missing_file_witness :
  view_logs (read_request VUndef None) empty_disk = Html 200 EmptyState
  /\ view_logs (read_request (VStr (lit "all")) None) empty_disk = Html 200 EmptyState
  /\ view_logs (read_request (VStr (lit "error")) None) empty_disk
     = Html 200 (Entries [PlainEntry (lit "No logs found for this type")]).
Proof.
  apply (page_of_a_missing_file (lit "error") None empty_disk).
  - discriminate.
  - discriminate.
  - apply (bool_decide_unpack _). vm_compute. reflexivity.
  - reflexivity.
  - reflexivity.
Defined.

(** ** What the pattern of line 553 captures *)

Lemma rep_result {R} (P : R -> Prop) g p : forall s min (k : str -> option R) m,
  (forall s' m', k s' = Some m' -> P m') ->
  rep g p min s k = Some m -> P m.
Proof.
  induction s as [|c s IH]; intros min k m Hk; destruct min as [|min]; cbn [rep].
  - apply Hk.
  - discriminate.
  - destruct g.
    + destruct (p c); [|apply Hk].
      destruct (rep true p 0 s k) as [x|] eqn:E.
      * intros [= <-]. exact (IH 0 k x Hk E).
      * apply Hk.
    + destruct (k (c :: s)) as [x|] eqn:E.
      * intros [= <-]. exact (Hk _ _ E).
      * destruct (p c); [|discriminate]. apply IH, Hk.
  - destruct (p c); [|discriminate]. apply IH, Hk.
Qed.

(** A match has as many slots as the matcher started with. *)
Lemma mt_length {R} (P : R -> Prop) n r :
  forall s caps (k : str -> list (option str) -> option R) m,
    length caps = n ->
    (forall s' caps' m', length caps' = n -> k s' caps' = Some m' -> P m') ->
    mt r s caps k = Some m -> P m.
Proof.
  induction r as [|p|g min p|r1 IH1 r2 IH2|r1 IH1|i r1 IH1|];
    intros s caps k m Hn Hk; cbn [mt].
  - now apply Hk.
  - destruct s as [|c s]; [discriminate|]. destruct (p c); [|discriminate].
    now apply Hk.
  - apply rep_result. intros s' m'. now apply Hk.
  - apply IH1; [assumption|]. intros s' caps' m' Hn'. now apply IH2.
  - destruct (mt r1 s caps k) as [x|] eqn:E.
    + intros [= <-]. exact (IH1 _ _ _ _ Hn Hk E).
    + now apply Hk.
  - apply IH1; [assumption|]. intros s' caps' m' Hn'. apply Hk.
    now rewrite length_insert.
  - destruct s; [|discriminate]. now apply Hk.
Qed.

Lemma str_match_length r groups s m :
  str_match r groups s = Some m -> length m = S groups.
Proof.
  induction s as [|c s IH]; cbn [str_match].
  - destruct (mt r [] _ _) as [x|] eqn:E; [|discriminate].
    intros [= <-]. revert E.
    apply (mt_length (fun m => length m = S groups) (S groups));
      [apply length_replicate|].
    intros s' caps' m' Hn [= <-]. now rewrite length_insert.
  - destruct (mt r (c :: s) _ _) as [x|] eqn:E; [|exact IH].
    intros [= <-]. revert E.
    apply (mt_length (fun m => length m = S groups) (S groups));
      [apply length_replicate|].
    intros s' caps' m' Hn [= <-]. now rewrite length_insert.
Qed.

Lemma group_beyond m i : length m <= i -> group m i = VUndef.
Proof. intros H. unfold group. now rewrite lookup_ge_None_2. Qed.

(** X12: the page never shows the title or the description of a compact
    line.  Whenever the callback of lines 550-591 renders a string as an
    entry with fields, the string holds a backslash, the title of the
    entry is the text undefined and it has no description: the pattern
    of line 553 has two groups, and the callback reads the title and the
    description from a third and a fourth. *)
Theorem matched_line_has_no_title s ty ts t desc :
  render_log (VStr s) = Return (SimpleEntry ty ts t desc) ->
  backslash ∈ s /\ t = lit "undefined" /\ desc = None.
Proof.
  intros H. split.
  - destruct (decide (backslash ∈ s)) as [Hin|Hnin]; [assumption|].
    rewrite render_without_backslash in H by assumption. discriminate.
  - cbn [render_log] in H.
    destruct (str_match line_pattern 2 s) as [m|] eqn:Hm; [|discriminate].
    apply str_match_length in Hm.
    rewrite (group_beyond m 3), (group_beyond m 4) in H by lia.
    destruct (group m 2); try discriminate.
    cbn [toString truthy bind] in H. injection H as _ _ <- <-. now split.
Qed.

Lemma matched_line_has_no_title_witness :
  backslash ∈ matched_line /\ lit "undefined" = lit "undefined"
  /\ @None str = None.
Proof.
  apply (matched_line_has_no_title matched_line (lit "error")
           (VStr (lit "12:00")) (lit "undefined") None).
  vm_compute. reflexivity.
Defined.

Lemma Forall_no_backslash_pieces sep data :
  backslash ∉ data -> Forall (fun s => backslash ∉ s) (split sep data).
Proof.
  intros H.
  assert (HF : Forall (fun c => c <> backslash) data).
  { apply Forall_forall. intros c Hc ->. contradiction. }
  apply (split_all _ sep) in HF.
  eapply Forall_impl; [exact HF|]. cbn beta. intros p Hp Hin.
  rewrite Forall_forall in Hp. now apply (Hp _ Hin).
Qed.

(** X13: an aggregate file that holds no backslash is shown as opaque
    lines throughout: the page is the empty state or has, for each line
    it keeps, newest first, one entry without fields that holds the whole
    line. *)
Theorem aggregate_page_has_no_fields sel limit d data :
  sel = VUndef \/ sel = VStr (lit "all") ->
  files d !! logFile = Some data -> (backslash ∉ data) ->
  view_logs (read_request sel (Some limit)) d = Html 200 EmptyState
  \/ view_logs (read_request sel (Some limit)) d
     = Html 200 (Entries (List.map PlainEntry
                            (rev (slice_from (- limit) (kept_lines data))))).
Proof.
  intros Hsel Hdata Hfree. unfold view_logs.
  rewrite (view_entries_all _ _ _ _ Hsel Hdata). fold (kept_lines data).
  set (lines := rev (slice_from (- limit) (kept_lines data))).
  assert (Hlines : Forall (fun s => backslash ∉ s) lines).
  { subst lines. apply Forall_rev. unfold slice_from. apply Forall_drop.
    unfold kept_lines.
    pose proof (Forall_no_backslash_pieces newline data Hfree) as H.
    induction H as [|p ps Hp _ IH]; cbn [List.filter]; [constructor|].
    destruct (nonblank p); [now constructor|assumption]. }
  assert (Hr : map_outcome render_log (List.map VStr lines)
               = Return (List.map PlainEntry lines)).
  { apply map_outcome_map. eapply Forall_impl; [exact Hlines|].
    intros s Hs. now apply render_without_backslash. }
  rewrite Hr.
  destruct (match List.map VStr lines with
            | [] => true
            | [VStr s] => str_eqb s (lit "No logs found")
            | _ => false
            end); [now left|now right].
Qed.

Lemma aggregate_page_has_no_fields_witness :
  view_logs (read_request VUndef (Some 2%Z)) after_three_errors = Html 200 EmptyState
  \/ view_logs (read_request VUndef (Some 2%Z)) after_three_errors
     = Html 200 (Entries (List.map PlainEntry
                            (rev (slice_from (- 2)
                                    (kept_lines (content after_three_errors logFile)))))).
Proof.
  apply (aggregate_page_has_no_fields VUndef 2%Z after_three_errors).
  - now left.
  - vm_compute. reflexivity.
  - apply (bool_decide_unpack _); vm_compute; reflexivity.
Defined.

(** ** Reading back what was submitted *)

(** An accepted submission is a call of [Logger.log] that returned
    [true]. *)
Lemma post_log_accepted_event props ua addr qt ql now later d b d' :
  post_log (Request (VObj props) ua addr qt ql) now later d = (Json 200 b, d') ->
  exists type l,
    obj_get (lit "type") props = VStr type
    /\ type ∈ allowedTypes
    /\ compact_line now type (obj_get (lit "title") props)
         (or_default (VStr []) (obj_get (lit "description") props)) = Return l
    /\ (let e := Event now type (obj_get (lit "title") props)
                   (or_default (VStr []) (obj_get (lit "description") props))
                   (request_metadata
                      (or_default (VObj []) (obj_get (lit "metadata") props))
                      ua addr) in
        log_event e d = Return (true, d')
        /\ line_of e = Return l
        /\ entry_of e = submitted_entry props ua addr now).
Proof.
  intros H.
  apply post_log_accepted in H
    as (type & l & Htype & Hin & _ & Hl & Hw1 & Hw2 & ->).
  exists type, l. split; [assumption|]. split; [assumption|].
  split; [exact Hl|]. cbv zeta.
  assert (Hentry : entry_of (Event now type (obj_get (lit "title") props)
                     (or_default (VStr []) (obj_get (lit "description") props))
                     (request_metadata
                        (or_default (VObj []) (obj_get (lit "metadata") props))
                        ua addr))
                   = submitted_entry props ua addr now).
  { unfold entry_of, submitted_entry.
    cbn [ev_timestamp ev_type ev_title ev_description ev_metadata].
    rewrite Htype. cbn [str_of].
    rewrite or_default_idem by discriminate. reflexivity. }
  split; [|split; [|exact Hentry]].
  - unfold log_event.
    cbn [ev_timestamp ev_type ev_title ev_description ev_metadata].
    rewrite (Logger_log_ok _ _ _ _ _ _ l)
      by (try assumption; rewrite or_default_idem by discriminate; exact Hl).
    rewrite <- Hentry. reflexivity.
  - unfold line_of.
    cbn [ev_timestamp ev_type ev_title ev_description].
    rewrite or_default_idem by discriminate. exact Hl.
Qed.

(** X14: after any run of submissions and clears from files that hold
    whole entries, an accepted submission that the embedding holds as
    JavaScript does ([modelled]) is the newest entry of its two streams
    for every positive limit: its compact line, when that holds no line
    break, is the first aggregate entry of the page and the last line of
    [GET /api/logs], as the file holds it (a lone surrogate replaced by
    U+FFFD); the entry itself, when its JSON text does not hold the
    delimiter, is the first entry of the page of its type, parsed back
    from its record. *)
Theorem accepted_submission_is_read_back
    cs d props ua addr qt ql now later b d' (limit : Z) :
  tidy d ->
  post_log (Request (VObj props) ua addr qt ql) now later (run cs d)
  = (Json 200 b, d') ->
  modelled (submitted_entry props ua addr now) = true ->
  (0 < limit)%Z ->
  exists type l,
    obj_get (lit "type") props = VStr type
    /\ compact_line now type (obj_get (lit "title") props)
         (or_default (VStr []) (obj_get (lit "description") props)) = Return l
    /\ (line_feed_free l = true ->
        (exists rest,
           view_entries (read_request VUndef (Some limit)) d'
           = VStr (toWellFormed l) :: rest)
        /\ (exists rest,
              get_logs (read_request VUndef (Some limit)) d'
              = logs_reply (rest ++ [toWellFormed l]) (lit "app_logs.txt")))
    /\ (occurs delimiter (ser 0 (submitted_entry props ua addr now)) = false ->
        distinct_keys (submitted_entry props ua addr now) ->
        exists rest,
          view_entries (read_request (VStr type) (Some limit)) d'
          = norm (submitted_entry props ua addr now) :: rest).
Proof.
  intros Hd H Hsafe Hpos.
  apply post_log_accepted_event in H
    as (type & l & Htype & Hin & Hl & Hlog & Hline & Hentry).
  exists type, l. split; [assumption|]. split; [assumption|].
  rewrite <- Hentry in Hsafe.
  destruct (fun H => logged_event_is_newest _ _ _ _ limit (run_tidy cs d Hd) H
                       Hsafe Hlog Hline Hpos) as [Hagg Htyped]; [exact Hin|].
  rewrite Hentry in Htyped. split; assumption.
Qed.

Lemma accepted_submission_is_read_back_witness :
  exists type l,
    obj_get (lit "type") crash_body = VStr type
    /\ compact_line just_after_noon type (obj_get (lit "title") crash_body)
         (or_default (VStr []) (obj_get (lit "description") crash_body)) = Return l
    /\ (line_feed_free l = true ->
        (exists rest,
           view_entries (read_request VUndef (Some 5%Z))
             (run sample_calls empty_disk) = VStr (toWellFormed l) :: rest)
        /\ (exists rest,
              get_logs (read_request VUndef (Some 5%Z)) (run sample_calls empty_disk)
              = logs_reply (rest ++ [toWellFormed l]) (lit "app_logs.txt")))
    /\ (occurs delimiter
          (ser 0 (submitted_entry crash_body (VStr (lit "okhttp/4.9.2"))
                    (VStr (lit "::1")) just_after_noon)) = false ->
        distinct_keys (submitted_entry crash_body (VStr (lit "okhttp/4.9.2"))
                         (VStr (lit "::1")) just_after_noon) ->
        exists rest,
          view_entries (read_request (VStr type) (Some 5%Z))
            (run sample_calls empty_disk)
          = norm (submitted_entry crash_body (VStr (lit "okhttp/4.9.2"))
                    (VStr (lit "::1")) just_after_noon) :: rest).
Proof.
  apply (accepted_submission_is_read_back (removelast sample_calls) empty_disk
           crash_body (VStr (lit "okhttp/4.9.2")) (VStr (lit "::1")) VUndef None
           just_after_noon just_after_noon
           (VObj [(lit "success", VBool true);
                  (lit "message", VStr (lit "Log entry created successfully"));
                  (lit "timestamp", VStr just_after_noon)])
           (run sample_calls empty_disk) 5%Z).
  - apply tidy_empty.
  - vm_compute. reflexivity.
  - vm_compute. reflexivity.
  - lia.
Defined.

(** ** Records that the page cannot render *)

Lemma map_outcome_throws {A B} (f : A -> outcome B) l x :
  x ∈ l -> (exists e, f x = Throw e) -> exists e, map_outcome f l = Throw e.
Proof.
  intros Hin [e He]. induction l as [|y l IH]; [now apply elem_of_nil in Hin|].
  cbn [map_outcome]. apply elem_of_cons in Hin as [<- | Hin].
  - rewrite He. cbn [bind]. eauto.
  - destruct (f y) as [z|e']; cbn [bind]; [|eauto].
    destruct (IH Hin) as [e'' ->]. cbn [bind]. eauto.
Qed.

Lemma render_without_metadata props :
  obj_get (lit "metadata") props = VUndef \/ obj_get (lit "metadata") props = VNull ->
  exists e, render_log (VObj props) = Throw e.
Proof.
  intros Hm. cbn [render_log get_prop bind].
  destruct (toString (obj_get (lit "type") props)); cbn [bind]; [|eauto].
  destruct (toString (obj_get (lit "timestamp") props)); cbn [bind]; [|eauto].
  destruct (toString (obj_get (lit "title") props)); cbn [bind]; [|eauto].
  destruct (if truthy (obj_get (lit "description") props)
            then let! x := toString (obj_get (lit "description") props) in
                 Return (Some x)
            else Return None); cbn [bind]; [|eauto].
  destruct Hm as [-> | ->]; cbn [keys_length bind]; eauto.
Qed.

(** X15: the page of a type fails as a whole on one record without
    metadata.  When an entry that the read keeps is an object whose
    [metadata] is missing or [null], the template throws on
    [Object.keys(log.metadata)] and the reply is the error page with the
    status 500, whatever the other entries are. *)
Theorem record_without_metadata_fails_the_page req d props :
  VObj props ∈ view_entries req d ->
  obj_get (lit "metadata") props = VUndef \/ obj_get (lit "metadata") props = VNull ->
  view_logs req d = Html 500 ErrorPage.
Proof.
  intros Hin Hm. unfold view_logs.
  destruct (map_outcome_throws render_log _ _ Hin (render_without_metadata _ Hm))
    as [e ->].
  destruct (view_entries req d) as [|v [|w rest]].
  - now apply elem_of_nil in Hin.
  - apply list_elem_of_singleton in Hin as <-. reflexivity.
  - now destruct v.
Qed.

Lemma record_without_metadata_fails_the_page_witness :
  view_logs (read_request (VStr (lit "error")) None) two_streams = Html 500 ErrorPage.
Proof.
  apply (record_without_metadata_fails_the_page _ two_streams []).
  - assert (E : view_entries (read_request (VStr (lit "error")) None) two_streams
                = [VObj []]) by (vm_compute; reflexivity).
    rewrite E. left.
  - now left.
Defined.

(** ** The text that is parsed *)

(** X16: what the callback of lines 232-242 hands to [JSON.parse] is the
    text from the first opening brace of the entry to its last closing
    brace.  Whatever the parser does, the entry is what it returns for
    that text and the trimmed entry when it throws, so an entry that
    holds two objects is kept as text by a parser that refuses what
    follows the first; the part before the first brace, taken by itself,
    is kept as its trimmed text. *)
Theorem entry_is_parsed_between_outer_braces {V} (inj : str -> V)
    (parse : str -> outcome V) pre mid post :
  (123%N ∉ pre) -> (125%N ∉ post) ->
  parse_entry_with inj parse (pre ++ 123%N :: mid ++ 125%N :: post)
  = Return (match parse (123%N :: mid ++ [125%N]) with
            | Return v => v
            | Throw _ => inj (trim (pre ++ 123%N :: mid ++ 125%N :: post))
            end)
  /\ parse_entry_with inj parse pre = Return (inj (trim pre)).
Proof.
  intros Hpre Hpost. split.
  - unfold parse_entry_with. rewrite json_pattern_match by assumption.
    cbn [group lookup list_lookup str_of].
    now destruct (parse (123%N :: mid ++ [125%N])).
  - unfold parse_entry_with. now rewrite json_pattern_needs_brace.
Qed.

Lemma entry_is_parsed_between_outer_braces_witness :
  parse_entry two_objects
  = Return (match JSON_parse (123%N :: lit "} {" ++ [125%N]) with
            | Return v => v
            | Throw _ => VStr (trim two_objects)
            end)
  /\ parse_entry newline = Return (VStr (trim newline)).
Proof.
  apply (entry_is_parsed_between_outer_braces VStr JSON_parse newline (lit "} {")
           newline).
  - apply (bool_decide_unpack _). vm_compute. reflexivity.
  - apply (bool_decide_unpack _). vm_compute. reflexivity.
Defined.

(** The entry of the sample is kept as text. *)
Example two_objects_are_text :
  parse_entry two_objects = Return (VStr (lit "{} {}")).
Proof. vm_compute. reflexivity. Qed.

(** ** The first entry of an empty stream *)

Lemma split_line l :
  line_feed_free l = true -> split newline (l ++ newline) = [l; []].
Proof.
  intros Hl. rewrite <- (app_nil_r (l ++ newline)), <- app_assoc.
  rewrite split_free; [reflexivity|discriminate|now apply free_line_feed].
Qed.

Lemma split_record J :
  occurs delimiter J = false ->
  split delimiter (J ++ newline ++ delimiter ++ newline) = [J ++ newline; newline].
Proof.
  intros HJ. rewrite (app_assoc J newline).
  rewrite split_free; [reflexivity|discriminate|].
  apply free_before; [apply delimiter_no_line_feed|discriminate|assumption].
Qed.

Lemma slice_from_one {A} (limit : Z) (x : A) :
  (0 < limit)%Z -> slice_from (- limit) [x] = [x].
Proof.
  intros Hpos. rewrite slice_from_last_n by assumption. unfold last_n.
  cbn [length]. now replace (1 - Z.to_nat limit) with 0 by lia.
Qed.

(** X17: after a clear of everything in a logs directory whose four
    files can be written, the next accepted submission, one that the
    embedding holds as JavaScript does ([modelled]), is the only entry of
    its two streams: when its compact line holds no line break,
    [GET /api/logs] returns that line alone, as the file holds it, with
    the count 1, and the page of the aggregate stream has it as its one
    entry; when its JSON text does not hold the delimiter, the page of
    its type has the entry itself, parsed back from its record, as its
    one entry. *)
Theorem submission_after_clear_is_the_only_entry
    sel lim d props ua addr qt ql now later b d' (limit : Z) :
  includes allowedTypes sel = false ->
  (forall f, f ∈ all_files -> f ∉ readonly d) ->
  post_log (Request (VObj props) ua addr qt ql) now later
    (snd (delete_logs (read_request sel lim) d)) = (Json 200 b, d') ->
  modelled (submitted_entry props ua addr now) = true ->
  (0 < limit)%Z ->
  exists type l,
    obj_get (lit "type") props = VStr type
    /\ compact_line now type (obj_get (lit "title") props)
         (or_default (VStr []) (obj_get (lit "description") props)) = Return l
    /\ (line_feed_free l = true ->
        get_logs (read_request VUndef (Some limit)) d'
        = logs_reply [toWellFormed l] (lit "app_logs.txt")
        /\ view_entries (read_request VUndef (Some limit)) d'
           = [VStr (toWellFormed l)])
    /\ (occurs delimiter (ser 0 (submitted_entry props ua addr now)) = false ->
        distinct_keys (submitted_entry props ua addr now) ->
        view_entries (read_request (VStr type) (Some limit)) d'
        = [norm (submitted_entry props ua addr now)]).
Proof.
  intros Hsel Hw H _ Hpos.
  rewrite delete_logs_all in H by exact Hsel. cbn [snd] in H.
  set (d0 := clear_files all_files d) in *.
  assert (Hempty : forall f, f ∈ all_files -> content d0 f = []).
  { intros f Hf. unfold content, d0. rewrite clear_files_lookup by exact Hw.
    now rewrite decide_True. }
  pose proof (post_log_accepted_event _ _ _ _ _ _ _ _ _ _ H)
    as (type & l & Htype & Hin & Hl & _ & Hline & _).
  apply post_log_accepted in H
    as (type' & l' & Htype' & _ & _ & Hl' & _ & _ & ->).
  assert (type' = type) as -> by congruence.
  assert (l' = l) as -> by congruence.
  pose proof (typeFile_not_aggregate _ Hin) as Hne.
  exists type, l. split; [assumption|]. split; [assumption|]. split.
  - intros Hfree. rewrite <- line_feed_free_stored in Hfree.
    assert (Hdata : files (appended (appended d0 logFile (toWellFormed l ++ newline))
                             (typeFile type)
                             (record_text (submitted_entry props ua addr now)))
                    !! logFile = Some (toWellFormed l ++ newline)).
    { rewrite appended_lookup_ne by (intros E; symmetry in E; exact (Hne E)).
      rewrite appended_lookup_eq.
      rewrite Hempty by (apply (bool_decide_unpack _); vm_compute; reflexivity).
      reflexivity. }
    assert (Hkept : slice_from (- limit)
                      (List.filter nonblank
                         (split newline (toWellFormed l ++ newline)))
                    = [toWellFormed l]).
    { rewrite split_line by assumption. cbn [List.filter].
      rewrite (stored_line_nonblank _ _ Hline).
      change (nonblank []) with false. cbv iota.
      now apply slice_from_one. }
    split.
    + rewrite (get_logs_aggregate _ _ _ Hdata). now rewrite Hkept.
    + rewrite (view_entries_all _ _ _ _ (or_introl eq_refl) Hdata).
      now rewrite Hkept.
  - intros Hocc Hd.
    assert (Hdata : files (appended (appended d0 logFile (toWellFormed l ++ newline))
                             (typeFile type)
                             (record_text (submitted_entry props ua addr now)))
                    !! typeFile type
                    = Some (record_text (submitted_entry props ua addr now))).
    { rewrite appended_lookup_eq. rewrite appended_content_ne by exact Hne.
      rewrite Hempty by now apply typeFile_known. reflexivity. }
    rewrite (view_entries_typed _ _ _ _ Hin Hdata).
    unfold record_text. rewrite split_record by assumption.
    cbn [List.filter].
    pose proof (parse_entry_record_after [] _ (or_introl eq_refl) Hd) as Hp.
    unfold submitted_entry, logEntry in *.
    match goal with
    | |- context [nonblank (ser 0 (VObj ?p) ++ newline)] =>
        pose proof (record_nonblank_after [] p) as Hnb
    end.
    cbn [app] in Hnb. rewrite Hnb.
    change (nonblank newline) with false. cbv iota.
    rewrite slice_from_one by assumption. cbn [rev app map_outcome].
    cbn [app] in Hp. rewrite Hp. reflexivity.
Qed.

Lemma submission_after_clear_is_the_only_entry_witness :
  exists type l,
    obj_get (lit "type") crash_body = VStr type
    /\ compact_line noon type (obj_get (lit "title") crash_body)
         (or_default (VStr []) (obj_get (lit "description") crash_body)) = Return l
    /\ (line_feed_free l = true ->
        get_logs (read_request VUndef (Some 3%Z))
          (snd (post_log crash_request noon just_after_noon
                  (snd (delete_logs (read_request VUndef None) after_three_errors))))
        = logs_reply [toWellFormed l] (lit "app_logs.txt")
        /\ view_entries (read_request VUndef (Some 3%Z))
             (snd (post_log crash_request noon just_after_noon
                     (snd (delete_logs (read_request VUndef None) after_three_errors))))
           = [VStr (toWellFormed l)])
    /\ (occurs delimiter
          (ser 0 (submitted_entry crash_body (VStr (lit "okhttp/4.9.2"))
                    (VStr (lit "::1")) noon)) = false ->
        distinct_keys (submitted_entry crash_body (VStr (lit "okhttp/4.9.2"))
                         (VStr (lit "::1")) noon) ->
        view_entries (read_request (VStr type) (Some 3%Z))
          (snd (post_log crash_request noon just_after_noon
                  (snd (delete_logs (read_request VUndef None) after_three_errors))))
        = [norm (submitted_entry crash_body (VStr (lit "okhttp/4.9.2"))
                   (VStr (lit "::1")) noon)]).
Proof.
  apply (submission_after_clear_is_the_only_entry VUndef None after_three_errors
           crash_body (VStr (lit "okhttp/4.9.2")) (VStr (lit "::1")) VUndef None
           noon just_after_noon
           (VObj [(lit "success", VBool true);
                  (lit "message", VStr (lit "Log entry created successfully"));
                  (lit "timestamp", VStr just_after_noon)])).
  - reflexivity.
  - intros f Hf.
    assert (E : readonly after_three_errors = ∅) by (vm_compute; reflexivity).
    rewrite E. apply not_elem_of_empty.
  - vm_compute. reflexivity.
  - vm_compute. reflexivity.
  - lia.
Defined.

(** ** The lines of a typed stream *)

Lemma delimiter_line_feed_free : line_feed_free delimiter = true.
Proof. vm_compute. reflexivity. Qed.

Lemma delimiter_nonblank : nonblank delimiter = true.
Proof. vm_compute. reflexivity. Qed.

(** X18: [GET /api/logs] reads the file of a type as lines, not as
    events.  For a file of one of the three types that holds whole
    entries and is not empty, the last entry of the reply, for every
    positive limit, is the line of fifty equals signs that closes the
    last record. *)
Theorem typed_api_read_ends_with_the_delimiter t d (limit : Z) :
  tidy d -> t ∈ allowedTypes -> content d (typeFile t) <> [] -> (0 < limit)%Z ->
  exists rest,
    get_logs (read_request (VStr t) (Some limit)) d
    = logs_reply (rest ++ [delimiter]) (typeFile t).
Proof.
  intros [_ Htyped] Hin Hne Hpos.
  destruct (Htyped t Hin) as [E | [X E]]; [contradiction|].
  assert (Hname : api_filename (VStr t) = typeFile t).
  { unfold api_filename.
    now rewrite (allowed_truthy _ Hin), (allowed_includes _ Hin). }
  assert (Hdata : files d !! api_filename (VStr t)
                  = Some ((X ++ newline) ++ delimiter ++ newline)).
  { rewrite Hname. unfold content in E.
    destruct (files d !! typeFile t) as [data|]; cbn in E.
    - subst data. now rewrite <- app_assoc.
    - destruct X; discriminate. }
  rewrite (get_logs_kept _ _ _ _ Hdata), Hname. unfold kept_lines.
  destruct (aggregate_tail (X ++ newline) delimiter) as [F ->];
    [right; now exists X|apply delimiter_line_feed_free|].
  change (F ++ [delimiter; []]) with (F ++ [delimiter] ++ [[]]).
  rewrite filter_nonblank_tail;
    [|repeat constructor; apply delimiter_nonblank|reflexivity].
  destruct (slice_keeps_last limit (List.filter nonblank F) delimiter Hpos)
    as [F' ->].
  eauto.
Qed.

Lemma typed_api_read_ends_with_the_delimiter_witness :
  exists rest,
    get_logs (read_request (VStr (lit "error")) (Some 4%Z))
      (run sample_calls empty_disk)
    = logs_reply (rest ++ [delimiter]) (typeFile (lit "error")).
Proof.
  apply (typed_api_read_ends_with_the_delimiter (lit "error")
           (run sample_calls empty_disk) 4%Z).
  - apply run_tidy, tidy_empty.
  - apply (bool_decide_unpack _). vm_compute. reflexivity.
  - vm_compute. discriminate.
  - lia.
Defined.
